(** * A shallow embedding of the tiered small-object allocator

    Source: [MemoryManager.h] / [MemoryManager.cpp] (BaseMemoryPool,
    GlobalMemoryPool, ThreadLocalMemoryPool, MemoryManager).

    Conventions of the embedding (LP64 build):
    - [size_t] and [std::atomic_size_t] values are integers in [0, 2^64);
      every arithmetic result is reduced by [wrap].
    - pointers are integers, [nullptr] is [0]; pointer arithmetic inside one
      [malloc]ed buffer does not wrap.
    - raw memory is a finite map from addresses to 8-byte words; a
      [FreeBlock] header at address [b] is the word at [b] (field [size])
      and the word at [b + 8] (field [next]).  Words never written read as
      whatever the initial map holds (and as [0] outside of it).
    - [malloc] is an oracle: the system state carries the addresses the next
      calls will return; an exhausted oracle returns [nullptr].  [free] is
      recorded in a log.
    - undefined behaviour (null dereference, out-of-range [operator[]],
      division by zero) is the result [None]. *)

From stdpp Require Import base option list gmap sorting.
From Stdlib Require Import ZArith Lia.

Local Open Scope Z_scope.

(** ** Tunables (MemoryManager.h) *)

Definition MIN_USER_SIZE : Z := 8.
Definition MAX_USER_SIZE : Z := 2048.
Definition BLOCK_ALIGNMENT : Z := 8.
Definition PAGE_SIZE : Z := 4096.
Definition MAX_GLOBAL_FREE_MEMORY : Z := 10 * 1024 * 1024.
Definition RESERVE_BLOCK_COUNT : Z := 4.

(** [sizeof(FreeBlock)]: one [size_t] and one pointer. *)
Definition FREE_BLOCK_HEADER_SIZE : Z := 16.

(** ** Machine arithmetic *)

Definition SIZE_MODULUS : Z := 2 ^ 64.

Definition wrap (z : Z) : Z := z mod SIZE_MODULUS.

(** The assertion of [alignUp]: the step is a power of two. *)
Definition alignUp_assert (alignment : Z) : bool :=
  Z.land alignment (wrap (alignment - 1)) =? 0.

Definition alignUp (value alignment : Z) : Z :=
  Z.land (wrap (value + alignment - 1)) (wrap (Z.lnot (wrap (alignment - 1)))).

(** ** Records *)

Record MemoryStats := {
  allocate_count : Z;
  deallocate_count : Z;
  total_free_memory : Z;
  total_used_memory : Z;
  total_allocated_memory : Z
}.

Record BaseMemoryPool := {
  block_sizes_ : list Z;
  free_lists_ : list Z;
  free_block_counts_ : list Z;
  allocate_count_ : Z;
  deallocate_count_ : Z;
  total_free_memory_ : Z;
  total_allocated_memory_ : Z
}.

(** The C library and raw memory, shared by every pool. *)
Record System := {
  memory : gmap Z Z;
  malloc_results : list Z;
  released : list Z
}.

Definition load (s : System) (a : Z) : Z := default 0 (memory s !! a).

Definition store (a v : Z) (s : System) : System :=
  {| memory := <[a := v]> (memory s);
     malloc_results := malloc_results s;
     released := released s |}.

Definition malloc (s : System) : Z * System :=
  match malloc_results s with
  | [] => (0, s)
  | a :: rest =>
      (a, {| memory := memory s; malloc_results := rest; released := released s |})
  end.

Definition free (a : Z) (s : System) : System :=
  {| memory := memory s;
     malloc_results := malloc_results s;
     released := released s ++ [a] |}.

(** Fields of a [FreeBlock] reached through a pointer; dereferencing
    [nullptr] is undefined. *)
Definition block_size (s : System) (b : Z) : option Z :=
  if b =? 0 then None else Some (load s b).

Definition block_next (s : System) (b : Z) : option Z :=
  if b =? 0 then None else Some (load s (b + 8)).

Definition set_block_size (b v : Z) (s : System) : option System :=
  if b =? 0 then None else Some (store b v s).

Definition set_block_next (b v : Z) (s : System) : option System :=
  if b =? 0 then None else Some (store (b + 8) v s).

(** [std::vector::operator[]]: reading or writing out of range is undefined. *)
Definition vec_get (v : list Z) (i : Z) : option Z :=
  if i <? 0 then None else v !! Z.to_nat i.

Definition vec_set (v : list Z) (i x : Z) : option (list Z) :=
  if (0 <=? i) && (i <? Z.of_nat (length v)) then Some (<[Z.to_nat i := x]> v)
  else None.

(** [std::vector::insert(begin() + i, x)]. *)
Definition vec_insert (v : list Z) (i : nat) (x : Z) : list Z :=
  take i v ++ x :: drop i v.

(** [std::lower_bound] on a range partitioned by [< value]: the position of
    the first element that is not less than [value]. *)
Fixpoint lower_bound (v : list Z) (value : Z) : nat :=
  match v with
  | [] => O
  | x :: rest => if x <? value then S (lower_bound rest value) else O
  end.

(** ** BaseMemoryPool *)

Definition calcAlignedTotalSize (user_size : Z) : Z :=
  let user_size := if user_size =? 0 then MIN_USER_SIZE else user_size in
  let total_size := wrap (user_size + FREE_BLOCK_HEADER_SIZE) in
  alignUp total_size BLOCK_ALIGNMENT.

Definition findBlockSizeIndex (p : BaseMemoryPool) (total_size : Z) : Z :=
  let it := lower_bound (block_sizes_ p) total_size in
  match block_sizes_ p !! it with
  | Some x => if x =? total_size then Z.of_nat it else -1
  | None => -1
  end.

Definition addBlockSizeIfNotExist (total_size : Z) (p : BaseMemoryPool)
  : Z * BaseMemoryPool :=
  let index := findBlockSizeIndex p total_size in
  if negb (index =? -1) then (index, p)
  else
    let it := lower_bound (block_sizes_ p) total_size in
    (Z.of_nat it,
     {| block_sizes_ := vec_insert (block_sizes_ p) it total_size;
        free_lists_ := vec_insert (free_lists_ p) it 0;
        free_block_counts_ := vec_insert (free_block_counts_ p) it 0;
        allocate_count_ := allocate_count_ p;
        deallocate_count_ := deallocate_count_ p;
        total_free_memory_ := total_free_memory_ p;
        total_allocated_memory_ := total_allocated_memory_ p |}).

Definition empty_pool : BaseMemoryPool :=
  {| block_sizes_ := []; free_lists_ := []; free_block_counts_ := [];
     allocate_count_ := 0; deallocate_count_ := 0;
     total_free_memory_ := 0; total_allocated_memory_ := 0 |}.

(** The constructor's loop: [user_size] runs from [MIN_USER_SIZE] while
    [user_size <= MAX_USER_SIZE], in steps of [BLOCK_ALIGNMENT]. *)
Fixpoint seed_classes (rounds : nat) (user_size : Z) (p : BaseMemoryPool)
  : BaseMemoryPool :=
  match rounds with
  | O => p
  | S rounds' =>
      if user_size <=? MAX_USER_SIZE then
        let total_size := calcAlignedTotalSize user_size in
        seed_classes rounds' (wrap (user_size + BLOCK_ALIGNMENT))
          (snd (addBlockSizeIfNotExist total_size p))
      else p
  end.

Definition new_BaseMemoryPool : BaseMemoryPool :=
  seed_classes (Z.to_nat (MAX_USER_SIZE / BLOCK_ALIGNMENT + 1)) MIN_USER_SIZE empty_pool.

(** The loop body of [allocateBatch]: slot [i] of the page becomes a block
    whose header is [{total_size, nullptr}], linked behind [prev]. *)
Fixpoint thread_blocks (count : nat) (i page total_size index prev : Z)
    (fl : list Z) (s : System) : option (list Z * System) :=
  match count with
  | O => Some (fl, s)
  | S count' =>
      let block := page + wrap (i * total_size) in
      s ← set_block_size block total_size s;
      s ← set_block_next block 0 s;
      '(fl, s) ← (if prev =? 0
                  then fl ← vec_set fl index block; Some (fl, s)
                  else s ← set_block_next prev block s; Some (fl, s));
      thread_blocks count' (wrap (i + 1)) page total_size index block fl s
  end.

Definition allocateBatch (total_size index : Z) (p : BaseMemoryPool) (s : System)
  : option (bool * BaseMemoryPool * System) :=
  if (index <? 0) || (Z.of_nat (length (block_sizes_ p)) <=? index)
  then Some (false, p, s)
  else if (total_size =? 0) || (PAGE_SIZE <? total_size) then Some (false, p, s)
  else
    let block_count := PAGE_SIZE / total_size in
    if block_count =? 0 then Some (false, p, s)
    else
      let '(page, s) := malloc s in
      if page =? 0 then Some (false, p, s)
      else
        '(fl, s) ← thread_blocks (Z.to_nat block_count) 0 page total_size index 0
                     (free_lists_ p) s;
        c ← vec_get (free_block_counts_ p) index;
        counts ← vec_set (free_block_counts_ p) index (wrap (c + block_count));
        Some (true,
              {| block_sizes_ := block_sizes_ p;
                 free_lists_ := fl;
                 free_block_counts_ := counts;
                 allocate_count_ := allocate_count_ p;
                 deallocate_count_ := deallocate_count_ p;
                 total_free_memory_ :=
                   wrap (total_free_memory_ p + wrap (total_size * block_count));
                 total_allocated_memory_ :=
                   wrap (total_allocated_memory_ p + PAGE_SIZE) |},
              s).

(** The inner loop of [reclaimIdleMemory]: at most [steps] moves along the
    list, stopping early at the last block. *)
Fixpoint seek_release_head (steps : nat) (prev release_head : Z) (s : System)
  : option (Z * Z) :=
  match steps with
  | O => Some (prev, release_head)
  | S steps' =>
      nxt ← block_next s release_head;
      if nxt =? 0 then Some (prev, release_head)
      else seek_release_head steps' release_head nxt s
  end.

(** One round of the loop of [reclaimIdleMemory], for class [i]; the state
    is the running [reclaimed_size], the pool and the system. *)
Definition reclaim_class (i : Z) (st : Z * BaseMemoryPool * System)
  : option (Z * BaseMemoryPool * System) :=
  let '(reclaimed_size, p, s) := st in
  total_size ← vec_get (block_sizes_ p) i;
  current_count ← vec_get (free_block_counts_ p) i;
  if current_count <=? RESERVE_BLOCK_COUNT then Some st
  else
    let release_count := wrap (current_count - RESERVE_BLOCK_COUNT) in
    if total_size =? 0 then None
    else
      let blocks_per_page := PAGE_SIZE / total_size in
      if blocks_per_page =? 0 then Some st
      else
        let release_count := wrap (release_count / blocks_per_page * blocks_per_page) in
        if release_count =? 0 then Some st
        else
          head ← vec_get (free_lists_ p) i;
          let remaining := wrap (current_count - release_count) in
          '(prev, release_head) ←
            seek_release_head (Z.to_nat (wrap (remaining - 1))) 0 head s;
          if release_head =? 0 then Some st
          else
            '(fl, s) ← (if prev =? 0
                        then fl ← vec_set (free_lists_ p) i 0; Some (fl, s)
                        else s ← set_block_next prev 0 s; Some (free_lists_ p, s));
            let page := release_head in
            let reclaimed_size :=
              wrap (reclaimed_size + wrap (total_size * release_count)) in
            counts ← vec_set (free_block_counts_ p) i
                       (wrap (current_count - release_count));
            Some (reclaimed_size,
                  {| block_sizes_ := block_sizes_ p;
                     free_lists_ := fl;
                     free_block_counts_ := counts;
                     allocate_count_ := allocate_count_ p;
                     deallocate_count_ := deallocate_count_ p;
                     total_free_memory_ :=
                       wrap (total_free_memory_ p - wrap (total_size * release_count));
                     total_allocated_memory_ := total_allocated_memory_ p |},
                  free page s).

Fixpoint reclaim_loop (rounds : nat) (i : Z) (st : Z * BaseMemoryPool * System)
  : option (Z * BaseMemoryPool * System) :=
  match rounds with
  | O => Some st
  | S rounds' => st ← reclaim_class i st; reclaim_loop rounds' (i + 1) st
  end.

Definition reclaimIdleMemory (p : BaseMemoryPool) (s : System)
  : option (Z * BaseMemoryPool * System) :=
  reclaim_loop (length (block_sizes_ p)) 0 (0, p, s).

(** [allocate]: the result is the user pointer ([0] for [nullptr]).  The
    nested test on the index returned by [addBlockSizeIfNotExist] is written
    once, after the lookup. *)
Definition allocate (user_size : Z) (p : BaseMemoryPool) (s : System)
  : option (Z * BaseMemoryPool * System) :=
  if MAX_USER_SIZE <? user_size then Some (0, p, s)
  else
    let total_size := calcAlignedTotalSize user_size in
    let index := findBlockSizeIndex p total_size in
    let '(index, p) :=
      if index =? -1 then addBlockSizeIfNotExist total_size p else (index, p) in
    if index =? -1 then Some (0, p, s)
    else
      head ← vec_get (free_lists_ p) index;
      '(ok, p, s) ← (if head =? 0 then allocateBatch total_size index p s
                     else Some (true, p, s));
      if negb ok then Some (0, p, s)
      else
        block ← vec_get (free_lists_ p) index;
        next ← block_next s block;
        fl ← vec_set (free_lists_ p) index next;
        c ← vec_get (free_block_counts_ p) index;
        counts ← vec_set (free_block_counts_ p) index (wrap (c - 1));
        size ← block_size s block;
        Some (block + FREE_BLOCK_HEADER_SIZE,
              {| block_sizes_ := block_sizes_ p;
                 free_lists_ := fl;
                 free_block_counts_ := counts;
                 allocate_count_ := wrap (allocate_count_ p + 1);
                 deallocate_count_ := deallocate_count_ p;
                 total_free_memory_ := wrap (total_free_memory_ p - size);
                 total_allocated_memory_ := total_allocated_memory_ p |},
              s).

Definition deallocate (user_ptr : Z) (p : BaseMemoryPool) (s : System)
  : option (BaseMemoryPool * System) :=
  if user_ptr =? 0 then Some (p, s)
  else
    let block := user_ptr - FREE_BLOCK_HEADER_SIZE in
    total_size ← block_size s block;
    if (total_size =? 0) || (total_size <? calcAlignedTotalSize MIN_USER_SIZE)
    then Some (p, free user_ptr s)
    else
      let index := findBlockSizeIndex p total_size in
      if index =? -1 then Some (p, free user_ptr s)
      else
        head ← vec_get (free_lists_ p) index;
        s ← set_block_next block head s;
        fl ← vec_set (free_lists_ p) index block;
        c ← vec_get (free_block_counts_ p) index;
        counts ← vec_set (free_block_counts_ p) index (wrap (c + 1));
        Some ({| block_sizes_ := block_sizes_ p;
                 free_lists_ := fl;
                 free_block_counts_ := counts;
                 allocate_count_ := allocate_count_ p;
                 deallocate_count_ := wrap (deallocate_count_ p + 1);
                 total_free_memory_ := wrap (total_free_memory_ p + total_size);
                 total_allocated_memory_ := total_allocated_memory_ p |},
              s).

(** [while (last->next) last = last->next;] has no bound of its own: [fuel]
    bounds its rounds, and running out of it gives no result. *)
Fixpoint last_block (fuel : nat) (last : Z) (s : System) : option Z :=
  match fuel with
  | O => None
  | S fuel' =>
      nxt ← block_next s last;
      if nxt =? 0 then Some last else last_block fuel' nxt s
  end.

(** One round of the loop of [transferTo], for class [i] of the source; the
    state is the source pool, the destination pool (a different object) and
    the system. *)
Definition transfer_class (fuel : nat) (i : Z)
    (st : BaseMemoryPool * BaseMemoryPool * System)
  : option (BaseMemoryPool * BaseMemoryPool * System) :=
  let '(src, dest, s) := st in
  head ← vec_get (free_lists_ src) i;
  if head =? 0 then Some st
  else
    total_size ← vec_get (block_sizes_ src) i;
    let dest_index := findBlockSizeIndex dest total_size in
    let '(dest_index, dest) :=
      if dest_index =? -1 then addBlockSizeIfNotExist total_size dest
      else (dest_index, dest) in
    if dest_index =? -1 then Some (src, dest, s)
    else
      last ← last_block fuel head s;
      dest_head ← vec_get (free_lists_ dest) dest_index;
      s ← set_block_next last dest_head s;
      dest_fl ← vec_set (free_lists_ dest) dest_index head;
      block_count ← vec_get (free_block_counts_ src) i;
      dest_c ← vec_get (free_block_counts_ dest) dest_index;
      dest_counts ← vec_set (free_block_counts_ dest) dest_index
                      (wrap (dest_c + block_count));
      src_fl ← vec_set (free_lists_ src) i 0;
      src_counts ← vec_set (free_block_counts_ src) i 0;
      Some ({| block_sizes_ := block_sizes_ src;
               free_lists_ := src_fl;
               free_block_counts_ := src_counts;
               allocate_count_ := allocate_count_ src;
               deallocate_count_ := deallocate_count_ src;
               total_free_memory_ :=
                 wrap (total_free_memory_ src - wrap (total_size * block_count));
               total_allocated_memory_ := total_allocated_memory_ src |},
            {| block_sizes_ := block_sizes_ dest;
               free_lists_ := dest_fl;
               free_block_counts_ := dest_counts;
               allocate_count_ := allocate_count_ dest;
               deallocate_count_ := deallocate_count_ dest;
               total_free_memory_ :=
                 wrap (total_free_memory_ dest + wrap (total_size * block_count));
               total_allocated_memory_ := total_allocated_memory_ dest |},
            s).

Fixpoint transfer_loop (fuel rounds : nat) (i : Z)
    (st : BaseMemoryPool * BaseMemoryPool * System)
  : option (BaseMemoryPool * BaseMemoryPool * System) :=
  match rounds with
  | O => Some st
  | S rounds' => st ← transfer_class fuel i st; transfer_loop fuel rounds' (i + 1) st
  end.

(** [src.transferTo(dest)]: the new source, the new destination, the system. *)
Definition transferTo (fuel : nat) (src dest : BaseMemoryPool) (s : System)
  : option (BaseMemoryPool * BaseMemoryPool * System) :=
  transfer_loop fuel (length (free_lists_ src)) 0 (src, dest, s).

Definition getStats (p : BaseMemoryPool) : MemoryStats :=
  {| allocate_count := allocate_count_ p;
     deallocate_count := deallocate_count_ p;
     total_free_memory := total_free_memory_ p;
     total_allocated_memory := total_allocated_memory_ p;
     total_used_memory := wrap (total_allocated_memory_ p - total_free_memory_ p) |}.

(** ** GlobalMemoryPool

    The mutex serialises the callers; each method is one atomic step on the
    wrapped pool. *)
Module GlobalMemoryPool.

Record t := { pool_ : BaseMemoryPool }.

Definition allocate (user_size : Z) (g : t) (s : System)
  : option (Z * t * System) :=
  '(r, p, s) ← allocate user_size (pool_ g) s;
  Some (r, {| pool_ := p |}, s).

Definition deallocate (user_ptr : Z) (g : t) (s : System) : option (t * System) :=
  '(p, s) ← deallocate user_ptr (pool_ g) s;
  if MAX_GLOBAL_FREE_MEMORY <? total_free_memory (getStats p) then
    '(reclaimed, p, s) ← reclaimIdleMemory p s;
    Some ({| pool_ := p |}, s)
  else Some ({| pool_ := p |}, s).

Definition transferFrom (fuel : nat) (src : BaseMemoryPool) (g : t) (s : System)
  : option (BaseMemoryPool * t * System) :=
  '(src, p, s) ← transferTo fuel src (pool_ g) s;
  if MAX_GLOBAL_FREE_MEMORY <? total_free_memory (getStats p) then
    '(reclaimed, p, s) ← reclaimIdleMemory p s;
    Some (src, {| pool_ := p |}, s)
  else Some (src, {| pool_ := p |}, s).

Definition getGlobalStats (g : t) : MemoryStats := getStats (pool_ g).

(** [getInstance]'s function-local static, default constructed. *)
Definition instance : t := {| pool_ := new_BaseMemoryPool |}.

End GlobalMemoryPool.

(** ** ThreadLocalMemoryPool *)
Module ThreadLocalMemoryPool.

Record t := { pool_ : BaseMemoryPool }.

Definition new : t := {| pool_ := new_BaseMemoryPool |}.

Definition allocate (user_size : Z) (l : t) (s : System)
  : option (Z * t * System) :=
  '(r, p, s) ← allocate user_size (pool_ l) s;
  Some (r, {| pool_ := p |}, s).

Definition deallocate (user_ptr : Z) (l : t) (s : System) : option (t * System) :=
  '(p, s) ← deallocate user_ptr (pool_ l) s;
  Some ({| pool_ := p |}, s).

Definition getLocalStats (l : t) : MemoryStats := getStats (pool_ l).

(** The destructor, run when the owning thread exits. *)
Definition destroy (fuel : nat) (l : t) (g : GlobalMemoryPool.t) (s : System)
  : option (GlobalMemoryPool.t * System) :=
  '(_, g, s) ← GlobalMemoryPool.transferFrom fuel (pool_ l) g s;
  Some (g, s).

End ThreadLocalMemoryPool.

(** ** MemoryManager

    The state seen by one thread: its [thread_local] pool, the process-wide
    singleton and the system. *)
Module MemoryManager.

Record state := {
  local_pool_ : ThreadLocalMemoryPool.t;
  global_pool : GlobalMemoryPool.t;
  system : System
}.

Definition allocate (user_size : Z) (m : state) : option (Z * state) :=
  '(p, l, s) ← ThreadLocalMemoryPool.allocate user_size (local_pool_ m) (system m);
  if negb (p =? 0) then
    Some (p, {| local_pool_ := l; global_pool := global_pool m; system := s |})
  else
    '(p, g, s) ← GlobalMemoryPool.allocate user_size (global_pool m) s;
    if negb (p =? 0) then
      Some (p, {| local_pool_ := l; global_pool := g; system := s |})
    else
      let aligned_size := alignUp user_size BLOCK_ALIGNMENT in
      let '(p, s) := malloc s in
      Some (p, {| local_pool_ := l; global_pool := g; system := s |}).

Definition deallocate (user_ptr : Z) (m : state) : option state :=
  if user_ptr =? 0 then Some m
  else
    '(l, s) ← ThreadLocalMemoryPool.deallocate user_ptr (local_pool_ m) (system m);
    Some {| local_pool_ := l; global_pool := global_pool m; system := s |}.

Definition getGlobalStats (m : state) : MemoryStats :=
  GlobalMemoryPool.getGlobalStats (global_pool m).

Definition getLocalStats (m : state) : MemoryStats :=
  ThreadLocalMemoryPool.getLocalStats (local_pool_ m).

End MemoryManager.

(** ** Reading a freelist out of memory *)

(** [is_list s head l]: following [next] from [head] visits exactly the
    blocks [l] and then reaches [nullptr]. *)
Inductive is_list (s : System) : Z → list Z → Prop :=
  | is_list_nil : is_list s 0 []
  | is_list_cons b l :
      b ≠ 0 → is_list s (load s (b + 8)) l → is_list s b (b :: l).

Fixpoint list_blocks (fuel : nat) (s : System) (head : Z) : option (list Z) :=
  match fuel with
  | O => None
  | S fuel' =>
      if head =? 0 then Some []
      else rest ← list_blocks fuel' s (load s (head + 8)); Some (head :: rest)
  end.

(** The sum the pool's [total_free_memory_] is meant to track. *)
Definition class_bytes (sizes counts : list Z) : Z :=
  foldr Z.add 0 (zip_with Z.mul sizes counts).

(** ** Notions used in the statements, and concrete runs *)

(** The pool [allocate] builds from the pool [p] it pops from. *)
Definition popped (index next size : Z) (c : Z) (p : BaseMemoryPool) : BaseMemoryPool :=
  {| block_sizes_ := block_sizes_ p;
     free_lists_ := <[Z.to_nat index := next]> (free_lists_ p);
     free_block_counts_ := <[Z.to_nat index := wrap (c - 1)]> (free_block_counts_ p);
     allocate_count_ := wrap (allocate_count_ p + 1);
     deallocate_count_ := deallocate_count_ p;
     total_free_memory_ := wrap (total_free_memory_ p - size);
     total_allocated_memory_ := total_allocated_memory_ p |}.

(** The pool [deallocate] builds when it pushes a block of [total_size]
    bytes on class [index], whose count was [c]. *)
Definition pushed (index block total_size c : Z) (p : BaseMemoryPool) : BaseMemoryPool :=
  {| block_sizes_ := block_sizes_ p;
     free_lists_ := <[Z.to_nat index := block]> (free_lists_ p);
     free_block_counts_ := <[Z.to_nat index := wrap (c + 1)]> (free_block_counts_ p);
     allocate_count_ := allocate_count_ p;
     deallocate_count_ := wrap (deallocate_count_ p + 1);
     total_free_memory_ := wrap (total_free_memory_ p + total_size);
     total_allocated_memory_ := total_allocated_memory_ p |}.

(** A system whose [malloc] hands out five fresh pages. *)
Definition five_pages : System :=
  {| memory := ∅;
     malloc_results := [65536; 131072; 196608; 262144; 327680];
     released := [] |}.

(** Five blocks of 2048 user bytes (class total 2064, one block per page) are
    allocated and given back, then idle memory is reclaimed. *)
Definition reclaim_run : option (BaseMemoryPool * System) :=
  '(a1, p, s) ← allocate 2048 new_BaseMemoryPool five_pages;
  '(a2, p, s) ← allocate 2048 p s;
  '(a3, p, s) ← allocate 2048 p s;
  '(a4, p, s) ← allocate 2048 p s;
  '(a5, p, s) ← allocate 2048 p s;
  '(p, s) ← deallocate a1 p s;
  '(p, s) ← deallocate a2 p s;
  '(p, s) ← deallocate a3 p s;
  '(p, s) ← deallocate a4 p s;
  '(p, s) ← deallocate a5 p s;
  '(_, p, s) ← reclaimIdleMemory p s;
  Some (p, s).

(** A system whose [malloc] hands out three pages and then, once the first
    one has been passed to [free], hands that one out again. *)
Definition reused_page : System :=
  {| memory := ∅;
     malloc_results := [65536; 131072; 196608; 65536];
     released := [] |}.

(** Six blocks of 2032 user bytes (class total 2048, two blocks per page)
    are allocated and given back, idle memory is reclaimed, and two more
    allocations follow: one of 8 bytes, one of 2032 bytes. *)
Definition page_reuse_run : option (list Z * BaseMemoryPool * System) :=
  '(a1, p, s) ← allocate 2032 new_BaseMemoryPool reused_page;
  '(a2, p, s) ← allocate 2032 p s;
  '(a3, p, s) ← allocate 2032 p s;
  '(a4, p, s) ← allocate 2032 p s;
  '(a5, p, s) ← allocate 2032 p s;
  '(a6, p, s) ← allocate 2032 p s;
  '(p, s) ← deallocate a6 p s;
  '(p, s) ← deallocate a5 p s;
  '(p, s) ← deallocate a1 p s;
  '(p, s) ← deallocate a4 p s;
  '(p, s) ← deallocate a3 p s;
  '(p, s) ← deallocate a2 p s;
  '(_, p, s) ← reclaimIdleMemory p s;
  let freed_before_reuse := released s in
  '(b1, p, s) ← allocate 8 p s;
  '(b2, p, s) ← allocate 2032 p s;
  Some (freed_before_reuse, p, s).

(** The blocks of a page carved for one class, in address order. *)
Fixpoint page_blocks (count : nat) (block total_size : Z) : list Z :=
  match count with
  | O => []
  | S count' => block :: page_blocks count' (block + total_size) total_size
  end.

(** The freshly constructed pool: 256 classes, of total sizes 24, 32, ...,
    2064, all lists empty, all counters zero. *)
Definition seeded_sizes : list Z :=
  (λ k : nat, 24 + 8 * Z.of_nat k) <$> seq 0 256.

(** A system whose [malloc] hands out one page. *)
Definition one_page : System :=
  {| memory := ∅; malloc_results := [65536]; released := [] |}.

Definition in_range (z : Z) : Prop := 0 ≤ z < SIZE_MODULUS.

(** The number of blocks [reclaimIdleMemory] takes from a class, as its loop
    body computes it. *)
Definition release_count (total_size current_count : Z) : Z :=
  if current_count <=? RESERVE_BLOCK_COUNT then 0
  else
    let blocks_per_page := PAGE_SIZE / total_size in
    if blocks_per_page =? 0 then 0
    else wrap (wrap (current_count - RESERVE_BLOCK_COUNT)
               / blocks_per_page * blocks_per_page).

(** The pool [reclaimIdleMemory] leaves when it releases [rc] blocks of
    class [i]. *)
Definition reclaimed_from (i total_size c rc : Z) (fl : list Z) (p : BaseMemoryPool)
  : BaseMemoryPool :=
  {| block_sizes_ := block_sizes_ p;
     free_lists_ := fl;
     free_block_counts_ := <[Z.to_nat i := c - rc]> (free_block_counts_ p);
     allocate_count_ := allocate_count_ p;
     deallocate_count_ := deallocate_count_ p;
     total_free_memory_ := wrap (total_free_memory_ p - wrap (total_size * rc));
     total_allocated_memory_ := total_allocated_memory_ p |}.

(** What a whole pass of [reclaimIdleMemory] leaves in each class, and the
    bytes it takes. *)
Definition settle (sizes counts : list Z) : list Z :=
  zip_with (λ total_size c, c - release_count total_size c) sizes counts.

Definition released_bytes (sizes counts : list Z) : Z :=
  class_bytes sizes (zip_with release_count sizes counts).

(** The most a class keeps after [reclaimIdleMemory]. *)
Definition retained_cap (total_size : Z) : Z :=
  RESERVE_BLOCK_COUNT - 1 + PAGE_SIZE / total_size.

(** A pool whose counters are in step: the class table is the seeded one,
    one count per class, and [total_free_memory_] is the wrapped sum of
    size times count. *)
Record accounted (p : BaseMemoryPool) : Prop := {
  accounted_sizes : block_sizes_ p = seeded_sizes;
  accounted_length : length (free_block_counts_ p) = length (block_sizes_ p);
  accounted_range : Forall in_range (free_block_counts_ p);
  accounted_sum :
    total_free_memory_ p = wrap (class_bytes (block_sizes_ p) (free_block_counts_ p))
}.

(** The source pool after [transferTo] has moved class [i] out of it. *)
Definition drained (i total_size c : Z) (src : BaseMemoryPool) : BaseMemoryPool :=
  {| block_sizes_ := block_sizes_ src;
     free_lists_ := <[Z.to_nat i := 0]> (free_lists_ src);
     free_block_counts_ := <[Z.to_nat i := 0]> (free_block_counts_ src);
     allocate_count_ := allocate_count_ src;
     deallocate_count_ := deallocate_count_ src;
     total_free_memory_ := wrap (total_free_memory_ src - wrap (total_size * c));
     total_allocated_memory_ := total_allocated_memory_ src |}.

(** The destination pool after [transferTo] has spliced [c] blocks of
    [total_size] bytes, starting at [head], into its class [j]. *)
Definition received (j head total_size dest_c c : Z) (dest : BaseMemoryPool)
  : BaseMemoryPool :=
  {| block_sizes_ := block_sizes_ dest;
     free_lists_ := <[Z.to_nat j := head]> (free_lists_ dest);
     free_block_counts_ := <[Z.to_nat j := wrap (dest_c + c)]> (free_block_counts_ dest);
     allocate_count_ := allocate_count_ dest;
     deallocate_count_ := deallocate_count_ dest;
     total_free_memory_ := wrap (total_free_memory_ dest + wrap (total_size * c));
     total_allocated_memory_ := total_allocated_memory_ dest |}.

(** The free count the pool holds for a class total: the one at the index
    [findBlockSizeIndex] returns, zero when there is no such class. *)
Definition class_count (p : BaseMemoryPool) (total_size : Z) : Z :=
  default 0 (vec_get (free_block_counts_ p) (findBlockSizeIndex p total_size)).

(** A table that [findBlockSizeIndex] can search, with a count per class. *)
Definition table_ok (p : BaseMemoryPool) : Prop :=
  StronglySorted Z.lt (block_sizes_ p) ∧
  length (free_block_counts_ p) = length (block_sizes_ p).

Global Instance in_range_dec z : Decision (in_range z).
Proof. unfold in_range. apply _. Defined.

(** A system without pages, whose memory holds the header word 80 at
    address 100. *)
Definition header_80 : System :=
  {| memory := {[100 := 80]}; malloc_results := []; released := [] |}.

(** A pool that has carved one page for 64-byte requests and got its block
    back: 51 free blocks in class 80. *)
Definition donor : option (BaseMemoryPool * System) :=
  '(a, p, s) ← allocate 64 new_BaseMemoryPool one_page;
  deallocate a p s.

(** A pool with five free blocks in class 2064, one per page. *)
Definition five_free : option (BaseMemoryPool * System) :=
  '(a1, p, s) ← allocate 2048 new_BaseMemoryPool five_pages;
  '(a2, p, s) ← allocate 2048 p s;
  '(a3, p, s) ← allocate 2048 p s;
  '(a4, p, s) ← allocate 2048 p s;
  '(a5, p, s) ← allocate 2048 p s;
  '(p, s) ← deallocate a1 p s;
  '(p, s) ← deallocate a2 p s;
  '(p, s) ← deallocate a3 p s;
  '(p, s) ← deallocate a4 p s;
  deallocate a5 p s.

Definition facade_state : MemoryManager.state :=
  {| MemoryManager.local_pool_ := ThreadLocalMemoryPool.new;
     MemoryManager.global_pool := GlobalMemoryPool.instance;
     MemoryManager.system := header_80 |}.

(** ** Two more runs *)

(** [n] calls of [GlobalMemoryPool::allocate] for the same size; the
    returned pointers, in order. *)
Fixpoint global_allocate_many (n : nat) (user_size : Z) (g : GlobalMemoryPool.t)
    (s : System) : option (list Z * GlobalMemoryPool.t * System) :=
  match n with
  | O => Some ([], g, s)
  | S n' =>
      '(a, g, s) ← GlobalMemoryPool.allocate user_size g s;
      '(rest, g, s) ← global_allocate_many n' user_size g s;
      Some (a :: rest, g, s)
  end.

(** [GlobalMemoryPool::deallocate] of each pointer of a list, in order. *)
Fixpoint global_deallocate_all (ptrs : list Z) (g : GlobalMemoryPool.t) (s : System)
  : option (GlobalMemoryPool.t * System) :=
  match ptrs with
  | [] => Some (g, s)
  | a :: rest =>
      '(g, s) ← GlobalMemoryPool.deallocate a g s;
      global_deallocate_all rest g s
  end.

(** A system whose [malloc] hands out 2561 consecutive pages from 65536 on
    and then, once it has been passed to [free], the page at 10543104 (the
    2559th of them) again. *)
Definition many_pages : System :=
  {| memory := ∅;
     malloc_results :=
       ((λ i : nat, 65536 + PAGE_SIZE * Z.of_nat i) <$> seq 0 (Z.to_nat 2561))
       ++ [10543104];
     released := [] |}.

(** The global pool hands out 5122 blocks of 2032 user bytes (class total
    2048, two per page) and gets the first 5121 back, in the order it handed
    them out; the last of these calls finds more than 10 MiB free and
    reclaims.  Then one block of 8 bytes and four of 2032 bytes are
    allocated.  The result is the log of [free] after the 5121 calls, the
    pointer of the block of 8 bytes, and the state in which that block is
    about to be given back. *)
Definition global_overflow_run
  : option (list Z * Z * GlobalMemoryPool.t * System) :=
  '(ptrs, g, s) ← global_allocate_many (Z.to_nat 5122) 2032
                    GlobalMemoryPool.instance many_pages;
  '(g, s) ← global_deallocate_all (take (Z.to_nat 5121) ptrs) g s;
  let freed := released s in
  '(b, g, s) ← GlobalMemoryPool.allocate 8 g s;
  '(_, g, s) ← global_allocate_many 4 2032 g s;
  Some (freed, b, g, s).

(** The run of [reclaim_run], followed by three allocations of 2048 bytes:
    the pool that is about to be transferred. *)
Definition drained_after_reclaim : option (BaseMemoryPool * System) :=
  '(p, s) ← reclaim_run;
  '(_, p, s) ← allocate 2048 p s;
  '(_, p, s) ← allocate 2048 p s;
  '(_, p, s) ← allocate 2048 p s;
  Some (p, s).

(** ** Small states for the further properties *)

(** A pool with two classes: two free blocks of 32 bytes, none of 80. *)
Definition two_classes : BaseMemoryPool :=
  {| block_sizes_ := [32; 80]; free_lists_ := [8192; 0]; free_block_counts_ := [2; 0];
     allocate_count_ := 0; deallocate_count_ := 0;
     total_free_memory_ := 64; total_allocated_memory_ := 4096 |}.

(** A pool with the same classes that holds one free block of 32 bytes,
    handed over by another pool: it has carved no page itself. *)
Definition one_block_pool : BaseMemoryPool :=
  {| block_sizes_ := [32; 80]; free_lists_ := [16384; 0]; free_block_counts_ := [1; 0];
     allocate_count_ := 0; deallocate_count_ := 0;
     total_free_memory_ := 32; total_allocated_memory_ := 0 |}.

(** A pool with the same classes and no free block. *)
Definition no_blocks : BaseMemoryPool :=
  {| block_sizes_ := [32; 80]; free_lists_ := [0; 0]; free_block_counts_ := [0; 0];
     allocate_count_ := 0; deallocate_count_ := 0;
     total_free_memory_ := 0; total_allocated_memory_ := 0 |}.

(** A system without pages.  Its memory holds the two free blocks of
    [two_classes], linked 8192 -> 8224 -> null, a block of 32 bytes at 12288
    that is in use, and the free block of [one_block_pool] at 16384. *)
Definition small_heap : System :=
  {| memory := {[8192 := 32; 8200 := 8224; 8224 := 32; 8232 := 0; 12288 := 32;
                 16384 := 32; 16392 := 0]};
     malloc_results := []; released := [] |}.

(** The same memory, with one page for [malloc] to hand out. *)
Definition small_heap_with_page : System :=
  {| memory := memory small_heap; malloc_results := [65536]; released := [] |}.

(** The same again, where the word 16 bytes in front of that page holds 32,
    the size of a class. *)
Definition small_heap_stale_word : System :=
  {| memory := <[65520 := 32]> (memory small_heap);
     malloc_results := [65536]; released := [] |}.

(** A pool with one class of one block per page and six free blocks, and
    the memory that links them. *)
Definition six_free_pool : BaseMemoryPool :=
  {| block_sizes_ := [2064]; free_lists_ := [65536]; free_block_counts_ := [6];
     allocate_count_ := 6; deallocate_count_ := 6;
     total_free_memory_ := 12384; total_allocated_memory_ := 24576 |}.

Definition six_free_heap : System :=
  {| memory := {[65536 := 2064; 65544 := 131072; 131072 := 2064; 131080 := 196608;
                 196608 := 2064; 196616 := 262144; 262144 := 2064; 262152 := 327680;
                 327680 := 2064; 327688 := 393216; 393216 := 2064; 393224 := 0]};
     malloc_results := []; released := [] |}.

(** States of the facade: the calling thread's pool, the global pool, the
    system. *)
Definition facade_of (local global : BaseMemoryPool) (s : System)
  : MemoryManager.state :=
  {| MemoryManager.local_pool_ := {| ThreadLocalMemoryPool.pool_ := local |};
     MemoryManager.global_pool := {| GlobalMemoryPool.pool_ := global |};
     MemoryManager.system := s |}.

(** The number of classes [reclaimIdleMemory] takes blocks from. *)
Definition freeing_classes (sizes counts : list Z) : nat :=
  length (filter (λ rc : Z, 0 < rc) (zip_with release_count sizes counts)).

(** The blocks [reclaimIdleMemory] leaves on the list [l] of a class: when
    it takes blocks it walks [remaining - 1] steps from the head (fewer on a
    shorter list) and cuts the list in front of the block it stops at. *)
Definition kept_blocks (total_size c : Z) (l : list Z) : list Z :=
  if decide (0 < release_count total_size c)
  then take (Z.to_nat (c - release_count total_size c - 1) `min` (length l - 1)) l
  else l.

(** The counters no transfer or reclaim touches. *)
Definition same_allocation (p p' : BaseMemoryPool) : Prop :=
  allocate_count_ p' = allocate_count_ p ∧
  deallocate_count_ p' = deallocate_count_ p ∧
  total_allocated_memory_ p' = total_allocated_memory_ p.

(** * Basic facts *)

Lemma is_list_functional s head l1 l2 :
  is_list s head l1 → is_list s head l2 → l1 = l2.
Proof.
  intros H1. revert l2.
  induction H1 as [|b l Hb _ IH]; intros l2 H2; inversion H2; subst; try done.
  f_equal. by apply IH.
Qed.

Lemma list_blocks_is_list fuel s head l :
  list_blocks fuel s head = Some l → is_list s head l.
Proof.
  revert head l. induction fuel as [|fuel IH]; intros head l H; simpl in H; [done|].
  destruct (Z.eqb_spec head 0) as [->|Hne].
  - injection H as <-. constructor.
  - apply bind_Some in H as (rest & Hrest & H). injection H as <-.
    constructor; [done|]. by apply IH.
Qed.

Lemma wrap_range z : 0 ≤ wrap z < SIZE_MODULUS.
Proof. unfold wrap, SIZE_MODULUS. apply Z.mod_pos_bound. lia. Qed.

Lemma wrap_small z : 0 ≤ z < SIZE_MODULUS → wrap z = z.
Proof. intros. unfold wrap. by apply Z.mod_small. Qed.

Lemma alignUp_assert_BLOCK_ALIGNMENT : alignUp_assert BLOCK_ALIGNMENT = true.
Proof. reflexivity. Qed.

Lemma lower_bound_le v value : (lower_bound v value ≤ length v)%nat.
Proof. induction v as [|x v IH]; simpl; [lia|]. destruct (x <? value); lia. Qed.

Lemma vec_get_Some v i x :
  vec_get v i = Some x → 0 ≤ i ∧ v !! Z.to_nat i = Some x.
Proof.
  unfold vec_get. destruct (Z.ltb_spec i 0); [done|]. intros; split; [lia|done].
Qed.

Lemma vec_get_nat v (n : nat) : vec_get v (Z.of_nat n) = v !! n.
Proof.
  unfold vec_get. destruct (Z.ltb_spec (Z.of_nat n) 0); [lia|]. by rewrite Nat2Z.id.
Qed.

Lemma vec_set_Some v i x v' :
  vec_set v i x = Some v' →
  0 ≤ i < Z.of_nat (length v) ∧ v' = <[Z.to_nat i := x]> v.
Proof.
  unfold vec_set.
  destruct (Z.leb_spec 0 i), (Z.ltb_spec i (Z.of_nat (length v))); simpl; try done.
  intros [= <-]. split; [lia|done].
Qed.

Lemma vec_set_in_range v i x :
  0 ≤ i < Z.of_nat (length v) → vec_set v i x = Some (<[Z.to_nat i := x]> v).
Proof.
  intros [H1 H2]. unfold vec_set.
  destruct (Z.leb_spec 0 i), (Z.ltb_spec i (Z.of_nat (length v))); simpl; try done; lia.
Qed.

Lemma vec_get_in_range v i x :
  vec_get v i = Some x → 0 ≤ i < Z.of_nat (length v).
Proof.
  intros [H1 H2]%vec_get_Some. apply lookup_lt_Some in H2. lia.
Qed.

Lemma vec_insert_length v i x : length (vec_insert v i x) = S (length v).
Proof.
  unfold vec_insert. rewrite length_app. simpl. rewrite length_take, length_drop. lia.
Qed.

Lemma vec_insert_lookup_new v i x :
  (i ≤ length v)%nat → vec_insert v i x !! i = Some x.
Proof.
  intros Hi. unfold vec_insert.
  rewrite lookup_app_r; rewrite length_take; [|lia].
  by replace (i - i `min` length v)%nat with O by lia.
Qed.

(** What [findBlockSizeIndex] returns is the position of the size. *)
Lemma findBlockSizeIndex_found p total_size :
  findBlockSizeIndex p total_size ≠ -1 →
  vec_get (block_sizes_ p) (findBlockSizeIndex p total_size) = Some total_size.
Proof.
  unfold findBlockSizeIndex.
  destruct (block_sizes_ p !! lower_bound (block_sizes_ p) total_size) as [x|] eqn:E;
    [|done].
  destruct (Z.eqb_spec x total_size) as [->|]; [|done].
  intros _. by rewrite vec_get_nat.
Qed.

Lemma findBlockSizeIndex_range p total_size :
  findBlockSizeIndex p total_size = -1 ∨
  0 ≤ findBlockSizeIndex p total_size < Z.of_nat (length (block_sizes_ p)).
Proof.
  destruct (decide (findBlockSizeIndex p total_size = -1)) as [|Hne]; [by left|right].
  by apply findBlockSizeIndex_found, vec_get_in_range in Hne.
Qed.

(** "Locate or insert": the two-step lookup of [allocate] and [transferTo]
    is [addBlockSizeIfNotExist]. *)
Lemma find_or_add total_size p :
  (if findBlockSizeIndex p total_size =? -1
   then addBlockSizeIfNotExist total_size p
   else (findBlockSizeIndex p total_size, p))
  = addBlockSizeIfNotExist total_size p.
Proof.
  unfold addBlockSizeIfNotExist.
  by destruct (findBlockSizeIndex p total_size =? -1).
Qed.

Lemma addBlockSizeIfNotExist_index total_size p :
  let '(index, p0) := addBlockSizeIfNotExist total_size p in
  index ≠ -1 ∧ vec_get (block_sizes_ p0) index = Some total_size.
Proof.
  unfold addBlockSizeIfNotExist.
  destruct (Z.eqb_spec (findBlockSizeIndex p total_size) (-1)) as [E|E]; simpl.
  - split; [lia|]. rewrite vec_get_nat.
    apply vec_insert_lookup_new, lower_bound_le.
  - split; [done|]. by apply findBlockSizeIndex_found.
Qed.

(** * The contract of [allocate] and [deallocate] *)

(** C1. [allocate] returns [nullptr] and changes nothing when [user_size]
    exceeds [MAX_USER_SIZE]; [allocate(0)] is [allocate(MIN_USER_SIZE)]; and a
    successful call works on the class of
    [alignUp(user_size + FREE_BLOCK_HEADER_SIZE, BLOCK_ALIGNMENT)] (located or
    inserted, refilled by [allocateBatch] when its list is empty): it pops the
    head block of that class, writes [block->next] as the new head, takes one
    off the class's free count and [block->size] off [total_free_memory_],
    adds one to [allocate_count_] and returns [block + FREE_BLOCK_HEADER_SIZE]. *)
Theorem allocate_contract (user_size : Z) (p : BaseMemoryPool) (s : System) :
  (MAX_USER_SIZE < user_size → allocate user_size p s = Some (0, p, s)) ∧
  allocate 0 p s = allocate MIN_USER_SIZE p s ∧
  ∀ r p' s',
    allocate user_size p s = Some (r, p', s') → r ≠ 0 →
    let total_size :=
      alignUp (wrap ((if user_size =? 0 then MIN_USER_SIZE else user_size)
                     + FREE_BLOCK_HEADER_SIZE)) BLOCK_ALIGNMENT in
    let index := fst (addBlockSizeIfNotExist total_size p) in
    let p0 := snd (addBlockSizeIfNotExist total_size p) in
    ∃ p1 block next size c,
      ((vec_get (free_lists_ p0) index = Some 0 ∧
        allocateBatch total_size index p0 s = Some (true, p1, s'))
       ∨ (vec_get (free_lists_ p0) index = Some block ∧ p1 = p0 ∧ s' = s)) ∧
      vec_get (block_sizes_ p1) index = Some total_size ∧
      vec_get (free_lists_ p1) index = Some block ∧ block ≠ 0 ∧
      block_next s' block = Some next ∧
      block_size s' block = Some size ∧
      vec_get (free_block_counts_ p1) index = Some c ∧
      r = block + FREE_BLOCK_HEADER_SIZE ∧
      p' = popped index next size c p1.
Proof.
  split; [|split].
  - intros Hbig. unfold allocate.
    destruct (Z.ltb_spec MAX_USER_SIZE user_size); [done|lia].
  - reflexivity.
  - intros r p' s' Hrun Hr total_size index p0.
    unfold allocate in Hrun.
    destruct (MAX_USER_SIZE <? user_size); [by injection Hrun as <-|].
    fold total_size in Hrun. unfold calcAlignedTotalSize in Hrun.
    fold total_size in Hrun. rewrite find_or_add in Hrun.
    pose proof (addBlockSizeIfNotExist_index total_size p) as Hidx.
    subst index p0.
    destruct (addBlockSizeIfNotExist total_size p) as [index p0]. simpl.
    destruct Hidx as [Hne Hsize].
    destruct (Z.eqb_spec index (-1)); [done|].
    apply bind_Some in Hrun as (head & Hhead & Hrun).
    apply bind_Some in Hrun as ([[ok p1] s1] & Hfill & Hrun).
    destruct ok; simpl in Hrun; [|by injection Hrun as <-].
    apply bind_Some in Hrun as (block & Hblock & Hrun).
    apply bind_Some in Hrun as (next & Hnext & Hrun).
    apply bind_Some in Hrun as (fl & Hfl & Hrun).
    apply bind_Some in Hrun as (c & Hc & Hrun).
    apply bind_Some in Hrun as (counts & Hcounts & Hrun).
    apply bind_Some in Hrun as (size & Hsz & Hrun).
    injection Hrun as <- <- <-.
    apply vec_set_Some in Hfl as [_ ->]. apply vec_set_Some in Hcounts as [_ ->].
    assert (block ≠ 0) as Hb.
    { unfold block_next in Hnext. by destruct (Z.eqb_spec block 0). }
    exists p1, block, next, size, c.
    destruct (Z.eqb_spec head 0) as [->|Hhd].
    + split; [by left|].
      assert (block_sizes_ p1 = block_sizes_ p0) as Hsame.
      { unfold allocateBatch in Hfill.
        repeat match type of Hfill with
               | (if ?b then _ else _) = _ => destruct b; [done|]
               | (let '(_, _) := ?x in _) = _ => destruct x
               end.
        apply bind_Some in Hfill as ([fl1 s2] & _ & Hfill).
        apply bind_Some in Hfill as (c1 & _ & Hfill).
        apply bind_Some in Hfill as (counts1 & _ & Hfill).
        by injection Hfill as <- <-. }
      repeat split; try done. by rewrite Hsame.
    + injection Hfill as <- <-.
      rewrite Hhead in Hblock. injection Hblock as <-.
      split; [by right|]. by repeat split.
Qed.

(** C2. [deallocate(nullptr)] does nothing.  With [total_size] the word read
    from the header in front of [user_ptr]: when it is zero, below the
    smallest class total, or matches no class, the pointer goes to the system
    [free] and the pool and the memory are unchanged; otherwise the block
    becomes the head of the matching class's list (its [next] is the old
    head), the class's free count grows by one, [total_free_memory_] by
    [total_size], and [deallocate_count_] by one. *)
Theorem deallocate_contract (user_ptr : Z) (p : BaseMemoryPool) (s : System) :
  (user_ptr = 0 → deallocate user_ptr p s = Some (p, s)) ∧
  ∀ total_size,
    user_ptr ≠ 0 →
    block_size s (user_ptr - FREE_BLOCK_HEADER_SIZE) = Some total_size →
    ((total_size = 0 ∨ total_size < calcAlignedTotalSize MIN_USER_SIZE
      ∨ findBlockSizeIndex p total_size = -1) →
     deallocate user_ptr p s = Some (p, free user_ptr s)
     ∧ memory (free user_ptr s) = memory s
     ∧ released (free user_ptr s) = released s ++ [user_ptr]) ∧
    (∀ head c,
       let index := findBlockSizeIndex p total_size in
       total_size ≠ 0 → calcAlignedTotalSize MIN_USER_SIZE ≤ total_size →
       index ≠ -1 →
       vec_get (free_lists_ p) index = Some head →
       vec_get (free_block_counts_ p) index = Some c →
       deallocate user_ptr p s =
         Some (pushed index (user_ptr - FREE_BLOCK_HEADER_SIZE) total_size c p,
               store (user_ptr - FREE_BLOCK_HEADER_SIZE + 8) head s)).
Proof.
  split.
  - intros ->. reflexivity.
  - intros total_size Hptr Hsize. unfold deallocate.
    destruct (Z.eqb_spec user_ptr 0) as [|_]; [done|].
    rewrite Hsize. simpl. split.
    + intros Hforeign. split; [|done].
      destruct (Z.eqb_spec total_size 0) as [|H0]; [done|].
      destruct (Z.ltb_spec total_size (calcAlignedTotalSize MIN_USER_SIZE)) as [|Hmin];
        [done|]. simpl.
      destruct Hforeign as [?|[?|Hnone]]; [done|lia|].
      by rewrite Hnone.
    + intros head c H0 Hmin Hidx Hhead Hc.
      destruct (Z.eqb_spec total_size 0) as [|_]; [done|].
      destruct (Z.ltb_spec total_size (calcAlignedTotalSize MIN_USER_SIZE)) as [|_];
        [lia|]. simpl.
      destruct (Z.eqb_spec (findBlockSizeIndex p total_size) (-1)) as [|_]; [done|].
      rewrite Hhead. simpl.
      assert (user_ptr - FREE_BLOCK_HEADER_SIZE ≠ 0) as Hb.
      { unfold block_size in Hsize.
        by destruct (Z.eqb_spec (user_ptr - FREE_BLOCK_HEADER_SIZE) 0). }
      unfold set_block_next.
      destruct (Z.eqb_spec (user_ptr - FREE_BLOCK_HEADER_SIZE) 0) as [|_]; [done|].
      simpl.
      rewrite vec_set_in_range by (by eapply vec_get_in_range). simpl.
      rewrite Hc. simpl.
      rewrite vec_set_in_range by (by eapply vec_get_in_range). done.
Qed.

(** C10. The facade's [deallocate] works on the calling thread's local pool
    only: the global pool is returned as it was, whatever [user_ptr] is, and
    the only word of memory that can change is the [next] field in front of
    [user_ptr]. *)
Theorem facade_deallocate_leaves_global_pool
    (user_ptr : Z) (m m' : MemoryManager.state) :
  MemoryManager.deallocate user_ptr m = Some m' →
  MemoryManager.global_pool m' = MemoryManager.global_pool m ∧
  MemoryManager.getGlobalStats m' = MemoryManager.getGlobalStats m ∧
  (user_ptr = 0 ∧ m' = m ∨
   user_ptr ≠ 0 ∧
   deallocate user_ptr (ThreadLocalMemoryPool.pool_ (MemoryManager.local_pool_ m))
     (MemoryManager.system m)
   = Some (ThreadLocalMemoryPool.pool_ (MemoryManager.local_pool_ m'),
           MemoryManager.system m')) ∧
  ∀ a, a ≠ user_ptr - FREE_BLOCK_HEADER_SIZE + 8 →
       load (MemoryManager.system m') a = load (MemoryManager.system m) a.
Proof.
  unfold MemoryManager.deallocate, ThreadLocalMemoryPool.deallocate.
  intros Hrun.
  destruct (Z.eqb_spec user_ptr 0) as [->|Hptr].
  { injection Hrun as <-. repeat split; try done. by left. }
  apply bind_Some in Hrun as ([l s1] & Hlocal & Hrun).
  apply bind_Some in Hlocal as ([p1 s2] & Hpool & Hlocal).
  injection Hlocal as <- <-. injection Hrun as <-. simpl.
  split; [done|]. split; [done|]. split; [by right|].
  intros a Ha.
  unfold deallocate in Hpool.
  destruct (user_ptr =? 0); [by injection Hpool as <- <-|].
  apply bind_Some in Hpool as (total_size & _ & Hpool).
  destruct (_ || _); [by injection Hpool as <- <-|].
  destruct (_ =? -1); [by injection Hpool as <- <-|].
  apply bind_Some in Hpool as (head & _ & Hpool).
  apply bind_Some in Hpool as (s3 & Hstore & Hpool).
  apply bind_Some in Hpool as (fl & _ & Hpool).
  apply bind_Some in Hpool as (c & _ & Hpool).
  apply bind_Some in Hpool as (counts & _ & Hpool).
  injection Hpool as <- <-.
  unfold set_block_next in Hstore.
  destruct (_ =? 0) in Hstore; [done|]. injection Hstore as <-.
  unfold load, store. simpl. by rewrite lookup_insert_ne.
Qed.

(** * Two runs through [reclaimIdleMemory] *)

(** C3, at a run from a fresh pool.  After five allocations of 2048 bytes,
    their five deallocations and one [reclaimIdleMemory], the class of total
    size 2064 (index 255) records four free blocks while its list holds
    three: the loop that looks for the first block to release stops one block
    early, so one block more than [release_count] is cut off. *)
Theorem reclaim_count_exceeds_list_length :
  ∃ p s head l,
    reclaim_run = Some (p, s) ∧
    block_sizes_ p !! 255%nat = Some 2064 ∧
    free_lists_ p !! 255%nat = Some head ∧
    is_list s head l ∧
    l = [327680; 262144; 196608] ∧
    free_block_counts_ p !! 255%nat = Some 4 ∧
    released s = [131072].
Proof.
  assert (reclaim_run ≫= (λ '(p, s),
            head ← free_lists_ p !! 255%nat;
            l ← list_blocks 8 s head;
            Some (block_sizes_ p !! 255%nat, l,
                  free_block_counts_ p !! 255%nat, released s))
          = Some (Some 2064, [327680; 262144; 196608], Some 4, [131072])) as H
    by (vm_compute; reflexivity).
  destruct reclaim_run as [[p s]|];
    [|apply bind_Some in H as (? & Hnone & _); discriminate Hnone].
  apply bind_Some in H as ([p' s'] & [= <- <-] & H).
  apply bind_Some in H as (head & Hhead & H).
  apply bind_Some in H as (l & Hl & H).
  injection H as Hsz -> Hc Hrel.
  exists p, s, head, [327680; 262144; 196608].
  split; [reflexivity|]. split; [exact Hsz|]. split; [exact Hhead|].
  split; [exact (list_blocks_is_list 8 _ _ _ Hl)|].
  split; [reflexivity|]. split; [exact Hc|exact Hrel].
Qed.

(** C4, at a run from a fresh pool.  [reclaimIdleMemory] passes the block at
    65536 to [free] while the other block of that page, at 67584, stays on
    the list of class 2048.  The page is handed out again and carved for
    class 24, which overwrites the header word at 67584; the next allocation
    of class 2048 pops that block and subtracts the overwritten word from
    [total_free_memory_]. *)
Theorem page_reuse_breaks_free_memory_sum :
  ∃ p s,
    page_reuse_run = Some ([65536], p, s) ∧
    class_bytes (block_sizes_ p) (free_block_counts_ p) = 10200 ∧
    total_free_memory_ p = 18446744073709496264.
Proof.
  assert (page_reuse_run ≫= (λ '(freed, p, s),
            Some (freed, class_bytes (block_sizes_ p) (free_block_counts_ p),
                  total_free_memory_ p))
          = Some ([65536], 10200, 18446744073709496264)) as H
    by (vm_compute; reflexivity).
  destruct page_reuse_run as [[[freed p] s]|];
    [|apply bind_Some in H as (? & Hnone & _); discriminate Hnone].
  apply bind_Some in H as ([[freed' p'] s'] & [= <- <- <-] & H).
  injection H as -> Hsum Hfree.
  exists p, s. split; [reflexivity|]. split; [exact Hsum|exact Hfree].
Qed.

(** * Two runs that end outside the bound and the contract *)

(** C5, at a run of the global pool from its construction, through
    [allocate] and [deallocate] alone.  The 5121st [deallocate] finds more
    than 10 MiB free and reclaims: the block at 10543104 is passed to [free]
    as a page while the other block of that page stays on the list of class
    2048.  The page is handed out again and carved for class 24, which
    overwrites the header of that block; popping it subtracts the overwritten
    word and [total_free_memory_] wraps around.  The next [deallocate] runs
    [reclaimIdleMemory], which finds nothing to release, and returns with
    more than [MAX_GLOBAL_FREE_MEMORY] recorded as free. *)
Theorem global_pool_free_memory_exceeds_bound :
  ∃ b g s g' s',
    global_overflow_run = Some ([10543104], b, g, s) ∧
    b ≠ 0 ∧
    GlobalMemoryPool.deallocate b g s = Some (g', s') ∧
    total_free_memory (GlobalMemoryPool.getGlobalStats g') = 18446744073699014624 ∧
    MAX_GLOBAL_FREE_MEMORY < total_free_memory (GlobalMemoryPool.getGlobalStats g').
Proof.
  assert (global_overflow_run ≫= (λ '(freed, b, g, s),
            '(g', s') ← GlobalMemoryPool.deallocate b g s;
            Some (freed, bool_decide (b ≠ 0),
                  total_free_memory (GlobalMemoryPool.getGlobalStats g')))
          = Some ([10543104], true, 18446744073699014624)) as H
    by (vm_compute; reflexivity).
  destruct global_overflow_run as [[[[freed b] g] s]|];
    [|apply bind_Some in H as (? & Hnone & _); discriminate Hnone].
  apply bind_Some in H as ([[[freed' b'] g0] s0] & [= <- <- <- <-] & H).
  apply bind_Some in H as ([g' s'] & Hfree & H).
  injection H as -> Hb Htotal.
  exists b, g, s, g', s'. split; [reflexivity|].
  split; [exact (bool_decide_eq_true_1 _ Hb)|]. split; [exact Hfree|].
  split; [exact Htotal|].
  change (total_free_memory (GlobalMemoryPool.getGlobalStats g'))
    with (total_free_memory_ (GlobalMemoryPool.pool_ g')).
  rewrite Htotal. reflexivity.
Qed.

(** C6, at a run from a fresh pool.  After the run of C3 the class of total
    size 2064 records four free blocks and lists three.  Three allocations
    empty the list and leave the count at one; [transferTo] skips a class
    whose list is empty, so the source keeps that count and the 2064 bytes
    that go with it. *)
Theorem transferTo_leaves_source_count :
  ∃ src s src' dest' s',
    drained_after_reclaim = Some (src, s) ∧
    free_lists_ src !! 255%nat = Some 0 ∧
    transferTo 8 src new_BaseMemoryPool s = Some (src', dest', s') ∧
    block_sizes_ src' !! 255%nat = Some 2064 ∧
    free_lists_ src' !! 255%nat = Some 0 ∧
    free_block_counts_ src' !! 255%nat = Some 1 ∧
    total_free_memory_ src' = 2064 ∧
    total_free_memory_ dest' = 0.
Proof.
  assert (drained_after_reclaim ≫= (λ '(src, s),
            '(src', dest', s') ← transferTo 8 src new_BaseMemoryPool s;
            Some (free_lists_ src !! 255%nat, block_sizes_ src' !! 255%nat,
                  free_lists_ src' !! 255%nat, free_block_counts_ src' !! 255%nat,
                  total_free_memory_ src', total_free_memory_ dest'))
          = Some (Some 0, Some 2064, Some 0, Some 1, 2064, 0)) as H
    by (vm_compute; reflexivity).
  destruct drained_after_reclaim as [[src s]|];
    [|apply bind_Some in H as (? & Hnone & _); discriminate Hnone].
  apply bind_Some in H as ([src0 s0] & [= <- <-] & H).
  apply bind_Some in H as ([[src' dest'] s'] & Hmove & H).
  injection H as Hhead Hsz Hhead' Hc Hsrc Hdest.
  exists src, s, src', dest', s'. split; [reflexivity|].
  split; [exact Hhead|]. split; [exact Hmove|]. split; [exact Hsz|].
  split; [exact Hhead'|]. split; [exact Hc|]. split; [exact Hsrc|exact Hdest].
Qed.

(** * Carving a page *)

Lemma load_store_eq a v s : load (store a v s) a = v.
Proof. unfold load, store. simpl. by rewrite lookup_insert_eq. Qed.

Lemma load_store_ne a b v s : a ≠ b → load (store a v s) b = load s b.
Proof. intros. unfold load, store. simpl. by rewrite lookup_insert_ne. Qed.

Lemma load_free a s b : load (free a s) b = load s b.
Proof. reflexivity. Qed.

(** The loop of [allocateBatch], started at slot [i] behind block [prev],
    for a page that is not at address zero and blocks of at least a header:
    every slot from [i] on gets its size and its link to the next slot, the
    last one links to [nullptr], [prev] links to slot [i], the head is set
    when the loop starts at slot 0, and no word outside the slots changes. *)
Lemma thread_blocks_spec page total_size index count :
  0 < page → FREE_BLOCK_HEADER_SIZE ≤ total_size →
  ∀ i prev fl s,
    0 ≤ i → (i + Z.of_nat count) * total_size < SIZE_MODULUS →
    (i = 0 ∧ prev = 0 ∨ 0 < i ∧ prev = page + (i - 1) * total_size) →
    0 ≤ index < Z.of_nat (length fl) →
    ∃ s',
      thread_blocks count i page total_size index prev fl s
      = Some (if (i =? 0) && negb (Z.of_nat count =? 0)
              then <[Z.to_nat index := page]> fl else fl, s') ∧
      malloc_results s' = malloc_results s ∧
      released s' = released s ∧
      (∀ k, i ≤ k < i + Z.of_nat count →
            load s' (page + k * total_size) = total_size ∧
            load s' (page + k * total_size + 8)
            = if k + 1 <? i + Z.of_nat count
              then page + (k + 1) * total_size else 0) ∧
      (0 < i → (0 < count)%nat → load s' (prev + 8) = page + i * total_size) ∧
      (∀ a, a < page + i * total_size ∨
            page + (i + Z.of_nat count) * total_size ≤ a →
            (0 < i → a ≠ prev + 8) → load s' a = load s a).
Proof.
  unfold FREE_BLOCK_HEADER_SIZE, SIZE_MODULUS. intros Hpage Hts.
  induction count as [|count IH]; intros i prev fl s Hi Hfit Hprev Hidx.
  { exists s. simpl. rewrite andb_false_r.
    repeat split; try done; intros; lia. }
  simpl thread_blocks.
  assert (wrap (i * total_size) = i * total_size) as ->.
  { apply wrap_small. unfold SIZE_MODULUS. nia. }
  assert (wrap (i + 1) = i + 1) as ->.
  { apply wrap_small. unfold SIZE_MODULUS. nia. }
  set (block := page + i * total_size).
  assert (0 < block) as Hblock by (unfold block; nia).
  unfold set_block_size, set_block_next.
  destruct (Z.eqb_spec block 0) as [|_]; [lia|]. simpl.
  destruct (Z.eqb_spec block 0) as [|_]; [lia|]. simpl.
  set (s2 := store (block + 8) 0 (store block total_size s)).
  assert (∃ fl3 s3,
    (if prev =? 0
     then vec_set fl index block ≫= λ fl0, Some (fl0, s2)
     else (if prev =? 0 then None else Some (store (prev + 8) block s2))
            ≫= λ s0, Some (fl, s0)) = Some (fl3, s3) ∧
    fl3 = (if i =? 0 then <[Z.to_nat index := page]> fl else fl) ∧
    length fl3 = length fl ∧
    malloc_results s3 = malloc_results s ∧ released s3 = released s ∧
    load s3 block = total_size ∧ load s3 (block + 8) = 0 ∧
    (0 < i → load s3 (prev + 8) = block) ∧
    (∀ a, a ≠ block → a ≠ block + 8 → (0 < i → a ≠ prev + 8) →
          load s3 a = load s a))
    as (fl3 & s3 & -> & Hfl3 & Hlen3 & Hm3 & Hr3 & Hsz3 & Hnx3 & Hpv3 & Hframe3).
  { destruct Hprev as [[-> ->]|[Hi0 ->]].
    - simpl. rewrite vec_set_in_range by done. simpl.
      exists (<[Z.to_nat index := block]> fl), s2.
      assert (block = page) as Hbp by (unfold block; lia).
      split; [done|]. split; [by rewrite Hbp|]. split; [by rewrite length_insert|].
      split; [done|]. split; [done|]. unfold s2.
      split; [rewrite load_store_ne by lia; apply load_store_eq|].
      split; [apply load_store_eq|]. split; [lia|].
      intros a H1 H2 _. by rewrite !load_store_ne.
    - destruct (Z.eqb_spec (page + (i - 1) * total_size) 0) as [|_]; [nia|]. simpl.
      destruct (Z.eqb_spec i 0) as [|_]; [lia|].
      eexists fl, _. split; [done|]. split; [done|]. split; [done|].
      split; [done|]. split; [done|]. unfold s2.
      assert (page + (i - 1) * total_size + 8 < block) by (unfold block; nia).
      split; [rewrite !load_store_ne by lia; apply load_store_eq|].
      split; [rewrite load_store_ne by lia; apply load_store_eq|].
      split; [intros _; apply load_store_eq|].
      intros a H1 H2 H3. specialize (H3 Hi0). by rewrite !load_store_ne. }
  simpl.
  destruct (IH (i + 1) block fl3 s3) as (s' & Hrun & Hm & Hr & Hblocks & Hlink & Hframe).
  { lia. } { lia. }
  { right. split; [lia|]. unfold block. f_equal. f_equal. lia. }
  { lia. }
  exists s'. rewrite Hrun.
  assert (0 < i → prev + 8 < block) as Hprevlt.
  { intros Hi0. destruct Hprev as [[? _]|[_ ->]]; [lia|].
    unfold block. rewrite Z.mul_sub_distr_r. lia. }
  split.
  { f_equal. f_equal. rewrite Hfl3.
    destruct (Z.eqb_spec (i + 1) 0) as [|_]; [lia|]. simpl.
    destruct (Z.eqb_spec i 0); simpl; [|done].
    by destruct (Z.eqb_spec (Z.of_nat (S count)) 0) as [|_]; [lia|]. }
  split; [congruence|]. split; [congruence|].
  assert (load s' block = total_size) as Hsz.
  { rewrite Hframe; [done| |lia]. left. unfold block. nia. }
  assert (load s' (block + 8)
          = if i + 1 <? i + Z.of_nat (S count)
            then page + (i + 1) * total_size else 0) as Hnx.
  { destruct count as [|count].
    - destruct (Z.ltb_spec (i + 1) (i + Z.of_nat 1)) as [|_]; [lia|].
      simpl in Hrun. injection Hrun as _ <-. done.
    - destruct (Z.ltb_spec (i + 1) (i + Z.of_nat (S (S count)))) as [_|]; [|lia].
      apply Hlink; lia. }
  split.
  { intros k Hk. destruct (decide (k = i)) as [->|Hne]; [done|].
    destruct (Hblocks k) as [H1 H2]; [lia|]. split; [done|].
    rewrite H2. by replace (i + 1 + Z.of_nat count) with (i + Z.of_nat (S count)) by lia. }
  split.
  { intros Hi0 _. specialize (Hprevlt Hi0).
    rewrite Hframe; [by apply Hpv3| |lia]. left. unfold block in *. nia. }
  intros a Ha Hne. rewrite Hframe.
  - apply Hframe3; [|  |done]; unfold block in *; destruct Ha; nia.
  - destruct Ha; [left|right]; unfold block in *; nia.
  - intros _. unfold block in *. destruct Ha; nia.
Qed.

Lemma page_blocks_length count block total_size :
  length (page_blocks count block total_size) = count.
Proof. revert block. induction count; intros; simpl; [done|]. by rewrite IHcount. Qed.

Lemma linked_slots_is_list s total_size count :
  0 ≤ total_size →
  ∀ block,
    0 < block → (0 < count)%nat →
    (∀ k, 0 ≤ k < Z.of_nat count →
          load s (block + k * total_size + 8)
          = if k + 1 <? Z.of_nat count then block + (k + 1) * total_size else 0) →
    is_list s block (page_blocks count block total_size).
Proof.
  intros Hts. induction count as [|count IH]; intros block Hb Hc Hlinks; [lia|].
  simpl. constructor; [lia|].
  pose proof (Hlinks 0 ltac:(lia)) as H0. rewrite Z.mul_0_l, Z.add_0_r in H0.
  rewrite H0. destruct count as [|count].
  - simpl. constructor.
  - destruct (Z.ltb_spec (0 + 1) (Z.of_nat (S (S count)))) as [_|]; [|lia].
    replace (block + (0 + 1) * total_size) with (block + total_size) by lia.
    apply IH; [nia|lia|].
    intros k Hk. specialize (Hlinks (k + 1) ltac:(lia)).
    replace (block + total_size + k * total_size + 8)
      with (block + (k + 1) * total_size + 8) by lia.
    rewrite Hlinks.
    destruct (Z.ltb_spec (k + 1 + 1) (Z.of_nat (S (S count)))),
             (Z.ltb_spec (k + 1) (Z.of_nat (S count))); lia.
Qed.

(** [allocateBatch] on a valid class, when [malloc] returns a page. *)
Lemma allocateBatch_success total_size index p s page rest c :
  0 ≤ index < Z.of_nat (length (block_sizes_ p)) →
  0 ≤ index < Z.of_nat (length (free_lists_ p)) →
  vec_get (free_block_counts_ p) index = Some c →
  FREE_BLOCK_HEADER_SIZE ≤ total_size ≤ PAGE_SIZE →
  malloc_results s = page :: rest → 0 < page →
  ∃ s',
    allocateBatch total_size index p s
    = Some (true,
            {| block_sizes_ := block_sizes_ p;
               free_lists_ := <[Z.to_nat index := page]> (free_lists_ p);
               free_block_counts_ :=
                 <[Z.to_nat index := wrap (c + PAGE_SIZE / total_size)]>
                   (free_block_counts_ p);
               allocate_count_ := allocate_count_ p;
               deallocate_count_ := deallocate_count_ p;
               total_free_memory_ :=
                 wrap (total_free_memory_ p
                       + wrap (total_size * (PAGE_SIZE / total_size)));
               total_allocated_memory_ := wrap (total_allocated_memory_ p + PAGE_SIZE) |},
            s') ∧
    malloc_results s' = rest ∧
    released s' = released s ∧
    (∀ k, 0 ≤ k < PAGE_SIZE / total_size →
          load s' (page + k * total_size) = total_size ∧
          load s' (page + k * total_size + 8)
          = if k + 1 <? PAGE_SIZE / total_size
            then page + (k + 1) * total_size else 0) ∧
    (∀ a, a < page ∨ page + PAGE_SIZE / total_size * total_size ≤ a →
          load s' a = load s a).
Proof.
  unfold FREE_BLOCK_HEADER_SIZE.
  intros Hidx Hidx' Hc Hts Hmalloc Hpage.
  set (block_count := PAGE_SIZE / total_size).
  assert (1 ≤ block_count) as Hcount.
  { unfold block_count. apply Z.div_le_lower_bound; lia. }
  assert (block_count * total_size ≤ PAGE_SIZE) as Hfit.
  { unfold block_count. rewrite Z.mul_comm. apply Z.mul_div_le. lia. }
  unfold allocateBatch.
  destruct (Z.ltb_spec index 0) as [|_]; [lia|].
  destruct (Z.leb_spec (Z.of_nat (length (block_sizes_ p))) index) as [|_]; [lia|].
  destruct (Z.eqb_spec total_size 0) as [|_]; [lia|].
  destruct (Z.ltb_spec PAGE_SIZE total_size) as [|_]; [lia|].
  simpl. fold block_count.
  destruct (Z.eqb_spec block_count 0) as [|_]; [lia|].
  unfold malloc. rewrite Hmalloc.
  destruct (Z.eqb_spec page 0) as [|_]; [lia|].
  set (s1 := {| memory := memory s; malloc_results := rest; released := released s |}).
  destruct (thread_blocks_spec page total_size index (Z.to_nat block_count)
              Hpage (proj1 Hts) 0 0 (free_lists_ p) s1)
    as (s' & Hrun & Hm & Hr & Hblocks & _ & Hframe).
  { lia. }
  { rewrite Z2Nat.id by lia. unfold SIZE_MODULUS, PAGE_SIZE in *. lia. }
  { by left. }
  { done. }
  rewrite Z2Nat.id in * by lia.
  exists s'. rewrite Hrun. simpl.
  destruct (Z.eqb_spec block_count 0) as [|_]; [lia|]. simpl.
  rewrite Hc. simpl.
  rewrite vec_set_in_range by (by eapply vec_get_in_range). simpl.
  split; [done|]. split; [done|]. split; [done|].
  split.
  { intros k Hk. apply Hblocks. lia. }
  intros a Ha. rewrite Hframe; [done|lia|lia].
Qed.

(** [allocate] on a class whose list is empty, when [malloc] returns a page
    that holds at least two blocks of the class. *)
Lemma allocate_refills user_size total_size p s page rest index c :
  user_size ≤ MAX_USER_SIZE →
  calcAlignedTotalSize user_size = total_size →
  findBlockSizeIndex p total_size = index → index ≠ -1 →
  vec_get (free_lists_ p) index = Some 0 →
  vec_get (free_block_counts_ p) index = Some c →
  FREE_BLOCK_HEADER_SIZE ≤ total_size → 2 * total_size ≤ PAGE_SIZE →
  malloc_results s = page :: rest → 0 < page →
  ∃ s',
    allocate user_size p s
    = Some (page + FREE_BLOCK_HEADER_SIZE,
            {| block_sizes_ := block_sizes_ p;
               free_lists_ := <[Z.to_nat index := page + total_size]> (free_lists_ p);
               free_block_counts_ :=
                 <[Z.to_nat index := wrap (wrap (c + PAGE_SIZE / total_size) - 1)]>
                   (free_block_counts_ p);
               allocate_count_ := wrap (allocate_count_ p + 1);
               deallocate_count_ := deallocate_count_ p;
               total_free_memory_ :=
                 wrap (wrap (total_free_memory_ p
                             + wrap (total_size * (PAGE_SIZE / total_size)))
                       - total_size);
               total_allocated_memory_ := wrap (total_allocated_memory_ p + PAGE_SIZE) |},
            s') ∧
    malloc_results s' = rest ∧
    released s' = released s ∧
    (∀ k, 0 ≤ k < PAGE_SIZE / total_size →
          load s' (page + k * total_size) = total_size ∧
          load s' (page + k * total_size + 8)
          = if k + 1 <? PAGE_SIZE / total_size
            then page + (k + 1) * total_size else 0) ∧
    (∀ a, a < page ∨ page + PAGE_SIZE / total_size * total_size ≤ a →
          load s' a = load s a).
Proof.
  intros Hmax Htotal Hfind Hidx Hhead Hc Hmin Htwo Hmalloc Hpage.
  assert (2 ≤ PAGE_SIZE / total_size) as Hcount.
  { apply Z.div_le_lower_bound; unfold FREE_BLOCK_HEADER_SIZE in *; lia. }
  pose proof (findBlockSizeIndex_found p total_size) as Hsz.
  rewrite Hfind in Hsz. specialize (Hsz Hidx).
  destruct (allocateBatch_success total_size index p s page rest c)
    as (s' & Hbatch & Hm & Hr & Hblocks & Hframe); try done.
  { by eapply vec_get_in_range. }
  { by eapply vec_get_in_range. }
  { unfold PAGE_SIZE in *. lia. }
  exists s'. split; [|done].
  unfold allocate.
  destruct (Z.ltb_spec MAX_USER_SIZE user_size) as [|_]; [lia|].
  rewrite Htotal, Hfind.
  destruct (Z.eqb_spec index (-1)) as [|_]; [done|].
  destruct (Z.eqb_spec index (-1)) as [|_]; [done|].
  rewrite Hhead. simpl. rewrite Hbatch. simpl.
  assert (Z.to_nat index < length (free_lists_ p))%nat as Hlt.
  { apply vec_get_in_range in Hhead. lia. }
  assert (Z.to_nat index < length (free_block_counts_ p))%nat as Hlt'.
  { apply vec_get_in_range in Hc. lia. }
  assert (0 ≤ index) as Hnn by (apply vec_get_in_range in Hc; lia).
  unfold vec_get. destruct (Z.ltb_spec index 0) as [|_]; [lia|].
  rewrite !list_lookup_insert_eq by done. simpl.
  unfold block_next, block_size.
  destruct (Z.eqb_spec page 0) as [|_]; [lia|]. simpl.
  destruct (Hblocks 0 ltac:(lia)) as [Hsize0 Hnext0].
  rewrite Z.mul_0_l, Z.add_0_r in Hsize0, Hnext0.
  rewrite Hnext0, Hsize0.
  destruct (Z.ltb_spec (0 + 1) (PAGE_SIZE / total_size)) as [_|]; [|lia].
  rewrite !vec_set_in_range by (rewrite length_insert; lia). simpl.
  rewrite !list_insert_insert_eq.
  by replace (page + (0 + 1) * total_size) with (page + total_size) by lia.
Qed.

(** [deallocate] of a block whose header names a class of the pool. *)
Lemma deallocate_pushes user_ptr p s total_size index head c :
  user_ptr ≠ 0 → user_ptr - FREE_BLOCK_HEADER_SIZE ≠ 0 →
  load s (user_ptr - FREE_BLOCK_HEADER_SIZE) = total_size →
  calcAlignedTotalSize MIN_USER_SIZE ≤ total_size →
  findBlockSizeIndex p total_size = index → index ≠ -1 →
  vec_get (free_lists_ p) index = Some head →
  vec_get (free_block_counts_ p) index = Some c →
  deallocate user_ptr p s
  = Some ({| block_sizes_ := block_sizes_ p;
             free_lists_ :=
               <[Z.to_nat index := user_ptr - FREE_BLOCK_HEADER_SIZE]> (free_lists_ p);
             free_block_counts_ :=
               <[Z.to_nat index := wrap (c + 1)]> (free_block_counts_ p);
             allocate_count_ := allocate_count_ p;
             deallocate_count_ := wrap (deallocate_count_ p + 1);
             total_free_memory_ := wrap (total_free_memory_ p + total_size);
             total_allocated_memory_ := total_allocated_memory_ p |},
          store (user_ptr - FREE_BLOCK_HEADER_SIZE + 8) head s).
Proof.
  intros Hptr Hblock Hsize Hmin Hfind Hidx Hhead Hc.
  unfold deallocate, block_size, set_block_next.
  destruct (Z.eqb_spec user_ptr 0) as [|_]; [done|].
  destruct (Z.eqb_spec (user_ptr - FREE_BLOCK_HEADER_SIZE) 0) as [|_]; [done|].
  simpl. rewrite Hsize.
  assert (calcAlignedTotalSize MIN_USER_SIZE = 24) as E by reflexivity.
  rewrite E in *.
  destruct (Z.eqb_spec total_size 0) as [|_]; [lia|].
  destruct (Z.ltb_spec total_size 24) as [|_]; [lia|]. simpl.
  rewrite Hfind. destruct (Z.eqb_spec index (-1)) as [|_]; [done|].
  rewrite Hhead. simpl.
  rewrite vec_set_in_range by (by eapply vec_get_in_range). simpl.
  rewrite Hc. simpl.
  by rewrite vec_set_in_range by (by eapply vec_get_in_range).
Qed.

Lemma new_BaseMemoryPool_eq :
  new_BaseMemoryPool
  = {| block_sizes_ := seeded_sizes;
       free_lists_ := replicate 256 0;
       free_block_counts_ := replicate 256 0;
       allocate_count_ := 0; deallocate_count_ := 0;
       total_free_memory_ := 0; total_allocated_memory_ := 0 |}.
Proof. vm_compute. reflexivity. Qed.

Lemma findBlockSizeIndex_ext p q total_size :
  block_sizes_ p = block_sizes_ q →
  findBlockSizeIndex p total_size = findBlockSizeIndex q total_size.
Proof. unfold findBlockSizeIndex. by intros ->. Qed.

(** An allocation that refills an empty class, followed by the
    deallocation of the pointer it returned. *)
Lemma allocate_deallocate_refilled user_size total_size p s page rest index c :
  user_size ≤ MAX_USER_SIZE →
  calcAlignedTotalSize user_size = total_size →
  findBlockSizeIndex p total_size = index → index ≠ -1 →
  vec_get (free_lists_ p) index = Some 0 →
  vec_get (free_block_counts_ p) index = Some c →
  calcAlignedTotalSize MIN_USER_SIZE ≤ total_size → 2 * total_size ≤ PAGE_SIZE →
  malloc_results s = page :: rest → 0 < page →
  ∃ p1 s1 s2,
    allocate user_size p s = Some (page + FREE_BLOCK_HEADER_SIZE, p1, s1) ∧
    block_sizes_ p1 = block_sizes_ p ∧
    allocate_count_ p1 = wrap (allocate_count_ p + 1) ∧
    deallocate (page + FREE_BLOCK_HEADER_SIZE) p1 s1
    = Some ({| block_sizes_ := block_sizes_ p;
               free_lists_ := <[Z.to_nat index := page]> (free_lists_ p);
               free_block_counts_ :=
                 <[Z.to_nat index :=
                     wrap (wrap (wrap (c + PAGE_SIZE / total_size) - 1) + 1)]>
                   (free_block_counts_ p);
               allocate_count_ := wrap (allocate_count_ p + 1);
               deallocate_count_ := wrap (deallocate_count_ p + 1);
               total_free_memory_ :=
                 wrap (wrap (wrap (total_free_memory_ p
                                   + wrap (total_size * (PAGE_SIZE / total_size)))
                             - total_size) + total_size);
               total_allocated_memory_ :=
                 wrap (total_allocated_memory_ p + PAGE_SIZE) |},
            s2) ∧
    is_list s2 page (page_blocks (Z.to_nat (PAGE_SIZE / total_size)) page total_size).
Proof.
  intros Hmax Htotal Hfind Hidx Hhead Hc Hmin Htwo Hmalloc Hpage.
  assert (calcAlignedTotalSize MIN_USER_SIZE = 24) as E by reflexivity.
  rewrite E in Hmin.
  destruct (allocate_refills user_size total_size p s page rest index c)
    as (s1 & Halloc & _ & _ & Hblocks & _);
    [exact Hmax|exact Htotal|exact Hfind|exact Hidx|exact Hhead|exact Hc
    |unfold FREE_BLOCK_HEADER_SIZE; lia|exact Htwo|exact Hmalloc|exact Hpage|].
  assert (2 ≤ PAGE_SIZE / total_size) as Hcount.
  { apply Z.div_le_lower_bound; lia. }
  assert (page + FREE_BLOCK_HEADER_SIZE - FREE_BLOCK_HEADER_SIZE = page) as Hblock
    by (unfold FREE_BLOCK_HEADER_SIZE; lia).
  assert (Z.to_nat index < length (free_lists_ p))%nat as Hlt.
  { apply vec_get_in_range in Hhead. lia. }
  assert (Z.to_nat index < length (free_block_counts_ p))%nat as Hlt'.
  { apply vec_get_in_range in Hc. lia. }
  assert (0 ≤ index) as Hnn by (apply vec_get_in_range in Hc; lia).
  eexists _, s1, _. split; [exact Halloc|]. clear Halloc.
  split; [reflexivity|]. split; [reflexivity|].
  split.
  { erewrite (deallocate_pushes _ _ _ total_size index).
    - simpl. rewrite !list_insert_insert_eq, Hblock. reflexivity.
    - unfold FREE_BLOCK_HEADER_SIZE. lia.
    - lia.
    - rewrite Hblock. destruct (Hblocks 0) as [H0 _]; [lia|].
      by rewrite Z.mul_0_l, Z.add_0_r in H0.
    - rewrite E. lia.
    - erewrite findBlockSizeIndex_ext; [exact Hfind|reflexivity].
    - exact Hidx.
    - simpl. unfold vec_get. destruct (Z.ltb_spec index 0) as [|_]; [lia|].
      by apply list_lookup_insert_eq.
    - simpl. unfold vec_get. destruct (Z.ltb_spec index 0) as [|_]; [lia|].
      by apply list_lookup_insert_eq. }
  apply linked_slots_is_list; [lia|exact Hpage|lia|].
  rewrite Z2Nat.id by lia.
  intros k Hk.
  destruct (Hblocks k) as [_ Hnext]; [lia|].
  destruct (decide (page + 8 = page + k * total_size + 8)) as [Heq|Hne].
  - rewrite <- Heq, load_store_eq.
    assert (k = 0) as -> by nia.
    destruct (Z.ltb_spec (0 + 1) (PAGE_SIZE / total_size)); lia.
  - by rewrite load_store_ne.
Qed.

Lemma new_BaseMemoryPool_sizes : block_sizes_ new_BaseMemoryPool = seeded_sizes.
Proof. vm_compute. reflexivity. Qed.

Lemma new_BaseMemoryPool_lists : free_lists_ new_BaseMemoryPool = replicate 256 0.
Proof. vm_compute. reflexivity. Qed.

Lemma new_BaseMemoryPool_counts :
  free_block_counts_ new_BaseMemoryPool = replicate 256 0.
Proof. vm_compute. reflexivity. Qed.

(** * Two scenarios on a fresh pool *)

(** C8, as amended.  With a page from [malloc], [allocate(15)] on a fresh
    pool computes the total size [alignUp(15 + 16, 8) = 32], which is the
    seeded class at index 1: no class is inserted.  After [deallocate] of the
    returned pointer the only non-empty list is that of class 32, and it
    holds the 128 blocks of the page, the returned block first. *)
Theorem allocate_15_uses_seeded_class (s : System) (page : Z) (rest : list Z) :
  malloc_results s = page :: rest → 0 < page →
  calcAlignedTotalSize 15 = alignUp (15 + FREE_BLOCK_HEADER_SIZE) BLOCK_ALIGNMENT ∧
  calcAlignedTotalSize 15 = 32 ∧
  findBlockSizeIndex new_BaseMemoryPool 32 = 1 ∧
  ∃ p1 s1 p2 s2,
    allocate 15 new_BaseMemoryPool s = Some (page + FREE_BLOCK_HEADER_SIZE, p1, s1) ∧
    block_sizes_ p1 = block_sizes_ new_BaseMemoryPool ∧
    deallocate (page + FREE_BLOCK_HEADER_SIZE) p1 s1 = Some (p2, s2) ∧
    block_sizes_ p2 = block_sizes_ new_BaseMemoryPool ∧
    free_lists_ p2 = <[1%nat := page]> (replicate 256 0) ∧
    free_block_counts_ p2 = <[1%nat := 128]> (replicate 256 0) ∧
    is_list s2 page (page_blocks 128 page 32) ∧
    length (page_blocks 128 page 32) = 128%nat.
Proof.
  intros Hmalloc Hpage.
  split; [by vm_compute|]. split; [by vm_compute|].
  assert (findBlockSizeIndex new_BaseMemoryPool 32 = 1) as Hfind by (by vm_compute).
  split; [exact Hfind|].
  destruct (allocate_deallocate_refilled 15 32 new_BaseMemoryPool s page rest 1 0)
    as (p1 & s1 & s2 & Halloc & Hsizes & _ & Hfree & Hlist);
    [by vm_compute|by vm_compute|exact Hfind|lia|by vm_compute|by vm_compute
    |by vm_compute|by vm_compute|exact Hmalloc|exact Hpage|].
  exists p1, s1. eexists _, s2.
  split; [exact Halloc|]. split; [exact Hsizes|]. split; [exact Hfree|].
  cbn [block_sizes_ free_lists_ free_block_counts_].
  split; [reflexivity|].
  split; [by rewrite new_BaseMemoryPool_lists|].
  split; [by rewrite new_BaseMemoryPool_counts|].
  split; [exact Hlist|apply page_blocks_length].
Qed.

(** C8 as stated fails on the code: the class of [allocate(15)] is seeded at
    construction, and the list it leaves does not consist of one block. *)
Lemma allocate_15_counterexample :
  findBlockSizeIndex new_BaseMemoryPool (calcAlignedTotalSize 15) ≠ -1 ∧
  ¬ ∃ r p1 s1 p2 s2 head,
      allocate 15 new_BaseMemoryPool one_page = Some (r, p1, s1) ∧
      deallocate r p1 s1 = Some (p2, s2) ∧
      vec_get (free_lists_ p2) (findBlockSizeIndex p2 (calcAlignedTotalSize 15))
      = Some head ∧
      is_list s2 head [head].
Proof.
  split; [by vm_compute|].
  intros (r & p1 & s1 & p2 & s2 & head & Halloc & Hfree & Hhead & Hlist).
  assert (allocate 15 new_BaseMemoryPool one_page ≫= (λ '(r, p1, s1),
            deallocate r p1 s1 ≫= λ '(p2, s2),
              vec_get (free_lists_ p2)
                (findBlockSizeIndex p2 (calcAlignedTotalSize 15)) ≫= λ head,
                list_blocks 200 s2 head ≫= λ l, Some (length l))
          = Some 128%nat) as H by (vm_compute; reflexivity).
  rewrite Halloc in H. clear Halloc.
  apply bind_Some in H as ([[r' p1'] s1'] & [= <- <- <-] & H).
  rewrite Hfree in H. apply bind_Some in H as ([p2' s2'] & [= <- <-] & H).
  rewrite Hhead in H. apply bind_Some in H as (head' & [= <-] & H).
  apply bind_Some in H as (l & Hl & [= Hlen]).
  apply list_blocks_is_list in Hl.
  rewrite <- (is_list_functional _ _ _ _ Hlist Hl) in Hlen. discriminate Hlen.
Qed.

(** C9, as amended.  On a fresh thread-local pool, with an 8-aligned page
    from [malloc], [allocate(64)] returns the non-null 8-aligned pointer
    [page + 16]; after [deallocate] of it the statistics show one allocation,
    one deallocation, 4080 free bytes of the 4096 allocated, and so 16 used
    bytes: the tail of the page that does not hold a block of 80 bytes. *)
Theorem local_allocate_64_roundtrip (s : System) (page : Z) (rest : list Z) :
  malloc_results s = page :: rest → 0 < page → page mod BLOCK_ALIGNMENT = 0 →
  ∃ l1 s1 l2 s2,
    ThreadLocalMemoryPool.allocate 64 ThreadLocalMemoryPool.new s
    = Some (page + FREE_BLOCK_HEADER_SIZE, l1, s1) ∧
    page + FREE_BLOCK_HEADER_SIZE ≠ 0 ∧
    (page + FREE_BLOCK_HEADER_SIZE) mod BLOCK_ALIGNMENT = 0 ∧
    allocate_count (ThreadLocalMemoryPool.getLocalStats l1) = 1 ∧
    ThreadLocalMemoryPool.deallocate (page + FREE_BLOCK_HEADER_SIZE) l1 s1
    = Some (l2, s2) ∧
    ThreadLocalMemoryPool.getLocalStats l2
    = {| allocate_count := 1; deallocate_count := 1;
         total_free_memory := 4080; total_used_memory := 16;
         total_allocated_memory := 4096 |}.
Proof.
  intros Hmalloc Hpage Haligned.
  destruct (allocate_deallocate_refilled 64 80 new_BaseMemoryPool s page rest 7 0)
    as (p1 & s1 & s2 & Halloc & _ & Hcount & Hfree & _);
    [by vm_compute|by vm_compute|by vm_compute|lia|by vm_compute|by vm_compute
    |by vm_compute|by vm_compute|exact Hmalloc|exact Hpage|].
  unfold ThreadLocalMemoryPool.allocate, ThreadLocalMemoryPool.deallocate,
    ThreadLocalMemoryPool.new, ThreadLocalMemoryPool.getLocalStats.
  cbn [ThreadLocalMemoryPool.pool_].
  rewrite Halloc. clear Halloc. cbn [mbind option_bind].
  exists {| ThreadLocalMemoryPool.pool_ := p1 |}, s1. eexists _, s2.
  split; [reflexivity|].
  split; [unfold FREE_BLOCK_HEADER_SIZE; lia|].
  split.
  { unfold FREE_BLOCK_HEADER_SIZE, BLOCK_ALIGNMENT in *.
    rewrite <- Z.add_mod_idemp_l, Haligned by lia. reflexivity. }
  cbn [ThreadLocalMemoryPool.pool_].
  split; [unfold getStats; cbn [allocate_count]; rewrite Hcount; by vm_compute|].
  rewrite Hfree. cbn [mbind option_bind].
  split; [reflexivity|]. by vm_compute.
Qed.

(** C9 as stated fails on the code: the used memory after the pair is not
    zero. *)
Lemma local_allocate_64_counterexample :
  ¬ ∃ p l1 s1 l2 s2,
      ThreadLocalMemoryPool.allocate 64 ThreadLocalMemoryPool.new one_page
      = Some (p, l1, s1) ∧
      p ≠ 0 ∧ p mod 8 = 0 ∧
      ThreadLocalMemoryPool.deallocate p l1 s1 = Some (l2, s2) ∧
      allocate_count (ThreadLocalMemoryPool.getLocalStats l2) = 1 ∧
      deallocate_count (ThreadLocalMemoryPool.getLocalStats l2) = 1 ∧
      total_used_memory (ThreadLocalMemoryPool.getLocalStats l2) = 0.
Proof.
  intros (p & l1 & s1 & l2 & s2 & Halloc & _ & _ & Hfree & _ & _ & Hused).
  assert (ThreadLocalMemoryPool.allocate 64 ThreadLocalMemoryPool.new one_page
          ≫= (λ '(p, l1, s1),
            ThreadLocalMemoryPool.deallocate p l1 s1 ≫= λ '(l2, s2),
              Some (total_used_memory (ThreadLocalMemoryPool.getLocalStats l2)))
          = Some 16) as H by (vm_compute; reflexivity).
  rewrite Halloc in H. clear Halloc.
  apply bind_Some in H as ([[p' l1'] s1'] & [= <- <- <-] & H).
  rewrite Hfree in H. apply bind_Some in H as ([l2' s2'] & [= <- <-] & H).
  injection H as H.
  assert (16 = 0) as Habs; [|discriminate Habs].
  etrans; [symmetry; exact H|exact Hused].
Qed.

(** * Reclaiming idle memory *)

Lemma release_count_spec total_size c :
  in_range c → 0 < total_size →
  let rc := release_count total_size c in
  0 ≤ rc ∧ rc ≤ c ∧
  (rc = 0 ∨ RESERVE_BLOCK_COUNT ≤ c - rc) ∧
  (total_size ≤ PAGE_SIZE → c - rc < RESERVE_BLOCK_COUNT + PAGE_SIZE / total_size) ∧
  release_count total_size (c - rc) = 0.
Proof.
  unfold in_range, SIZE_MODULUS. intros Hc Hsz. unfold release_count.
  destruct (Z.leb_spec c RESERVE_BLOCK_COUNT) as [Hle|Hgt].
  { rewrite Z.sub_0_r. destruct (Z.leb_spec c RESERVE_BLOCK_COUNT) as [_|]; [|lia].
    repeat split; try lia. intros Hpage.
    assert (1 ≤ PAGE_SIZE / total_size) by (apply Z.div_le_lower_bound; lia). lia. }
  unfold RESERVE_BLOCK_COUNT in *.
  set (bpp := PAGE_SIZE / total_size).
  assert (0 ≤ bpp) as Hbpp.
  { unfold bpp. apply Z.div_pos; [unfold PAGE_SIZE|]; lia. }
  destruct (Z.eqb_spec bpp 0) as [Hz|Hnz]; simpl.
  { rewrite Z.sub_0_r. destruct (Z.leb_spec c 4) as [|_]; [lia|].
    fold bpp. destruct (Z.eqb_spec bpp 0) as [_|]; [|lia].
    repeat split; try lia. intros Hpage.
    assert (1 ≤ bpp) by (unfold bpp; apply Z.div_le_lower_bound; lia). lia. }
  rewrite (wrap_small (c - 4)) by (unfold SIZE_MODULUS; lia).
  pose proof (Z.div_mod (c - 4) bpp Hnz) as Hdm.
  pose proof (Z.mod_pos_bound (c - 4) bpp ltac:(lia)) as Hmod.
  assert (0 ≤ (c - 4) / bpp) as Hq by (apply Z.div_pos; lia).
  set (q := (c - 4) / bpp) in *.
  assert (0 ≤ q * bpp ≤ c - 4) as Hqb by nia.
  rewrite (wrap_small (q * bpp)) by (unfold SIZE_MODULUS; lia).
  split; [lia|]. split; [lia|]. split; [right; lia|]. split; [intros _; nia|].
  destruct (Z.leb_spec (c - q * bpp) 4) as [|Hgt']; [done|].
  fold bpp. destruct (Z.eqb_spec bpp 0) as [|_]; [done|].
  rewrite (wrap_small (c - q * bpp - 4)) by (unfold SIZE_MODULUS; lia).
  assert ((c - q * bpp - 4) / bpp = 0) as ->; [|done].
  apply Z.div_small. nia.
Qed.

Lemma seek_release_head_nonnull steps prev release_head s prev' release_head' :
  release_head ≠ 0 →
  seek_release_head steps prev release_head s = Some (prev', release_head') →
  release_head' ≠ 0.
Proof.
  revert prev release_head.
  induction steps as [|steps IH]; intros prev rh Hrh H; simpl in H.
  - by injection H as _ <-.
  - apply bind_Some in H as (nxt & _ & H).
    destruct (Z.eqb_spec nxt 0); [by injection H as _ <-|]. by eapply IH.
Qed.

(** One round of [reclaimIdleMemory]: either the class is left alone, or
    [release_count] blocks are taken off its count and their bytes off
    [total_free_memory_]. *)
Lemma reclaim_class_effect i reclaimed p s reclaimed' p' s' total_size c :
  vec_get (block_sizes_ p) i = Some total_size →
  vec_get (free_block_counts_ p) i = Some c →
  in_range total_size → in_range c →
  reclaim_class i (reclaimed, p, s) = Some (reclaimed', p', s') →
  let rc := release_count total_size c in
  (c ≤ RESERVE_BLOCK_COUNT ∨ 0 < total_size) ∧
  (rc = 0 ∧ reclaimed' = reclaimed ∧ p' = p ∧ s' = s ∨
   0 < rc ∧ reclaimed' = wrap (reclaimed + wrap (total_size * rc)) ∧
   ∃ fl, length fl = length (free_lists_ p) ∧
         p' = reclaimed_from i total_size c rc fl p).
Proof.
  intros Hsz Hc Hrsz Hrc Hrun.
  unfold reclaim_class in Hrun. rewrite Hsz, Hc in Hrun. simpl in Hrun.
  unfold release_count.
  destruct (Z.leb_spec c RESERVE_BLOCK_COUNT) as [Hle|Hgt].
  { injection Hrun as <- <- <-. split; [by left|]. by left. }
  destruct (Z.eqb_spec total_size 0) as [|Hnz]; [done|].
  assert (0 < total_size) as Hpos by (unfold in_range in Hrsz; lia).
  split; [by right|].
  pose proof (release_count_spec total_size c Hrc Hpos) as Hspec.
  unfold release_count in Hspec. simpl in Hspec.
  destruct (Z.leb_spec c RESERVE_BLOCK_COUNT) as [|_]; [lia|].
  destruct (PAGE_SIZE / total_size =? 0).
  { injection Hrun as <- <- <-. by left. }
  set (rc := wrap (wrap (c - RESERVE_BLOCK_COUNT) / (PAGE_SIZE / total_size)
                   * (PAGE_SIZE / total_size))) in *.
  destruct Hspec as (Hrc0 & Hrcc & Hrem & _ & _).
  destruct (Z.eqb_spec rc 0) as [Hz|Hne].
  { injection Hrun as <- <- <-. by left. }
  right. split; [lia|].
  destruct Hrem as [|Hrem]; [done|].
  apply bind_Some in Hrun as (head & Hhead & Hrun).
  rewrite (wrap_small (c - rc)) in Hrun by (unfold in_range in Hrc; lia).
  apply bind_Some in Hrun as ([prev rh] & Hseek & Hrun).
  assert (rh ≠ 0) as Hrh.
  { eapply seek_release_head_nonnull; [|exact Hseek].
    intros ->.
    rewrite wrap_small in Hseek
      by (unfold in_range, RESERVE_BLOCK_COUNT in *; lia).
    destruct (Z.to_nat (c - rc - 1)) as [|n] eqn:E;
      [unfold RESERVE_BLOCK_COUNT in *; lia|].
    simpl in Hseek. done. }
  destruct (Z.eqb_spec rh 0) as [|_]; [done|].
  apply bind_Some in Hrun as ([fl s1] & Hcut & Hrun).
  apply bind_Some in Hrun as (counts & Hcounts & Hrun).
  apply vec_set_Some in Hcounts as [_ ->].
  injection Hrun as <- <- <-. split; [done|].
  exists fl. split; [|done].
  destruct (prev =? 0).
  - apply bind_Some in Hcut as (fl' & Hfl & Hcut). injection Hcut as <- <-.
    apply vec_set_Some in Hfl as [_ ->]. by rewrite length_insert.
  - apply bind_Some in Hcut as (s2 & _ & Hcut). by injection Hcut as <- <-.
Qed.

Lemma wrap_wrap z : wrap (wrap z) = wrap z.
Proof. unfold wrap. apply Z.mod_mod. unfold SIZE_MODULUS. lia. Qed.

Lemma wrap_add_l x y : wrap (wrap x + y) = wrap (x + y).
Proof. unfold wrap. apply Zplus_mod_idemp_l. Qed.

Lemma wrap_add_r x y : wrap (x + wrap y) = wrap (x + y).
Proof. unfold wrap. apply Zplus_mod_idemp_r. Qed.

Lemma wrap_sub_l x y : wrap (wrap x - y) = wrap (x - y).
Proof. unfold wrap. apply Zminus_mod_idemp_l. Qed.

Lemma wrap_sub_r x y : wrap (x - wrap y) = wrap (x - y).
Proof. unfold wrap. apply Zminus_mod_idemp_r. Qed.

Lemma wrap_sub_sub x a y : wrap (wrap (x - wrap a) - y) = wrap (x - (a + y)).
Proof.
  rewrite wrap_sub_l. replace (x - wrap a - y) with (x - y - wrap a) by lia.
  rewrite wrap_sub_r. f_equal. lia.
Qed.

Lemma wrap_add_add x a y : wrap (wrap (x + wrap a) + y) = wrap (x + (a + y)).
Proof.
  rewrite wrap_add_l. replace (x + wrap a + y) with (x + y + wrap a) by lia.
  rewrite wrap_add_r. f_equal. lia.
Qed.

Lemma in_range_wrap z : in_range (wrap z).
Proof. apply wrap_range. Qed.

Lemma drop_lookup_cons {A} (l : list A) n x :
  l !! n = Some x → drop n l = x :: drop (S n) l.
Proof.
  revert n. induction l as [|y l IH]; intros [|n] H; simpl in *; try done.
  - by injection H as ->.
  - by apply IH.
Qed.

Lemma reclaim_loop_effect rounds :
  ∀ n reclaimed p s reclaimed' p' s',
    (n + rounds = length (block_sizes_ p))%nat →
    length (free_block_counts_ p) = length (block_sizes_ p) →
    Forall in_range (block_sizes_ p) → Forall in_range (free_block_counts_ p) →
    in_range reclaimed → in_range (total_free_memory_ p) →
    reclaim_loop rounds (Z.of_nat n) (reclaimed, p, s) = Some (reclaimed', p', s') →
    block_sizes_ p' = block_sizes_ p ∧
    length (free_lists_ p') = length (free_lists_ p) ∧
    free_block_counts_ p'
    = take n (free_block_counts_ p)
      ++ settle (drop n (block_sizes_ p)) (drop n (free_block_counts_ p)) ∧
    total_free_memory_ p'
    = wrap (total_free_memory_ p
            - released_bytes (drop n (block_sizes_ p)) (drop n (free_block_counts_ p))) ∧
    reclaimed'
    = wrap (reclaimed
            + released_bytes (drop n (block_sizes_ p)) (drop n (free_block_counts_ p))) ∧
    Forall2 (λ total_size c, c ≤ RESERVE_BLOCK_COUNT ∨ 0 < total_size)
      (drop n (block_sizes_ p)) (drop n (free_block_counts_ p)) ∧
    allocate_count_ p' = allocate_count_ p ∧
    deallocate_count_ p' = deallocate_count_ p ∧
    total_allocated_memory_ p' = total_allocated_memory_ p.
Proof.
  induction rounds as [|rounds IH];
    intros n r p s r' p' s' Hn Hlen Hsizes Hcounts Hr HT Hrun.
  { simpl in Hrun. injection Hrun as <- <- <-.
    rewrite !drop_ge by lia. rewrite take_ge by lia.
    unfold settle, released_bytes, class_bytes. simpl.
    rewrite app_nil_r, Z.sub_0_r, Z.add_0_r, !wrap_small by done.
    repeat split; done. }
  simpl in Hrun. apply bind_Some in Hrun as ([[r1 p1] s1] & Hstep & Hrun).
  destruct (lookup_lt_is_Some_2 (block_sizes_ p) n) as [sz Hsz]; [lia|].
  destruct (lookup_lt_is_Some_2 (free_block_counts_ p) n) as [c Hc]; [lia|].
  pose proof (Forall_lookup_1 _ _ _ _ Hsizes Hsz) as Hrsz.
  pose proof (Forall_lookup_1 _ _ _ _ Hcounts Hc) as Hrc.
  pose proof (reclaim_class_effect (Z.of_nat n) r p s r1 p1 s1 sz c) as Heff.
  rewrite !vec_get_nat in Heff.
  destruct (Heff Hsz Hc Hrsz Hrc Hstep) as [Hpos Hcases]. clear Heff.
  rewrite (drop_lookup_cons _ _ _ Hsz), (drop_lookup_cons _ _ _ Hc).
  unfold settle, released_bytes, class_bytes. simpl.
  fold (class_bytes (drop (S n) (block_sizes_ p))
          (zip_with release_count (drop (S n) (block_sizes_ p))
             (drop (S n) (free_block_counts_ p)))).
  fold (released_bytes (drop (S n) (block_sizes_ p)) (drop (S n) (free_block_counts_ p))).
  fold (settle (drop (S n) (block_sizes_ p)) (drop (S n) (free_block_counts_ p))).
  replace (Z.of_nat n + 1) with (Z.of_nat (S n)) in Hrun by lia.
  assert (0 < sz → 0 ≤ release_count sz c ≤ c) as Hrcb.
  { intros Hp. pose proof (release_count_spec sz c Hrc Hp). simpl in *. lia. }
  destruct Hcases as [(Hz & -> & -> & ->)|(Hnz & -> & fl & Hfl & ->)].
  - destruct (IH (S n) r p s r' p' s') as (H1 & H2 & H3 & H4 & H5 & H6 & H7);
      [lia|done..|].
    rewrite Hz, Z.mul_0_r, Z.add_0_l, Z.sub_0_r.
    split; [done|]. split; [done|].
    split. { rewrite H3. rewrite (take_S_r _ _ _ Hc). by rewrite <- app_assoc. }
    split; [done|]. split; [done|]. split; [by constructor|done].
  - assert (0 < sz) as Hp.
    { destruct Hpos as [Hle|]; [|done]. unfold release_count in Hnz.
      destruct (Z.leb_spec c RESERVE_BLOCK_COUNT); lia. }
    specialize (Hrcb Hp).
    eapply IH in Hrun as (H1 & H2 & H3 & H4 & H5 & H6 & H7);
      [|simpl; lia|simpl; by rewrite length_insert|done
       |simpl; apply Forall_insert; [done|]; unfold in_range in *; lia
       |apply in_range_wrap|simpl; apply in_range_wrap].
    simpl in *. rewrite !Nat2Z.id in *.
      rewrite drop_insert_lt in H3, H4, H5, H6 by lia.
      rewrite take_insert_lt in H3 by lia.
      split; [done|]. split; [congruence|].
      split.
      { rewrite H3. rewrite (take_S_r _ _ _ Hc).
        rewrite insert_app_r_alt; rewrite length_take; [|lia].
        replace (n - n `min` length (free_block_counts_ p))%nat with O by lia.
        simpl. by rewrite <- app_assoc. }
      split.
      { by rewrite H4, wrap_sub_sub. }
      split.
      { by rewrite H5, wrap_add_add. }
      split; [by constructor|done].
Qed.

Lemma reclaim_class_idle i st total_size c :
  vec_get (block_sizes_ st.1.2) i = Some total_size →
  vec_get (free_block_counts_ st.1.2) i = Some c →
  release_count total_size c = 0 →
  c ≤ RESERVE_BLOCK_COUNT ∨ total_size ≠ 0 →
  reclaim_class i st = Some st.
Proof.
  destruct st as [[r p] s]. simpl. intros Hsz Hc Hrc Hok.
  unfold reclaim_class. rewrite Hsz, Hc. simpl.
  unfold release_count in Hrc.
  destruct (Z.leb_spec c RESERVE_BLOCK_COUNT) as [|Hgt]; [done|].
  destruct (Z.eqb_spec total_size 0) as [|_]; [lia|].
  destruct (PAGE_SIZE / total_size =? 0); [done|].
  rewrite Hrc. done.
Qed.

Lemma reclaim_loop_idle rounds :
  ∀ n reclaimed p s,
    (n + rounds = length (block_sizes_ p))%nat →
    length (free_block_counts_ p) = length (block_sizes_ p) →
    (∀ k total_size c,
       block_sizes_ p !! k = Some total_size →
       free_block_counts_ p !! k = Some c →
       release_count total_size c = 0 ∧
       (c ≤ RESERVE_BLOCK_COUNT ∨ total_size ≠ 0)) →
    reclaim_loop rounds (Z.of_nat n) (reclaimed, p, s) = Some (reclaimed, p, s).
Proof.
  induction rounds as [|rounds IH]; intros n r p s Hn Hlen Hidle; [done|].
  cbn [reclaim_loop].
  destruct (lookup_lt_is_Some_2 (block_sizes_ p) n) as [sz Hsz]; [lia|].
  destruct (lookup_lt_is_Some_2 (free_block_counts_ p) n) as [c Hc]; [lia|].
  destruct (Hidle n sz c Hsz Hc) as [Hrc Hok].
  rewrite (reclaim_class_idle _ _ sz c); cbn [fst snd]; rewrite ?vec_get_nat;
    try done.
  cbn [mbind option_bind].
  replace (Z.of_nat n + 1) with (Z.of_nat (S n)) by lia.
  apply IH; [lia|done|done].
Qed.

(** C7. Whenever [reclaimIdleMemory] returns, calling it again at once
    returns 0 and leaves the pool, the memory and the system as they are:
    the first call leaves every class that fits a page with fewer than
    [RESERVE_BLOCK_COUNT] plus blocks-per-page free blocks. *)
Theorem reclaim_twice_releases_nothing
    (p : BaseMemoryPool) (s : System) (reclaimed : Z) (p1 : BaseMemoryPool)
    (s1 : System) :
  length (free_block_counts_ p) = length (block_sizes_ p) →
  Forall in_range (block_sizes_ p) →
  Forall in_range (free_block_counts_ p) →
  in_range (total_free_memory_ p) →
  reclaimIdleMemory p s = Some (reclaimed, p1, s1) →
  reclaimIdleMemory p1 s1 = Some (0, p1, s1) ∧
  ∀ k total_size c,
    block_sizes_ p1 !! k = Some total_size →
    free_block_counts_ p1 !! k = Some c →
    0 < total_size ≤ PAGE_SIZE →
    c < RESERVE_BLOCK_COUNT + PAGE_SIZE / total_size.
Proof.
  intros Hlen Hsizes Hcounts HT Hrun.
  unfold reclaimIdleMemory in *.
  apply (reclaim_loop_effect _ 0%nat) in Hrun
    as (Hsz & _ & Hc & _ & _ & Hpos & _);
    [|done|done|done|done|unfold in_range, SIZE_MODULUS; lia|done].
  rewrite !drop_0 in *. simpl in Hc.
  assert (∀ k total_size c,
    block_sizes_ p1 !! k = Some total_size →
    free_block_counts_ p1 !! k = Some c →
    ∃ c0, free_block_counts_ p !! k = Some c0 ∧ in_range c0 ∧
          c = c0 - release_count total_size c0 ∧
          (c0 ≤ RESERVE_BLOCK_COUNT ∨ 0 < total_size)) as Hview.
  { intros k sz c Hk Hck. rewrite Hsz in Hk. rewrite Hc in Hck.
    apply lookup_zip_with_Some in Hck as (sz' & c0 & -> & Hk' & Hc0).
    rewrite Hk in Hk'. injection Hk' as <-.
    exists c0. split; [done|]. split; [by eapply Forall_lookup_1|].
    split; [done|]. by eapply Forall2_lookup_lr in Hpos. }
  split.
  - rewrite Hsz. apply (reclaim_loop_idle _ 0%nat).
    + by rewrite Hsz.
    + rewrite Hsz, Hc. unfold settle. rewrite length_zip_with. lia.
    + intros k sz c Hk Hck.
      destruct (Hview k sz c Hk Hck) as (c0 & _ & Hr0 & -> & Hok).
      destruct (decide (0 < sz)) as [Hp|Hnp].
      * pose proof (release_count_spec sz c0 Hr0 Hp) as Hspec. simpl in Hspec.
        split; [apply Hspec|right; lia].
      * destruct Hok as [Hle|]; [|done].
        assert (release_count sz c0 = 0) as ->.
        { unfold release_count.
          by destruct (Z.leb_spec c0 RESERVE_BLOCK_COUNT); [|lia]. }
        rewrite Z.sub_0_r. split; [|by left].
        unfold release_count.
        by destruct (Z.leb_spec c0 RESERVE_BLOCK_COUNT); [|lia].
  - intros k sz c Hk Hck [Hp Hpage].
    destruct (Hview k sz c Hk Hck) as (c0 & _ & Hr0 & -> & _).
    pose proof (release_count_spec sz c0 Hr0 Hp) as Hspec. simpl in Hspec.
    by apply Hspec.
Qed.

(** * Accounting of free bytes *)

Lemma wrap_add_multiple z k : wrap (z + k * SIZE_MODULUS) = wrap z.
Proof. unfold wrap. apply Z_mod_plus_full. Qed.

Lemma wrap_unfold z : wrap z = z - z / SIZE_MODULUS * SIZE_MODULUS.
Proof.
  unfold wrap. rewrite Z.mod_eq by (unfold SIZE_MODULUS; lia). lia.
Qed.

(** Adding [n] blocks to a class whose count is stored wrapped. *)
Lemma wrap_class_update bytes total_size c n :
  wrap (bytes + total_size * (wrap (c + n) - c)) = wrap (bytes + total_size * n).
Proof.
  rewrite (wrap_unfold (c + n)).
  replace (bytes + total_size * (c + n - (c + n) / SIZE_MODULUS * SIZE_MODULUS - c))
    with (bytes + total_size * n
          + (- (total_size * ((c + n) / SIZE_MODULUS))) * SIZE_MODULUS) by lia.
  apply wrap_add_multiple.
Qed.

Lemma class_bytes_cons total_size sizes c counts :
  class_bytes (total_size :: sizes) (c :: counts)
  = total_size * c + class_bytes sizes counts.
Proof. reflexivity. Qed.

Lemma class_bytes_insert sizes counts j total_size c c' :
  sizes !! j = Some total_size → counts !! j = Some c →
  class_bytes sizes (<[j := c']> counts)
  = class_bytes sizes counts + total_size * (c' - c).
Proof.
  revert counts j.
  induction sizes as [|sz sizes IH]; intros [|c0 counts] [|j] Hsz Hc;
    simpl in *; try done.
  - injection Hsz as ->. injection Hc as ->. rewrite !class_bytes_cons. lia.
  - rewrite !class_bytes_cons, (IH _ _ Hsz Hc). lia.
Qed.

Lemma class_bytes_settle sizes counts :
  class_bytes sizes (settle sizes counts)
  = class_bytes sizes counts - released_bytes sizes counts.
Proof.
  unfold released_bytes, settle. revert counts.
  induction sizes as [|sz sizes IH]; intros [|c counts]; simpl; try done.
  rewrite !class_bytes_cons, IH. lia.
Qed.

Lemma class_bytes_settle_bound sizes counts :
  length counts = length sizes →
  Forall (λ total_size, 0 < total_size ≤ PAGE_SIZE) sizes →
  Forall in_range counts →
  0 ≤ class_bytes sizes (settle sizes counts)
  ≤ class_bytes sizes (retained_cap <$> sizes).
Proof.
  intros Hlen Hsizes. revert counts Hlen.
  induction Hsizes as [|sz sizes Hsz _ IH]; intros [|c counts] Hlen Hcounts;
    simpl in Hlen; try done.
  inversion Hcounts as [|? ? Hc Hcounts']; subst.
  unfold settle. rewrite fmap_cons. cbn [zip_with]. fold (settle sizes counts).
  rewrite !class_bytes_cons.
  specialize (IH counts ltac:(lia) Hcounts').
  pose proof (release_count_spec sz c Hc ltac:(lia)) as Hspec. simpl in Hspec.
  destruct Hspec as (H0 & Hle & _ & Hcap & _). specialize (Hcap ltac:(lia)).
  assert (0 ≤ sz * (c - release_count sz c))
    by (apply Z.mul_nonneg_nonneg; lia).
  assert (sz * (c - release_count sz c) ≤ sz * retained_cap sz).
  { apply Z.mul_le_mono_nonneg_l; [lia|].
    unfold retained_cap, RESERVE_BLOCK_COUNT in *. lia. }
  lia.
Qed.

Lemma seeded_sizes_fit_page :
  Forall (λ total_size, 0 < total_size ≤ PAGE_SIZE) seeded_sizes.
Proof. apply (bool_decide_unpack _). by vm_compute. Qed.

Lemma seeded_sizes_in_range : Forall in_range seeded_sizes.
Proof.
  eapply Forall_impl; [apply seeded_sizes_fit_page|].
  intros sz. unfold in_range, SIZE_MODULUS, PAGE_SIZE. simpl. lia.
Qed.

Lemma seeded_sizes_sorted : StronglySorted Z.lt seeded_sizes.
Proof. apply (bool_decide_unpack _). by vm_compute. Qed.

Lemma seeded_retention_below_threshold :
  class_bytes seeded_sizes (retained_cap <$> seeded_sizes) ≤ MAX_GLOBAL_FREE_MEMORY.
Proof. by vm_compute. Qed.

Lemma reclaim_below_threshold p s reclaimed p' s' :
  accounted p →
  reclaimIdleMemory p s = Some (reclaimed, p', s') →
  accounted p' ∧ total_free_memory_ p' ≤ MAX_GLOBAL_FREE_MEMORY.
Proof.
  intros [Hsz Hlen Hrange Hsum] Hrun. unfold reclaimIdleMemory in Hrun.
  apply (reclaim_loop_effect _ 0%nat) in Hrun
    as (Hsz' & _ & Hc & HT & _);
    [|done|done|rewrite Hsz; apply seeded_sizes_in_range|done
     |unfold in_range, SIZE_MODULUS; lia|rewrite Hsum; apply in_range_wrap].
  rewrite !drop_0 in *. simpl in Hc.
  pose proof (class_bytes_settle_bound (block_sizes_ p) (free_block_counts_ p)) as Hb.
  specialize (Hb Hlen). rewrite Hsz in Hb at 1.
  specialize (Hb seeded_sizes_fit_page Hrange).
  pose proof seeded_retention_below_threshold as Hmax. rewrite <- Hsz in Hmax.
  assert (total_free_memory_ p'
          = class_bytes (block_sizes_ p) (settle (block_sizes_ p) (free_block_counts_ p)))
    as HT'.
  { rewrite HT, Hsum, wrap_sub_l, <- class_bytes_settle.
    apply wrap_small. unfold SIZE_MODULUS, MAX_GLOBAL_FREE_MEMORY in *. lia. }
  split; [|lia].
  split.
  - congruence.
  - rewrite Hc, Hsz'. unfold settle. rewrite length_zip_with. lia.
  - rewrite Hc. unfold settle.
    apply Forall_lookup_2. intros k c Hk.
    apply lookup_zip_with_Some in Hk as (sz & c0 & -> & Hsk & Hck).
    pose proof (Forall_lookup_1 _ _ _ _ Hrange Hck) as Hr0.
    assert (0 < sz) as Hp.
    { rewrite Hsz in Hsk.
      by apply (Forall_lookup_1 _ _ _ _ seeded_sizes_fit_page Hsk). }
    pose proof (release_count_spec sz c0 Hr0 Hp) as Hspec. simpl in Hspec.
    unfold in_range in *. lia.
  - rewrite Hsz', Hc, HT'. symmetry. apply wrap_small.
    unfold SIZE_MODULUS, MAX_GLOBAL_FREE_MEMORY in *. lia.
Qed.

(** * Lookup in a sorted class table *)

Lemma lower_bound_sorted v k x :
  StronglySorted Z.lt v → v !! k = Some x → lower_bound v x = k.
Proof.
  intros Hsorted. revert k.
  induction Hsorted as [|y v _ IH Hall]; intros [|k] Hk; simpl in *; try done.
  - injection Hk as ->. by destruct (Z.ltb_spec x x); [lia|].
  - pose proof (Forall_lookup_1 _ _ _ _ Hall Hk) as Hlt.
    destruct (Z.ltb_spec y x); [|lia]. f_equal. by apply IH.
Qed.

Lemma findBlockSizeIndex_sorted p k total_size :
  StronglySorted Z.lt (block_sizes_ p) →
  block_sizes_ p !! k = Some total_size →
  findBlockSizeIndex p total_size = Z.of_nat k.
Proof.
  intros Hsorted Hk. unfold findBlockSizeIndex.
  rewrite (lower_bound_sorted _ k) by done. rewrite Hk.
  by destruct (Z.eqb_spec total_size total_size).
Qed.

Lemma addBlockSizeIfNotExist_present p k total_size :
  StronglySorted Z.lt (block_sizes_ p) →
  block_sizes_ p !! k = Some total_size →
  addBlockSizeIfNotExist total_size p = (Z.of_nat k, p).
Proof.
  intros Hsorted Hk. unfold addBlockSizeIfNotExist.
  rewrite (findBlockSizeIndex_sorted p k) by done.
  by destruct (Z.eqb_spec (Z.of_nat k) (-1)); [lia|].
Qed.

(** * What [deallocate] and [transferTo] do to the counters *)

Lemma deallocate_inv user_ptr p s p' s' :
  deallocate user_ptr p s = Some (p', s') →
  p' = p ∨
  ∃ index total_size c,
    vec_get (block_sizes_ p) index = Some total_size ∧
    vec_get (free_block_counts_ p) index = Some c ∧
    p' = pushed index (user_ptr - FREE_BLOCK_HEADER_SIZE) total_size c p.
Proof.
  unfold deallocate. intros Hrun.
  destruct (user_ptr =? 0); [injection Hrun as <- <-; by left|].
  apply bind_Some in Hrun as (total_size & _ & Hrun).
  destruct (_ || _); [injection Hrun as <- <-; by left|].
  destruct (Z.eqb_spec (findBlockSizeIndex p total_size) (-1)) as [|Hfound];
    [injection Hrun as <- <-; by left|].
  apply bind_Some in Hrun as (head & _ & Hrun).
  apply bind_Some in Hrun as (s1 & _ & Hrun).
  apply bind_Some in Hrun as (fl & Hfl & Hrun).
  apply bind_Some in Hrun as (c & Hc & Hrun).
  apply bind_Some in Hrun as (counts & Hcounts & Hrun).
  apply vec_set_Some in Hfl as [_ ->]. apply vec_set_Some in Hcounts as [_ ->].
  injection Hrun as <- <-. right.
  exists (findBlockSizeIndex p total_size), total_size, c.
  split; [by apply findBlockSizeIndex_found|]. done.
Qed.

Lemma accounted_add_blocks p index total_size c n fl ac dc ta :
  accounted p →
  vec_get (block_sizes_ p) index = Some total_size →
  vec_get (free_block_counts_ p) index = Some c →
  accounted
    {| block_sizes_ := block_sizes_ p;
       free_lists_ := fl;
       free_block_counts_ := <[Z.to_nat index := wrap (c + n)]> (free_block_counts_ p);
       allocate_count_ := ac;
       deallocate_count_ := dc;
       total_free_memory_ := wrap (total_free_memory_ p + wrap (total_size * n));
       total_allocated_memory_ := ta |}.
Proof.
  intros [Hsz Hlen Hrange Hsum] [_ Hk]%vec_get_Some [_ Hc]%vec_get_Some.
  split; simpl.
  - done.
  - by rewrite length_insert.
  - apply Forall_insert; [done|apply in_range_wrap].
  - rewrite (class_bytes_insert _ _ _ total_size c) by done.
    rewrite Hsum, wrap_add_l, wrap_add_r. symmetry. apply wrap_class_update.
Qed.

Lemma deallocate_accounted user_ptr p s p' s' :
  accounted p → deallocate user_ptr p s = Some (p', s') → accounted p'.
Proof.
  intros Hacc Hrun.
  apply deallocate_inv in Hrun as [->|(index & sz & c & Hsz & Hc & ->)]; [done|].
  assert (pushed index (user_ptr - FREE_BLOCK_HEADER_SIZE) sz c p
          = {| block_sizes_ := block_sizes_ p;
               free_lists_ :=
                 <[Z.to_nat index := user_ptr - FREE_BLOCK_HEADER_SIZE]> (free_lists_ p);
               free_block_counts_ :=
                 <[Z.to_nat index := wrap (c + 1)]> (free_block_counts_ p);
               allocate_count_ := allocate_count_ p;
               deallocate_count_ := wrap (deallocate_count_ p + 1);
               total_free_memory_ := wrap (total_free_memory_ p + wrap (sz * 1));
               total_allocated_memory_ := total_allocated_memory_ p |}) as ->.
  { unfold pushed. f_equal. by rewrite Z.mul_1_r, wrap_add_r. }
  by apply accounted_add_blocks.
Qed.

Lemma transfer_class_inv fuel i src dest s src' dest' s' :
  transfer_class fuel i (src, dest, s) = Some (src', dest', s') →
  (vec_get (free_lists_ src) i = Some 0 ∧ src' = src ∧ dest' = dest ∧ s' = s) ∨
  ∃ head total_size c j dest0 dest_c dest_head last,
    vec_get (free_lists_ src) i = Some head ∧ head ≠ 0 ∧
    vec_get (block_sizes_ src) i = Some total_size ∧
    vec_get (free_block_counts_ src) i = Some c ∧
    addBlockSizeIfNotExist total_size dest = (j, dest0) ∧
    vec_get (free_block_counts_ dest0) j = Some dest_c ∧
    vec_get (free_lists_ dest0) j = Some dest_head ∧
    last_block fuel head s = Some last ∧
    s' = store (last + 8) dest_head s ∧
    src' = drained i total_size c src ∧
    dest' = received j head total_size dest_c c dest0.
Proof.
  unfold transfer_class. intros Hrun.
  apply bind_Some in Hrun as (head & Hhead & Hrun).
  destruct (Z.eqb_spec head 0) as [->|Hne].
  { injection Hrun as <- <- <-. by left. }
  apply bind_Some in Hrun as (total_size & Hsz & Hrun).
  rewrite find_or_add in Hrun.
  pose proof (addBlockSizeIfNotExist_index total_size dest) as Hadd.
  destruct (addBlockSizeIfNotExist total_size dest) as [j dest0] eqn:Hadd'.
  destruct Hadd as [Hj _]. destruct (Z.eqb_spec j (-1)) as [|_]; [done|].
  apply bind_Some in Hrun as (last & Hlast & Hrun).
  apply bind_Some in Hrun as (dest_head & Hdh & Hrun).
  apply bind_Some in Hrun as (s1 & Hs1 & Hrun).
  apply bind_Some in Hrun as (dest_fl & Hdfl & Hrun).
  apply bind_Some in Hrun as (c & Hc & Hrun).
  apply bind_Some in Hrun as (dest_c & Hdc & Hrun).
  apply bind_Some in Hrun as (dest_counts & Hdcounts & Hrun).
  apply bind_Some in Hrun as (src_fl & Hsfl & Hrun).
  apply bind_Some in Hrun as (src_counts & Hscounts & Hrun).
  apply vec_set_Some in Hdfl as [_ ->]. apply vec_set_Some in Hdcounts as [_ ->].
  apply vec_set_Some in Hsfl as [_ ->]. apply vec_set_Some in Hscounts as [_ ->].
  injection Hrun as <- <- <-.
  unfold set_block_next in Hs1. destruct (last =? 0); [done|]. injection Hs1 as <-.
  right. exists head, total_size, c, j, dest0, dest_c, dest_head, last.
  repeat split; done.
Qed.

Lemma transfer_loop_accounted fuel rounds :
  ∀ i src dest s src' dest' s',
    block_sizes_ src = seeded_sizes → accounted dest →
    transfer_loop fuel rounds i (src, dest, s) = Some (src', dest', s') →
    accounted dest'.
Proof.
  induction rounds as [|rounds IH]; intros i src dest s src' dest' s' Hsrc Hacc Hrun.
  { simpl in Hrun. by injection Hrun as <- <- <-. }
  cbn [transfer_loop] in Hrun.
  apply bind_Some in Hrun as ([[src1 dest1] s1] & Hstep & Hrun).
  apply transfer_class_inv in Hstep
    as [(_ & -> & -> & ->)
       |(head & sz & c & j & d0 & dc & dh & last & _ & _ & Hsz & _ & Hadd & Hdc
         & _ & _ & _ & -> & ->)].
  { by eapply IH. }
  eapply IH; [| |exact Hrun]; [done|].
  apply vec_get_Some in Hsz as [_ Hsz]. rewrite Hsrc in Hsz.
  rewrite (addBlockSizeIfNotExist_present dest (Z.to_nat i) sz) in Hadd.
  - injection Hadd as <- <-.
    apply accounted_add_blocks; [done| |done].
    rewrite vec_get_nat. by rewrite (accounted_sizes _ Hacc).
  - rewrite (accounted_sizes _ Hacc). apply seeded_sizes_sorted.
  - by rewrite (accounted_sizes _ Hacc).
Qed.

(** The bound on a global pool whose counters are in step: every return
    from [GlobalMemoryPool::deallocate] and from
    [GlobalMemoryPool::transferFrom] (the source pool having the seeded
    class table) leaves them in step with at most [MAX_GLOBAL_FREE_MEMORY]
    free bytes: either the threshold test finds the total at or below the
    threshold, or [reclaimIdleMemory] runs and leaves each of the 256
    classes with at most [RESERVE_BLOCK_COUNT - 1] blocks plus one page's
    worth.  The pool reached by [global_overflow_run] is not of this kind:
    its counters are out of step, and there the bound fails. *)
Theorem global_pool_free_memory_bounded (g : GlobalMemoryPool.t) (s : System) :
  accounted (GlobalMemoryPool.pool_ g) →
  (∀ user_ptr g' s',
     GlobalMemoryPool.deallocate user_ptr g s = Some (g', s') →
     accounted (GlobalMemoryPool.pool_ g') ∧
     total_free_memory (GlobalMemoryPool.getGlobalStats g') ≤ MAX_GLOBAL_FREE_MEMORY) ∧
  (∀ fuel src src' g' s',
     block_sizes_ src = seeded_sizes →
     GlobalMemoryPool.transferFrom fuel src g s = Some (src', g', s') →
     accounted (GlobalMemoryPool.pool_ g') ∧
     total_free_memory (GlobalMemoryPool.getGlobalStats g') ≤ MAX_GLOBAL_FREE_MEMORY).
Proof.
  intros Hacc. split.
  - intros user_ptr g' s' Hrun. unfold GlobalMemoryPool.deallocate in Hrun.
    apply bind_Some in Hrun as ([p1 s1] & Hfree & Hrun).
    apply deallocate_accounted in Hfree; [|done].
    cbn [getStats total_free_memory] in Hrun.
    destruct (Z.ltb_spec MAX_GLOBAL_FREE_MEMORY (total_free_memory_ p1)).
    + apply bind_Some in Hrun as ([[r p2] s2] & Hreclaim & Hrun).
      injection Hrun as <- <-.
      by eapply reclaim_below_threshold.
    + injection Hrun as <- <-. done.
  - intros fuel src src' g' s' Hsrc Hrun.
    unfold GlobalMemoryPool.transferFrom in Hrun.
    apply bind_Some in Hrun as ([[src1 p1] s1] & Hmove & Hrun).
    apply transfer_loop_accounted in Hmove; [|done..].
    cbn [getStats total_free_memory] in Hrun.
    destruct (Z.ltb_spec MAX_GLOBAL_FREE_MEMORY (total_free_memory_ p1)).
    + apply bind_Some in Hrun as ([[r p2] s2] & Hreclaim & Hrun).
      injection Hrun as <- <- <-.
      by eapply reclaim_below_threshold.
    + injection Hrun as <- <- <-. done.
Qed.

(** * Inserting a class into a sorted table *)

Lemma vec_insert_elem_of v i x y : y ∈ vec_insert v i x ↔ y = x ∨ y ∈ v.
Proof.
  unfold vec_insert. rewrite elem_of_app, elem_of_cons.
  assert (y ∈ v ↔ y ∈ take i v ∨ y ∈ drop i v) as ->
    by (by rewrite <- elem_of_app, take_drop).
  tauto.
Qed.

Lemma vec_insert_lookup_old v i x k y :
  v !! k = Some y →
  vec_insert v i x !! (if decide (k < i)%nat then k else S k) = Some y.
Proof.
  intros Hk. unfold vec_insert.
  pose proof (lookup_lt_Some _ _ _ Hk) as Hlt.
  destruct (decide (k < i)%nat) as [Hki|Hki].
  - rewrite lookup_app_l by (rewrite length_take; lia).
    by rewrite lookup_take_lt.
  - rewrite lookup_app_r by (rewrite length_take; lia).
    rewrite length_take.
    destruct (decide (i ≤ length v)%nat) as [Hi|Hi].
    + replace (S k - i `min` length v)%nat with (S (k - i)) by lia.
      simpl. rewrite lookup_drop. by replace (i + (k - i))%nat with k by lia.
    + lia.
Qed.

Lemma lower_bound_insert_sorted v x :
  StronglySorted Z.lt v → x ∉ v →
  StronglySorted Z.lt (vec_insert v (lower_bound v x) x).
Proof.
  intros Hsorted. induction Hsorted as [|y v Hv IH Hall]; intros Hx.
  - unfold vec_insert. simpl. repeat constructor.
  - apply not_elem_of_cons in Hx as [Hne Hx]. simpl.
    destruct (Z.ltb_spec y x) as [Hlt|Hge].
    + unfold vec_insert. simpl. fold (vec_insert v (lower_bound v x) x).
      constructor; [by apply IH|].
      apply Forall_forall. intros z [->|Hz]%vec_insert_elem_of; [done|].
      by eapply Forall_forall in Hall.
    + unfold vec_insert. simpl.
      constructor; [by constructor|].
      constructor; [lia|]. eapply Forall_impl; [exact Hall|]. simpl. lia.
Qed.

Lemma findBlockSizeIndex_absent p total_size :
  total_size ∉ block_sizes_ p → findBlockSizeIndex p total_size = -1.
Proof.
  intros Hx. destruct (decide (findBlockSizeIndex p total_size = -1)) as [|Hne];
    [done|].
  apply findBlockSizeIndex_found, vec_get_Some in Hne as [_ Hk].
  by apply list_elem_of_lookup_2 in Hk.
Qed.

Lemma class_count_absent p total_size :
  total_size ∉ block_sizes_ p → class_count p total_size = 0.
Proof.
  intros Hx. unfold class_count. by rewrite findBlockSizeIndex_absent.
Qed.

Lemma class_count_lookup p k total_size c :
  StronglySorted Z.lt (block_sizes_ p) →
  block_sizes_ p !! k = Some total_size →
  free_block_counts_ p !! k = Some c →
  class_count p total_size = c.
Proof.
  intros Hsorted Hk Hc. unfold class_count.
  rewrite (findBlockSizeIndex_sorted p k) by done.
  by rewrite vec_get_nat, Hc.
Qed.

(** One class received by the destination: the table stays searchable, the
    class is there with its count grown by [c], every other class is as it
    was. *)
Lemma received_class_counts dest total_size j dest0 dest_c head c :
  table_ok dest →
  addBlockSizeIfNotExist total_size dest = (j, dest0) →
  vec_get (free_block_counts_ dest0) j = Some dest_c →
  let dest' := received j head total_size dest_c c dest0 in
  table_ok dest' ∧
  findBlockSizeIndex dest' total_size ≠ -1 ∧
  class_count dest' total_size = wrap (class_count dest total_size + c) ∧
  ∀ y, y ≠ total_size →
       class_count dest' y = class_count dest y ∧
       (findBlockSizeIndex dest y ≠ -1 → findBlockSizeIndex dest' y ≠ -1).
Proof.
  intros [Hsorted Hlen] Hadd Hdc dest'.
  destruct (decide (total_size ∈ block_sizes_ dest)) as [Hin|Hout].
  - (* the class is there: nothing is inserted *)
    apply list_elem_of_lookup_1 in Hin as [k Hk].
    rewrite (addBlockSizeIfNotExist_present dest k) in Hadd by done.
    injection Hadd as <- <-.
    rewrite vec_get_nat in Hdc.
    pose proof (lookup_lt_Some _ _ _ Hdc) as Hklt.
    assert (StronglySorted Z.lt (block_sizes_ dest')) as Hsorted' by done.
    split; [split; [done|]; simpl; by rewrite length_insert|].
    split.
    { rewrite (findBlockSizeIndex_sorted dest' k) by done. lia. }
    split.
    { rewrite (class_count_lookup dest k total_size dest_c) by done.
      apply (class_count_lookup dest' k); [done|done|].
      simpl. rewrite Nat2Z.id. by apply list_lookup_insert_eq. }
    intros y Hy.
    assert (findBlockSizeIndex dest' y = findBlockSizeIndex dest y) as Hsame
      by (by apply findBlockSizeIndex_ext).
    split; [|by rewrite Hsame].
    unfold class_count. rewrite Hsame.
    destruct (decide (findBlockSizeIndex dest y = -1)) as [->|Hfound]; [done|].
    pose proof (findBlockSizeIndex_found dest y Hfound) as Hyk.
    apply vec_get_Some in Hyk as [Hnn Hyk].
    unfold vec_get. destruct (Z.ltb_spec (findBlockSizeIndex dest y) 0); [lia|].
    simpl. rewrite Nat2Z.id.
    rewrite list_lookup_insert_ne; [done|].
    intros E. rewrite <- E, Hk in Hyk. by injection Hyk as ->.
  - (* the class is inserted at its sorted position, with count zero *)
    pose proof (findBlockSizeIndex_absent dest total_size Hout) as Hnone.
    unfold addBlockSizeIfNotExist in Hadd. rewrite Hnone in Hadd. simpl in Hadd.
    injection Hadd as <- <-.
    set (it := lower_bound (block_sizes_ dest) total_size) in *.
    pose proof (lower_bound_le (block_sizes_ dest) total_size) as Hit.
    fold it in Hit.
    rewrite vec_get_nat in Hdc. simpl in Hdc.
    rewrite vec_insert_lookup_new in Hdc by lia. injection Hdc as <-.
    assert (StronglySorted Z.lt (block_sizes_ dest')) as Hsorted'
      by (by apply lower_bound_insert_sorted).
    assert (block_sizes_ dest' !! it = Some total_size) as Hnew
      by (by apply vec_insert_lookup_new).
    split.
    { split; [done|]. simpl. rewrite length_insert, !vec_insert_length. lia. }
    split.
    { rewrite (findBlockSizeIndex_sorted dest' it total_size Hsorted' Hnew). lia. }
    split.
    { rewrite (class_count_absent dest) by done.
      apply (class_count_lookup dest' it); [done|done|].
      simpl. rewrite Nat2Z.id. apply list_lookup_insert_eq.
      rewrite vec_insert_length. lia. }
    intros y Hy.
    destruct (decide (y ∈ block_sizes_ dest)) as [Hin|Hout'].
    + apply list_elem_of_lookup_1 in Hin as [k Hk].
      destruct (lookup_lt_is_Some_2 (free_block_counts_ dest) k) as [cy Hcy].
      { apply lookup_lt_Some in Hk. lia. }
      pose proof (vec_insert_lookup_old _ it total_size _ _ Hk) as Hk'.
      pose proof (vec_insert_lookup_old _ it 0 _ _ Hcy) as Hcy'.
      set (k' := if decide (k < it)%nat then k else S k) in *.
      assert (k' ≠ it) as Hne.
      { intros E. rewrite E in Hk'. simpl in Hnew. rewrite Hnew in Hk'.
        by injection Hk' as ->. }
      split.
      * rewrite (class_count_lookup dest k y cy) by done.
        apply (class_count_lookup dest' k'); [done|done|].
        simpl. rewrite Nat2Z.id. by rewrite list_lookup_insert_ne.
      * intros _. rewrite (findBlockSizeIndex_sorted dest' k') by done. lia.
    + split.
      * rewrite (class_count_absent dest) by done.
        apply class_count_absent. simpl. rewrite vec_insert_elem_of. tauto.
      * intros Hfound. by rewrite findBlockSizeIndex_absent in Hfound.
Qed.

Lemma addBlockSizeIfNotExist_counters total_size p :
  total_free_memory_ (addBlockSizeIfNotExist total_size p).2 = total_free_memory_ p.
Proof.
  unfold addBlockSizeIfNotExist. by destruct (negb _).
Qed.

(** * The three effects of [transferTo] *)

Lemma transfer_loop_sum fuel rounds :
  ∀ i src dest s src' dest' s',
    transfer_loop fuel rounds i (src, dest, s) = Some (src', dest', s') →
    wrap (total_free_memory_ src' + total_free_memory_ dest')
    = wrap (total_free_memory_ src + total_free_memory_ dest).
Proof.
  induction rounds as [|rounds IH]; intros i src dest s src' dest' s' Hrun.
  { simpl in Hrun. by injection Hrun as <- <- <-. }
  cbn [transfer_loop] in Hrun.
  apply bind_Some in Hrun as ([[src1 dest1] s1] & Hstep & Hrun).
  apply IH in Hrun. rewrite Hrun. clear Hrun.
  apply transfer_class_inv in Hstep
    as [(_ & -> & -> & ->)
       |(head & sz & c & j & d0 & dc & dh & last & _ & _ & _ & _ & Hadd & _
         & _ & _ & _ & -> & ->)]; [done|].
  simpl.
  pose proof (addBlockSizeIfNotExist_counters sz dest) as HT.
  rewrite Hadd in HT. simpl in HT. rewrite HT.
  rewrite wrap_add_l, wrap_add_r. f_equal. lia.
Qed.

Lemma transfer_loop_source fuel rounds :
  ∀ n src dest s src' dest' s',
    transfer_loop fuel rounds (Z.of_nat n) (src, dest, s) = Some (src', dest', s') →
    block_sizes_ src' = block_sizes_ src ∧
    length (free_lists_ src') = length (free_lists_ src) ∧
    length (free_block_counts_ src') = length (free_block_counts_ src) ∧
    (∀ k, (k < n ∨ n + rounds ≤ k)%nat →
          free_lists_ src' !! k = free_lists_ src !! k ∧
          free_block_counts_ src' !! k = free_block_counts_ src !! k) ∧
    (∀ k head, (n ≤ k < n + rounds)%nat →
               free_lists_ src !! k = Some head →
               free_lists_ src' !! k = Some 0 ∧
               (head ≠ 0 → free_block_counts_ src' !! k = Some 0) ∧
               (head = 0 →
                free_block_counts_ src' !! k = free_block_counts_ src !! k)).
Proof.
  induction rounds as [|rounds IH]; intros n src dest s src' dest' s' Hrun.
  { simpl in Hrun. injection Hrun as <- <- <-.
    split; [done|]. split; [done|]. split; [done|].
    split; [done|]. intros; lia. }
  cbn [transfer_loop] in Hrun.
  apply bind_Some in Hrun as ([[src1 dest1] s1] & Hstep & Hrun).
  replace (Z.of_nat n + 1) with (Z.of_nat (S n)) in Hrun by lia.
  apply IH in Hrun as (Hsz & Hlfl & Hlc & Hout & Hin). clear IH.
  apply transfer_class_inv in Hstep
    as [(Hhead & -> & -> & ->)
       |(head & sz & c & j & d0 & dc & dh & last & Hhead & Hne & _ & Hc & _ & _
         & _ & _ & _ & -> & ->)].
  - rewrite vec_get_nat in Hhead.
    split; [done|]. split; [done|]. split; [done|].
    split; [intros k Hk; apply Hout; lia|].
    intros k hd Hk Hhd.
    destruct (decide (k = n)) as [->|Hkn]; [|apply Hin; [lia|done]].
    rewrite Hhead in Hhd. injection Hhd as <-.
    destruct (Hout n ltac:(lia)) as [-> ->]. done.
  - rewrite vec_get_nat in Hhead, Hc.
    pose proof (lookup_lt_Some _ _ _ Hhead) as Hlt.
    pose proof (lookup_lt_Some _ _ _ Hc) as Hlt'.
    simpl in *. rewrite !Nat2Z.id in *. rewrite !length_insert in *.
    split; [done|]. split; [done|]. split; [done|].
    split.
    { intros k Hk. destruct (Hout k ltac:(lia)) as [-> ->].
      rewrite !list_lookup_insert_ne by lia. done. }
    intros k hd Hk Hhd.
    destruct (decide (k = n)) as [->|Hkn].
    + destruct (Hout n ltac:(lia)) as [-> ->].
      rewrite !list_lookup_insert_eq by done.
      rewrite Hhead in Hhd. injection Hhd as <-. done.
    + destruct (Hin k hd ltac:(lia)) as (H1 & H2 & H3).
      { by rewrite list_lookup_insert_ne. }
      split; [done|]. split; [done|].
      intros Hz. rewrite (H3 Hz). by rewrite list_lookup_insert_ne.
Qed.

Lemma transfer_loop_classes fuel rounds :
  ∀ n src dest s src' dest' s',
    table_ok dest → NoDup (block_sizes_ src) →
    transfer_loop fuel rounds (Z.of_nat n) (src, dest, s) = Some (src', dest', s') →
    table_ok dest' ∧
    ∀ y,
      (∀ k head c, (n ≤ k < n + rounds)%nat →
         free_lists_ src !! k = Some head → head ≠ 0 →
         block_sizes_ src !! k = Some y →
         free_block_counts_ src !! k = Some c →
         findBlockSizeIndex dest' y ≠ -1 ∧
         class_count dest' y = wrap (class_count dest y + c)) ∧
      ((∀ k head, (n ≤ k < n + rounds)%nat →
          free_lists_ src !! k = Some head →
          block_sizes_ src !! k = Some y → head = 0) →
       class_count dest' y = class_count dest y ∧
       (findBlockSizeIndex dest y ≠ -1 → findBlockSizeIndex dest' y ≠ -1)).
Proof.
  induction rounds as [|rounds IH]; intros n src dest s src' dest' s' Hok Hnd Hrun.
  { simpl in Hrun. injection Hrun as <- <- <-.
    split; [done|]. intros y. split; [intros; lia|done]. }
  cbn [transfer_loop] in Hrun.
  apply bind_Some in Hrun as ([[src1 dest1] s1] & Hstep & Hrun).
  replace (Z.of_nat n + 1) with (Z.of_nat (S n)) in Hrun by lia.
  apply transfer_class_inv in Hstep
    as [(Hhead & -> & -> & ->)
       |(head & sz & c & j & d0 & dc & dh & last & Hhead & Hne & Hsz & Hc & Hadd
         & Hdc & _ & _ & _ & -> & ->)].
  - rewrite vec_get_nat in Hhead.
    apply IH in Hrun as [Hok' Hclasses]; [|done..].
    split; [done|]. intros y. destruct (Hclasses y) as [Hmoved Hkept].
    split.
    + intros k hd ck Hk Hhd Hnz Hy Hck.
      destruct (decide (k = n)) as [->|Hkn]; [congruence|].
      apply (Hmoved k hd ck); [lia|done..].
    + intros Hidle. apply Hkept. intros k hd Hk. apply Hidle. lia.
  - rewrite vec_get_nat in Hhead, Hsz, Hc.
    destruct (received_class_counts dest sz j d0 dc head c Hok Hadd Hdc)
      as (Hok1 & Hfound1 & Hcount1 & Hothers1).
    apply IH in Hrun as [Hok' Hclasses]; [|done|done].
    split; [done|]. intros y. destruct (Hclasses y) as [Hmoved Hkept].
    simpl in Hmoved, Hkept. rewrite !Nat2Z.id in *.
    split.
    + intros k hd ck Hk Hhd Hnz Hy Hck.
      destruct (decide (k = n)) as [->|Hkn].
      * assert (y = sz) as -> by congruence. assert (ck = c) as -> by congruence.
        destruct Hkept as [Heq Hfind].
        { intros k' hd' Hk' _ Hy'.
          pose proof (NoDup_lookup _ _ _ _ Hnd Hy' Hsz). lia. }
        rewrite Heq. split; [by apply Hfind|done].
      * destruct (Hmoved k hd ck) as [Hf Hcnt]; [lia| |done|done| |].
        { by rewrite list_lookup_insert_ne. }
        { by rewrite list_lookup_insert_ne. }
        split; [done|]. rewrite Hcnt.
        destruct (Hothers1 y) as [-> _]; [|done].
        intros ->. pose proof (NoDup_lookup _ _ _ _ Hnd Hy Hsz). lia.
    + intros Hidle.
      assert (y ≠ sz) as Hysz.
      { intros ->. by specialize (Hidle n head ltac:(lia) Hhead Hsz). }
      destruct (Hothers1 y Hysz) as [Hcnt Hfind].
      destruct Hkept as [Heq Hfind'].
      { intros k hd Hk Hhd Hy.
        destruct (decide (k = n)) as [->|Hkn]; [lia|].
        rewrite list_lookup_insert_ne in Hhd by done.
        apply (Hidle k hd); [lia|done|done]. }
      rewrite Heq, Hcnt. split; [done|]. intros H. by apply Hfind', Hfind.
Qed.

Lemma StronglySorted_lt_NoDup (v : list Z) : StronglySorted Z.lt v → NoDup v.
Proof.
  induction 1 as [|x v _ IH Hall]; constructor; [|done].
  intros Hin. eapply Forall_forall in Hall; [|exact Hin]. lia.
Qed.

(** What [transferTo] does to a source in which a class with an empty list
    has count zero (the source reached by [drained_after_reclaim] is not of
    this kind).  The source's table is sorted with one list head and one
    count per class, and the destination's table is sorted with one count
    per class.  Whenever [src.transferTo(dest)] returns, the [size_t] sum of the two
    [total_free_memory_] counters is what it was, every source list is empty
    and every source count is zero, and every class of the source that had a
    non-empty list is found in the destination (it was inserted if it was
    not there) with its count grown by the source's count. *)
Theorem transferTo_contract
    (fuel : nat) (src dest : BaseMemoryPool) (s : System)
    (src' dest' : BaseMemoryPool) (s' : System) :
  table_ok src →
  length (free_lists_ src) = length (block_sizes_ src) →
  (∀ k c, free_lists_ src !! k = Some 0 →
          free_block_counts_ src !! k = Some c → c = 0) →
  table_ok dest →
  transferTo fuel src dest s = Some (src', dest', s') →
  wrap (total_free_memory_ src' + total_free_memory_ dest')
  = wrap (total_free_memory_ src + total_free_memory_ dest) ∧
  Forall (λ head, head = 0) (free_lists_ src') ∧
  Forall (λ c, c = 0) (free_block_counts_ src') ∧
  table_ok dest' ∧
  ∀ k head total_size c,
    free_lists_ src !! k = Some head → head ≠ 0 →
    block_sizes_ src !! k = Some total_size →
    free_block_counts_ src !! k = Some c →
    findBlockSizeIndex dest' total_size ≠ -1 ∧
    class_count dest' total_size = wrap (class_count dest total_size + c).
Proof.
  intros [Hsorted Hlenc] Hlenf Hempty Hdest Hrun. unfold transferTo in Hrun.
  pose proof (transfer_loop_sum _ _ _ _ _ _ _ _ _ Hrun) as Hsum.
  pose proof (transfer_loop_source _ _ 0%nat _ _ _ _ _ _ Hrun)
    as (_ & Hlf & Hlc & _ & Hsrc).
  pose proof (transfer_loop_classes _ _ 0%nat _ _ _ _ _ _ Hdest
                (StronglySorted_lt_NoDup _ Hsorted) Hrun) as [Hok Hclasses].
  split; [done|]. split; [|split; [|split; [done|]]].
  - apply Forall_lookup_2. intros k hd' Hk.
    destruct (lookup_lt_is_Some_2 (free_lists_ src) k) as [hd Hhd].
    { apply lookup_lt_Some in Hk. lia. }
    destruct (Hsrc k hd) as [Hz _]; [apply lookup_lt_Some in Hhd; lia|done|].
    congruence.
  - apply Forall_lookup_2. intros k c' Hk.
    destruct (lookup_lt_is_Some_2 (free_lists_ src) k) as [hd Hhd].
    { apply lookup_lt_Some in Hk. lia. }
    destruct (Hsrc k hd) as (_ & Hmoved & Hkept);
      [apply lookup_lt_Some in Hhd; lia|done|].
    destruct (decide (hd = 0)) as [->|Hne].
    + rewrite (Hkept eq_refl) in Hk. by eapply Hempty.
    + rewrite (Hmoved Hne) in Hk. by injection Hk as <-.
  - intros k hd sz c Hhd Hne Hsz Hc.
    destruct (Hclasses sz) as [Hmoved _].
    apply (Hmoved k hd c); [|done..].
    apply lookup_lt_Some in Hhd. lia.
Qed.

(** * [transferTo] returns on separate, null-terminated lists *)

Lemma is_list_store_other s head l a v :
  is_list s head l → a ∉ l → is_list (store (a + 8) v s) head l.
Proof.
  induction 1 as [|b l Hb _ IH]; intros Ha; [constructor|].
  apply not_elem_of_cons in Ha as [Hne Ha].
  constructor; [done|]. rewrite load_store_ne by lia. by apply IH.
Qed.

Lemma last_block_is_list fuel s head l :
  is_list s head l → head ≠ 0 → (length l ≤ fuel)%nat →
  ∃ last, last_block fuel head s = Some last ∧ last ∈ l ∧ last ≠ 0.
Proof.
  intros Hlist. revert fuel.
  induction Hlist as [|b l Hb Hl IH]; intros fuel Hhead Hfuel; [done|].
  destruct fuel as [|fuel]; [simpl in Hfuel; lia|].
  simpl. unfold block_next. destruct (Z.eqb_spec b 0) as [|_]; [done|]. simpl.
  destruct (Z.eqb_spec (load s (b + 8)) 0) as [Hz|Hnz].
  - exists b. split; [done|]. split; [apply elem_of_cons; by left|done].
  - destruct (IH fuel Hnz) as (last & Hlast & Hin & Hne).
    { simpl in Hfuel. lia. }
    exists last. split; [done|]. split; [apply elem_of_cons; by right|done].
Qed.

Lemma addBlockSizeIfNotExist_in_range total_size p j p0 :
  length (free_lists_ p) = length (block_sizes_ p) →
  length (free_block_counts_ p) = length (block_sizes_ p) →
  addBlockSizeIfNotExist total_size p = (j, p0) →
  0 ≤ j < Z.of_nat (length (block_sizes_ p0)) ∧
  length (free_lists_ p0) = length (block_sizes_ p0) ∧
  length (free_block_counts_ p0) = length (block_sizes_ p0).
Proof.
  intros Hlf Hlc Hadd.
  pose proof (addBlockSizeIfNotExist_index total_size p) as Hidx.
  rewrite Hadd in Hidx. destruct Hidx as [_ Hj%vec_get_in_range].
  split; [done|].
  unfold addBlockSizeIfNotExist in Hadd.
  destruct (negb _); injection Hadd as <- <-; simpl;
    rewrite ?vec_insert_length; lia.
Qed.

Lemma transfer_loop_returns fuel rounds :
  ∀ n src dest s (ls : list (list Z)),
    (n + rounds = length (free_lists_ src))%nat →
    length (block_sizes_ src) = length (free_lists_ src) →
    length (free_block_counts_ src) = length (free_lists_ src) →
    length (free_lists_ dest) = length (block_sizes_ dest) →
    length (free_block_counts_ dest) = length (block_sizes_ dest) →
    (∀ k head, (n ≤ k)%nat → free_lists_ src !! k = Some head →
               ∃ l, ls !! k = Some l ∧ is_list s head l ∧ (length l ≤ fuel)%nat) →
    (∀ k k' l l' x, (n ≤ k < k')%nat → ls !! k = Some l → ls !! k' = Some l' →
                    x ∈ l → x ∉ l') →
    is_Some (transfer_loop fuel rounds (Z.of_nat n) (src, dest, s)).
Proof.
  induction rounds as [|rounds IH];
    intros n src dest s ls Hn Hls Hlc Hdf Hdc Hlists Hsep; [done|].
  cbn [transfer_loop].
  destruct (lookup_lt_is_Some_2 (free_lists_ src) n) as [head Hhead]; [lia|].
  destruct (lookup_lt_is_Some_2 (block_sizes_ src) n) as [sz Hsz]; [lia|].
  destruct (lookup_lt_is_Some_2 (free_block_counts_ src) n) as [c Hc]; [lia|].
  destruct (Hlists n head ltac:(lia) Hhead) as (l & Hl & Hlist & Hfuel).
  unfold transfer_class. rewrite !vec_get_nat, Hhead. cbn [mbind option_bind].
  replace (Z.of_nat n + 1) with (Z.of_nat (S n)).
  2: lia.
  destruct (Z.eqb_spec head 0) as [->|Hne].
  { cbn [mbind option_bind]. apply (IH _ _ _ _ ls); try done; [lia| |].
    - intros k hd Hk. apply Hlists. lia.
    - intros k k' l1 l2 x Hk. apply Hsep. lia. }
  rewrite Hsz. cbn [mbind option_bind]. rewrite find_or_add.
  destruct (addBlockSizeIfNotExist sz dest) as [j d0] eqn:Hadd.
  destruct (addBlockSizeIfNotExist_in_range sz dest j d0 Hdf Hdc Hadd)
    as (Hj & Hdf0 & Hdc0).
  destruct (Z.eqb_spec j (-1)) as [|_]; [lia|].
  destruct (last_block_is_list fuel s head l Hlist Hne Hfuel)
    as (last & -> & Hin & Hlast).
  cbn [mbind option_bind].
  unfold vec_get. destruct (Z.ltb_spec j 0) as [|_]; [lia|].
  destruct (lookup_lt_is_Some_2 (free_lists_ d0) (Z.to_nat j)) as [dh ->]; [lia|].
  destruct (lookup_lt_is_Some_2 (free_block_counts_ d0) (Z.to_nat j)) as [dc ->];
    [lia|].
  cbn [mbind option_bind]. unfold set_block_next.
  destruct (Z.eqb_spec last 0) as [|_]; [done|]. cbn [mbind option_bind].
  rewrite vec_set_in_range by lia. cbn [mbind option_bind].
  destruct (Z.ltb_spec (Z.of_nat n) 0) as [|_]; [lia|].
  rewrite Nat2Z.id, Hc. cbn [mbind option_bind].
  rewrite !vec_set_in_range by lia. cbn [mbind option_bind].
  apply (IH _ _ _ _ ls); simpl; rewrite ?length_insert, ?Nat2Z.id; try lia.
  - intros k hd Hk Hhd. rewrite list_lookup_insert_ne in Hhd by lia.
    destruct (Hlists k hd ltac:(lia) Hhd) as (l' & Hl' & Hlist' & Hfuel').
    exists l'. split; [done|]. split; [|done].
    apply is_list_store_other; [done|].
    by apply (Hsep n k l l' last).
  - intros k k' l1 l2 x Hk. apply Hsep. lia.
Qed.

(** With enough fuel for the longest source list, [transferTo] returns when
    the source lists are null-terminated and share no block. *)
Lemma transferTo_returns fuel src dest s (ls : list (list Z)) :
  length (block_sizes_ src) = length (free_lists_ src) →
  length (free_block_counts_ src) = length (free_lists_ src) →
  length (free_lists_ dest) = length (block_sizes_ dest) →
  length (free_block_counts_ dest) = length (block_sizes_ dest) →
  Forall2 (is_list s) (free_lists_ src) ls →
  Forall (λ l, (length l ≤ fuel)%nat) ls →
  NoDup (concat ls) →
  is_Some (transferTo fuel src dest s).
Proof.
  intros Hls Hlc Hdf Hdc Hlists Hfuel Hsep. unfold transferTo.
  apply (transfer_loop_returns _ _ 0%nat _ _ _ ls); try done.
  - intros k head _ Hhead.
    destruct (Forall2_lookup_l _ _ _ _ _ Hlists Hhead) as (l & Hl & Hlist).
    exists l. split; [done|]. split; [done|].
    by apply (Forall_lookup_1 _ _ _ _ Hfuel Hl).
  - intros k k' l l' x Hk Hl Hl' Hx Hx'.
    clear -Hsep Hk Hl Hl' Hx Hx'.
    revert k k' Hk Hl Hl'. induction ls as [|l0 ls IH]; intros k k' Hk Hl Hl';
      [done|].
    simpl in Hsep. apply NoDup_app in Hsep as (_ & Hdisj & Hrest).
    destruct k as [|k]; destruct k' as [|k']; try lia; simpl in *.
    + injection Hl as ->. apply (Hdisj x Hx).
      apply list_elem_of_lookup_2 in Hl'.
      apply list_elem_of_In, in_concat. exists l'.
      split; by apply list_elem_of_In.
    + apply (IH Hrest k k'); [lia|done..].
Qed.

(** * The class table never leaves the seeded ladder *)

Lemma seeded_sizes_cover_requests user_size :
  0 ≤ user_size ≤ MAX_USER_SIZE → calcAlignedTotalSize user_size ∈ seeded_sizes.
Proof.
  intros Hu.
  assert (Forall (λ u, calcAlignedTotalSize u ∈ seeded_sizes)
            (Z.of_nat <$> seq 0 2049)) as Hall
    by (apply (bool_decide_unpack _); by vm_compute).
  apply (Forall_lookup_1 _ _ (Z.to_nat user_size) _ Hall).
  rewrite list_lookup_fmap, lookup_seq_lt by (unfold MAX_USER_SIZE in Hu; lia).
  simpl. f_equal. lia.
Qed.

Lemma allocateBatch_sizes total_size index p s ok p' s' :
  allocateBatch total_size index p s = Some (ok, p', s') →
  block_sizes_ p' = block_sizes_ p.
Proof.
  unfold allocateBatch. intros H.
  repeat match type of H with
         | (if ?b then _ else _) = _ => destruct b; [by injection H as _ <- _|]
         | (let '(_, _) := ?x in _) = _ => destruct x
         end.
  apply bind_Some in H as ([fl1 s2] & _ & H).
  apply bind_Some in H as (c1 & _ & H).
  apply bind_Some in H as (counts1 & _ & H).
  by injection H as _ <- _.
Qed.

(** Every size [allocate] can ask for is a seeded class: the insertion
    branch of [allocate] is never taken on a pool built by the constructor. *)
Lemma allocate_keeps_seeded_table user_size p s r p' s' :
  0 ≤ user_size →
  block_sizes_ p = seeded_sizes →
  allocate user_size p s = Some (r, p', s') →
  block_sizes_ p' = seeded_sizes.
Proof.
  intros Hnn Hsz Hrun. unfold allocate in Hrun.
  destruct (Z.ltb_spec MAX_USER_SIZE user_size) as [|Hle];
    [by injection Hrun as _ <- _|].
  rewrite find_or_add in Hrun.
  pose proof (seeded_sizes_cover_requests user_size ltac:(lia)) as Hin.
  rewrite <- Hsz in Hin. apply list_elem_of_lookup_1 in Hin as [k Hk].
  rewrite (addBlockSizeIfNotExist_present p k) in Hrun;
    [|rewrite Hsz; apply seeded_sizes_sorted|done].
  destruct (Z.of_nat k =? -1); [by injection Hrun as _ <- _|].
  apply bind_Some in Hrun as (head & _ & Hrun).
  apply bind_Some in Hrun as ([[ok p1] s1] & Hfill & Hrun).
  assert (block_sizes_ p1 = seeded_sizes) as Hsz1.
  { destruct (head =? 0).
    - by rewrite (allocateBatch_sizes _ _ _ _ _ _ _ Hfill).
    - by injection Hfill as _ <- _. }
  destruct ok; simpl in Hrun; [|by injection Hrun as _ <- _].
  apply bind_Some in Hrun as (block & _ & Hrun).
  apply bind_Some in Hrun as (next & _ & Hrun).
  apply bind_Some in Hrun as (fl & _ & Hrun).
  apply bind_Some in Hrun as (c & _ & Hrun).
  apply bind_Some in Hrun as (counts & _ & Hrun).
  apply bind_Some in Hrun as (size & _ & Hrun).
  by injection Hrun as _ <- _.
Qed.

(** * [reclaimIdleMemory] returns on a pool whose counted classes have a list *)

Lemma seek_release_head_returns steps prev release_head s :
  release_head ≠ 0 → is_Some (seek_release_head steps prev release_head s).
Proof.
  revert prev release_head. induction steps as [|steps IH]; intros prev rh Hrh;
    [done|].
  simpl. unfold block_next. destruct (Z.eqb_spec rh 0) as [|_]; [done|]. simpl.
  destruct (Z.eqb_spec (load s (rh + 8)) 0); [done|]. by apply IH.
Qed.

Lemma reclaim_class_returns i reclaimed p s total_size c head :
  vec_get (block_sizes_ p) i = Some total_size →
  vec_get (free_block_counts_ p) i = Some c →
  vec_get (free_lists_ p) i = Some head →
  c ≤ RESERVE_BLOCK_COUNT ∨ total_size ≠ 0 ∧ head ≠ 0 →
  ∃ reclaimed' p' s',
    reclaim_class i (reclaimed, p, s) = Some (reclaimed', p', s') ∧
    ∀ k, k ≠ Z.to_nat i → free_lists_ p' !! k = free_lists_ p !! k.
Proof.
  intros Hsz Hc Hhead Hok. unfold reclaim_class. rewrite Hsz, Hc. simpl.
  destruct (Z.leb_spec c RESERVE_BLOCK_COUNT) as [|Hgt]; [by eexists _, _, _|].
  destruct Hok as [|[Hnz Hne]]; [lia|].
  destruct (Z.eqb_spec total_size 0) as [|_]; [done|].
  destruct (_ =? 0); [by eexists _, _, _|].
  destruct (_ =? 0); [by eexists _, _, _|].
  rewrite Hhead. simpl.
  match goal with
  | |- context [seek_release_head ?n 0 head s] =>
      destruct (seek_release_head_returns n 0 head s Hne) as [[prev rh] ->]
  end.
  simpl. destruct (rh =? 0); [by eexists _, _, _|].
  pose proof (vec_get_in_range _ _ _ Hhead) as Hi.
  pose proof (vec_get_in_range _ _ _ Hc) as Hi'.
  destruct (Z.eqb_spec prev 0) as [|Hprev].
  - rewrite vec_set_in_range by done. simpl.
    rewrite vec_set_in_range by done. simpl.
    eexists _, _, _. split; [done|]. simpl.
    intros k Hk. by rewrite list_lookup_insert_ne.
  - unfold set_block_next. destruct (Z.eqb_spec prev 0) as [|_]; [done|]. simpl.
    rewrite vec_set_in_range by done. simpl.
    eexists _, _, _. split; [done|]. done.
Qed.

Lemma reclaim_loop_returns rounds :
  ∀ n reclaimed p s,
    (n + rounds = length (block_sizes_ p))%nat →
    length (free_lists_ p) = length (block_sizes_ p) →
    length (free_block_counts_ p) = length (block_sizes_ p) →
    Forall in_range (block_sizes_ p) → Forall in_range (free_block_counts_ p) →
    (∀ k total_size c head, (n ≤ k)%nat →
       block_sizes_ p !! k = Some total_size →
       free_block_counts_ p !! k = Some c →
       free_lists_ p !! k = Some head →
       c ≤ RESERVE_BLOCK_COUNT ∨ total_size ≠ 0 ∧ head ≠ 0) →
    is_Some (reclaim_loop rounds (Z.of_nat n) (reclaimed, p, s)).
Proof.
  induction rounds as [|rounds IH];
    intros n r p s Hn Hlf Hlc Hsizes Hcounts Hok; [done|].
  cbn [reclaim_loop].
  destruct (lookup_lt_is_Some_2 (block_sizes_ p) n) as [sz Hsz]; [lia|].
  destruct (lookup_lt_is_Some_2 (free_block_counts_ p) n) as [c Hc]; [lia|].
  destruct (lookup_lt_is_Some_2 (free_lists_ p) n) as [head Hhead]; [lia|].
  destruct (reclaim_class_returns (Z.of_nat n) r p s sz c head)
    as (r1 & p1 & s1 & Hstep & Hfl); rewrite ?vec_get_nat; try done.
  { by apply (Hok n). }
  rewrite Hstep. cbn [mbind option_bind].
  replace (Z.of_nat n + 1) with (Z.of_nat (S n)) by lia.
  pose proof (Forall_lookup_1 _ _ _ _ Hsizes Hsz) as Hrsz.
  pose proof (Forall_lookup_1 _ _ _ _ Hcounts Hc) as Hrc.
  pose proof (reclaim_class_effect (Z.of_nat n) r p s r1 p1 s1 sz c) as Heff.
  rewrite !vec_get_nat in Heff.
  destruct (Heff Hsz Hc Hrsz Hrc Hstep) as [Hpos Hcases]. clear Heff.
  rewrite Nat2Z.id in Hfl.
  destruct Hcases as [(_ & _ & -> & _)|(Hrc0 & _ & fl & Hlfl & ->)].
  - apply IH; try done; [lia|]. intros k sz' c' hd Hk. apply Hok. lia.
  - assert (0 < sz) as Hp.
    { destruct Hpos as [Hle|]; [|done]. unfold release_count in Hrc0.
      destruct (Z.leb_spec c RESERVE_BLOCK_COUNT); lia. }
    pose proof (release_count_spec sz c Hrc Hp) as Hspec. simpl in Hspec.
    simpl in Hfl.
    apply IH; simpl; rewrite ?length_insert; try done; try lia.
    + apply Forall_insert; [done|]. unfold in_range in *. lia.
    + intros k sz' c' hd Hk Hsz' Hc' Hhd.
      rewrite Nat2Z.id, list_lookup_insert_ne in Hc' by lia.
      rewrite Hfl in Hhd by lia. apply (Hok k); [lia|done..].
Qed.

(** [reclaimIdleMemory] returns when the three vectors run in parallel and
    every class with more than [RESERVE_BLOCK_COUNT] counted blocks has a
    non-zero size and a non-empty list. *)
Lemma reclaimIdleMemory_returns p s :
  length (free_lists_ p) = length (block_sizes_ p) →
  length (free_block_counts_ p) = length (block_sizes_ p) →
  Forall in_range (block_sizes_ p) → Forall in_range (free_block_counts_ p) →
  (∀ k total_size c head,
     block_sizes_ p !! k = Some total_size →
     free_block_counts_ p !! k = Some c →
     free_lists_ p !! k = Some head →
     c ≤ RESERVE_BLOCK_COUNT ∨ total_size ≠ 0 ∧ head ≠ 0) →
  is_Some (reclaimIdleMemory p s).
Proof.
  intros Hlf Hlc Hsizes Hcounts Hok. unfold reclaimIdleMemory.
  apply (reclaim_loop_returns _ 0%nat); try done.
  intros k sz c hd _. apply Hok.
Qed.

(** * [allocate] keeps the counters in step while headers are intact *)

Lemma allocateBatch_inv total_size index p s p' s' :
  allocateBatch total_size index p s = Some (true, p', s') →
  ∃ fl c,
    vec_get (free_block_counts_ p) index = Some c ∧
    p' = {| block_sizes_ := block_sizes_ p;
            free_lists_ := fl;
            free_block_counts_ :=
              <[Z.to_nat index := wrap (c + PAGE_SIZE / total_size)]>
                (free_block_counts_ p);
            allocate_count_ := allocate_count_ p;
            deallocate_count_ := deallocate_count_ p;
            total_free_memory_ :=
              wrap (total_free_memory_ p
                    + wrap (total_size * (PAGE_SIZE / total_size)));
            total_allocated_memory_ := wrap (total_allocated_memory_ p + PAGE_SIZE) |}.
Proof.
  unfold allocateBatch. intros H.
  repeat match type of H with
         | (if ?b then _ else _) = _ => destruct b; [done|]
         | (let '(_, _) := ?x in _) = _ => destruct x
         end.
  apply bind_Some in H as ([fl s2] & _ & H).
  apply bind_Some in H as (c & Hc & H).
  apply bind_Some in H as (counts & Hcounts & H).
  apply vec_set_Some in Hcounts as [_ ->].
  injection H as <- <-. by exists fl, c.
Qed.

(** A successful [allocate] on a pool whose counters are in step leaves them
    in step, provided the header of the block it hands out still holds the
    size of its class: that word is what [allocate] subtracts. *)
Lemma allocate_accounted user_size p s r p' s' :
  0 ≤ user_size → accounted p →
  allocate user_size p s = Some (r, p', s') → r ≠ 0 →
  load s' (r - FREE_BLOCK_HEADER_SIZE) = calcAlignedTotalSize user_size →
  accounted p'.
Proof.
  intros Hnn Hacc Hrun Hr Hheader. unfold allocate in Hrun.
  destruct (Z.ltb_spec MAX_USER_SIZE user_size) as [|Hle];
    [by injection Hrun as <-|].
  rewrite find_or_add in Hrun.
  pose proof (seeded_sizes_cover_requests user_size ltac:(lia)) as Hin.
  rewrite <- (accounted_sizes _ Hacc) in Hin.
  apply list_elem_of_lookup_1 in Hin as [k Hk].
  rewrite (addBlockSizeIfNotExist_present p k) in Hrun;
    [|rewrite (accounted_sizes _ Hacc); apply seeded_sizes_sorted|done].
  destruct (Z.of_nat k =? -1); [by injection Hrun as <-|].
  apply bind_Some in Hrun as (head & _ & Hrun).
  apply bind_Some in Hrun as ([[ok p1] s1] & Hfill & Hrun).
  destruct ok; simpl in Hrun; [|by injection Hrun as <-].
  assert (accounted p1 ∧ block_sizes_ p1 = block_sizes_ p) as [Hacc1 Hsz1].
  { destruct (head =? 0).
    - apply allocateBatch_inv in Hfill as (fl & c & Hc & ->).
      split; [|done]. apply accounted_add_blocks; [done| |done].
      by rewrite vec_get_nat.
    - by injection Hfill as <- <-. }
  apply bind_Some in Hrun as (block & _ & Hrun).
  apply bind_Some in Hrun as (next & _ & Hrun).
  apply bind_Some in Hrun as (fl & _ & Hrun).
  apply bind_Some in Hrun as (c & Hc & Hrun).
  apply bind_Some in Hrun as (counts & Hcounts & Hrun).
  apply bind_Some in Hrun as (size & Hsize & Hrun).
  apply vec_set_Some in Hcounts as [_ ->].
  injection Hrun as <- <- <-.
  unfold block_size in Hsize. destruct (block =? 0); [done|].
  injection Hsize as <-.
  replace (block + FREE_BLOCK_HEADER_SIZE - FREE_BLOCK_HEADER_SIZE) with block
    in Hheader by lia.
  rewrite Hheader.
  rewrite vec_get_nat in Hc. rewrite Nat2Z.id. rewrite <- Hsz1 in Hk.
  destruct Hacc1 as [H1 H2 H3 H4].
  split; simpl.
  - done.
  - by rewrite length_insert.
  - apply Forall_insert; [done|apply in_range_wrap].
  - rewrite (class_bytes_insert _ _ _ (calcAlignedTotalSize user_size) c) by done.
    rewrite H4, wrap_sub_l.
    replace (c - 1) with (c + -1) by lia. rewrite wrap_class_update.
    f_equal. lia.
Qed.

(** * The theorems at concrete inputs *)

Lemma allocate_contract_witness :
  allocate 4096 new_BaseMemoryPool one_page = Some (0, new_BaseMemoryPool, one_page) ∧
  ∃ p' s' p1 index next size c,
    allocate 64 new_BaseMemoryPool one_page
    = Some (65536 + FREE_BLOCK_HEADER_SIZE, p', s') ∧
    p' = popped index next size c p1.
Proof.
  destruct (allocate_contract 4096 new_BaseMemoryPool one_page) as (Hbig & _ & _).
  split; [apply Hbig; by vm_compute|].
  destruct (allocate_refills 64 80 new_BaseMemoryPool one_page 65536 [] 7 0)
    as (s' & Hrun & _);
    [by vm_compute|by vm_compute|by vm_compute|lia|by vm_compute|by vm_compute
    |by vm_compute|by vm_compute|reflexivity|lia|].
  destruct (allocate_contract 64 new_BaseMemoryPool one_page) as (_ & _ & Hpop).
  destruct (Hpop _ _ _ Hrun ltac:(by vm_compute))
    as (p1 & block & next & size & c & _ & _ & _ & _ & _ & _ & _ & _ & Hp').
  eexists _, s', p1, _, next, size, c. split; [exact Hrun|exact Hp'].
Defined.

Lemma deallocate_contract_witness :
  deallocate 0 new_BaseMemoryPool header_80 = Some (new_BaseMemoryPool, header_80) ∧
  deallocate 116 new_BaseMemoryPool one_page
  = Some (new_BaseMemoryPool, free 116 one_page) ∧
  deallocate 116 new_BaseMemoryPool header_80
  = Some (pushed (findBlockSizeIndex new_BaseMemoryPool 80)
            (116 - FREE_BLOCK_HEADER_SIZE) 80 0 new_BaseMemoryPool,
          store (116 - FREE_BLOCK_HEADER_SIZE + 8) 0 header_80).
Proof.
  split; [|split].
  - destruct (deallocate_contract 0 new_BaseMemoryPool header_80) as [Hnull _].
    exact (Hnull eq_refl).
  - destruct (deallocate_contract 116 new_BaseMemoryPool one_page) as [_ Hcases].
    destruct (Hcases 0 ltac:(lia) ltac:(by vm_compute)) as [Hforeign _].
    destruct (Hforeign (or_introl eq_refl)) as [Hrun _]. exact Hrun.
  - destruct (deallocate_contract 116 new_BaseMemoryPool header_80) as [_ Hcases].
    destruct (Hcases 80 ltac:(lia) ltac:(by vm_compute)) as [_ Hpush].
    apply (Hpush 0 0); [lia|by vm_compute|by vm_compute|by vm_compute|by vm_compute].
Defined.

Lemma facade_deallocate_witness :
  ∃ m', MemoryManager.deallocate 116 facade_state = Some m' ∧
        MemoryManager.global_pool m' = GlobalMemoryPool.instance.
Proof.
  destruct (MemoryManager.deallocate 116 facade_state) as [m'|] eqn:Hrun.
  - exists m'. split; [reflexivity|].
    destruct (facade_deallocate_leaves_global_pool 116 facade_state m' Hrun)
      as [Hglobal _].
    exact Hglobal.
  - vm_compute in Hrun. discriminate Hrun.
Defined.

Lemma allocate_15_witness :
  calcAlignedTotalSize 15 = 32 ∧
  findBlockSizeIndex new_BaseMemoryPool 32 = 1 ∧
  ∃ p1 s1, allocate 15 new_BaseMemoryPool one_page
           = Some (65536 + FREE_BLOCK_HEADER_SIZE, p1, s1) ∧
           block_sizes_ p1 = block_sizes_ new_BaseMemoryPool.
Proof.
  destruct (allocate_15_uses_seeded_class one_page 65536 [] eq_refl ltac:(lia))
    as (_ & Htotal & Hfind & p1 & s1 & _ & _ & Halloc & Hsizes & _).
  split; [exact Htotal|]. split; [exact Hfind|].
  exists p1, s1. split; [exact Halloc|exact Hsizes].
Defined.

Lemma local_allocate_64_witness :
  ∃ l1 s1 l2 s2,
    ThreadLocalMemoryPool.allocate 64 ThreadLocalMemoryPool.new one_page
    = Some (65536 + FREE_BLOCK_HEADER_SIZE, l1, s1) ∧
    ThreadLocalMemoryPool.deallocate (65536 + FREE_BLOCK_HEADER_SIZE) l1 s1
    = Some (l2, s2) ∧
    total_used_memory (ThreadLocalMemoryPool.getLocalStats l2) = 16.
Proof.
  destruct (local_allocate_64_roundtrip one_page 65536 [] eq_refl ltac:(lia)
              ltac:(by vm_compute))
    as (l1 & s1 & l2 & s2 & Halloc & _ & _ & _ & Hfree & Hstats).
  exists l1, s1, l2, s2. split; [exact Halloc|]. split; [exact Hfree|].
  rewrite Hstats. reflexivity.
Defined.

(** A property checked by evaluation on the result of a run holds of that
    result. *)
Lemma checked_on_run {A} (run : option A) (check : A → bool) (a : A) :
  run ≫= (λ a, Some (check a)) = Some true → run = Some a → check a = true.
Proof. intros Hcheck Hrun. rewrite Hrun in Hcheck. by injection Hcheck. Qed.

(** [check_on run check Hrun H]: evaluate the decidable property [check] on
    the result of [run], known by [Hrun] to be some value, and name it [H]. *)
Ltac check_on run check Hrun H :=
  assert (run ≫= (λ a, Some (bool_decide (check a))) = Some true) as H
    by (vm_compute; reflexivity);
  eapply (checked_on_run run (λ a, bool_decide (check a))) in H; [|exact Hrun];
  apply bool_decide_eq_true in H; cbn beta iota in H.

Lemma reclaim_twice_witness :
  ∃ p s reclaimed p1 s1,
    five_free = Some (p, s) ∧
    reclaimIdleMemory p s = Some (reclaimed, p1, s1) ∧
    reclaimIdleMemory p1 s1 = Some (0, p1, s1).
Proof.
  destruct five_free as [[p s]|] eqn:Hfive;
    [|vm_compute in Hfive; discriminate Hfive].
  check_on five_free (λ '((p, s) : BaseMemoryPool * System), is_Some (reclaimIdleMemory p s)) Hfive Hsome.
  check_on five_free
    (λ '((p, s) : BaseMemoryPool * System), length (free_block_counts_ p) = length (block_sizes_ p))
    Hfive Hlen.
  check_on five_free (λ '((p, s) : BaseMemoryPool * System), Forall in_range (block_sizes_ p)) Hfive Hsizes.
  check_on five_free (λ '((p, s) : BaseMemoryPool * System), Forall in_range (free_block_counts_ p))
    Hfive Hcounts.
  check_on five_free (λ '((p, s) : BaseMemoryPool * System), in_range (total_free_memory_ p)) Hfive Hfree.
  destruct (reclaimIdleMemory p s) as [[[reclaimed p1] s1]|] eqn:Hrun;
    [|by destruct Hsome].
  exists p, s, reclaimed, p1, s1. split; [reflexivity|]. split; [exact Hrun|].
  exact (proj1 (reclaim_twice_releases_nothing p s reclaimed p1 s1
                  Hlen Hsizes Hcounts Hfree Hrun)).
Defined.

Lemma global_pool_bound_witness :
  ∃ g' s' src s0 src' g'' s'',
    GlobalMemoryPool.deallocate 116 GlobalMemoryPool.instance header_80
    = Some (g', s') ∧
    total_free_memory (GlobalMemoryPool.getGlobalStats g') ≤ MAX_GLOBAL_FREE_MEMORY ∧
    donor = Some (src, s0) ∧
    GlobalMemoryPool.transferFrom 64 src GlobalMemoryPool.instance s0
    = Some (src', g'', s'') ∧
    total_free_memory (GlobalMemoryPool.getGlobalStats g'') ≤ MAX_GLOBAL_FREE_MEMORY.
Proof.
  assert (accounted (GlobalMemoryPool.pool_ GlobalMemoryPool.instance)) as Hacc.
  { split.
    - by vm_compute.
    - by vm_compute.
    - apply (bool_decide_unpack _). by vm_compute.
    - by vm_compute. }
  destruct (GlobalMemoryPool.deallocate 116 GlobalMemoryPool.instance header_80)
    as [[g' s']|] eqn:Hfree; [|vm_compute in Hfree; discriminate Hfree].
  destruct donor as [[src s0]|] eqn:Hdonor;
    [|vm_compute in Hdonor; discriminate Hdonor].
  check_on donor
    (λ '((p, s) : BaseMemoryPool * System), is_Some (GlobalMemoryPool.transferFrom 64 p
                           GlobalMemoryPool.instance s))
    Hdonor Hsome.
  check_on donor (λ '((p, s) : BaseMemoryPool * System), block_sizes_ p = seeded_sizes) Hdonor Hsizes.
  destruct (GlobalMemoryPool.transferFrom 64 src GlobalMemoryPool.instance s0)
    as [[[src' g''] s'']|] eqn:Hmove; [|by destruct Hsome].
  exists g', s', src, s0, src', g'', s''.
  split; [reflexivity|].
  split.
  { exact (proj2 (proj1 (global_pool_free_memory_bounded
                           GlobalMemoryPool.instance header_80 Hacc)
                    116 g' s' Hfree)). }
  split; [reflexivity|]. split; [exact Hmove|].
  exact (proj2 (proj2 (global_pool_free_memory_bounded
                         GlobalMemoryPool.instance s0 Hacc)
                  64%nat src src' g'' s'' Hsizes Hmove)).
Defined.

Lemma transferTo_contract_witness :
  ∃ src s src' dest' s',
    donor = Some (src, s) ∧
    transferTo 64 src new_BaseMemoryPool s = Some (src', dest', s') ∧
    Forall (λ head, head = 0) (free_lists_ src') ∧
    Forall (λ c, c = 0) (free_block_counts_ src') ∧
    findBlockSizeIndex dest' 80 ≠ -1 ∧
    class_count dest' 80 = wrap (class_count new_BaseMemoryPool 80 + 51).
Proof.
  destruct donor as [[src s]|] eqn:Hdonor;
    [|vm_compute in Hdonor; discriminate Hdonor].
  check_on donor (λ '((p, s) : BaseMemoryPool * System), is_Some (transferTo 64 p new_BaseMemoryPool s))
    Hdonor Hsome.
  check_on donor (λ '((p, s) : BaseMemoryPool * System), StronglySorted Z.lt (block_sizes_ p)) Hdonor Hsorted.
  check_on donor
    (λ '((p, s) : BaseMemoryPool * System), length (free_block_counts_ p) = length (block_sizes_ p))
    Hdonor Hlenc.
  check_on donor (λ '((p, s) : BaseMemoryPool * System), length (free_lists_ p) = length (block_sizes_ p))
    Hdonor Hlenf.
  check_on donor
    (λ '((p, s) : BaseMemoryPool * System), Forall2 (λ head c, head = 0 → c = 0)
                  (free_lists_ p) (free_block_counts_ p))
    Hdonor Hempty.
  check_on donor (λ '((p, s) : BaseMemoryPool * System), free_lists_ p !! 7%nat = Some 65536) Hdonor Hhead.
  check_on donor (λ '((p, s) : BaseMemoryPool * System), block_sizes_ p !! 7%nat = Some 80) Hdonor Hsize.
  check_on donor (λ '((p, s) : BaseMemoryPool * System), free_block_counts_ p !! 7%nat = Some 51) Hdonor Hcount.
  assert (table_ok new_BaseMemoryPool) as Hdest.
  { split; [apply (bool_decide_unpack _); by vm_compute|by vm_compute]. }
  destruct (transferTo 64 src new_BaseMemoryPool s)
    as [[[src' dest'] s']|] eqn:Hmove; [|by destruct Hsome].
  exists src, s, src', dest', s'. split; [reflexivity|]. split; [exact Hmove|].
  destruct (transferTo_contract 64 src new_BaseMemoryPool s src' dest' s'
              (conj Hsorted Hlenc) Hlenf
              (λ k c Hk Hc, Forall2_lookup_lr _ _ _ _ _ _ Hempty Hk Hc eq_refl)
              Hdest Hmove)
    as (_ & Hlists & Hcounts & _ & Hclasses).
  split; [exact Hlists|]. split; [exact Hcounts|].
  apply (Hclasses 7%nat 65536 80 51 Hhead ltac:(lia) Hsize Hcount).
Defined.

(** * Further properties: alignment and class totals *)

Lemma wrap_land_ones z : wrap z = Z.land z (Z.ones 64).
Proof. unfold wrap, SIZE_MODULUS. by rewrite Z.land_ones. Qed.

Lemma land_wrap_r x y : 0 ≤ x < SIZE_MODULUS → Z.land x (wrap y) = Z.land x y.
Proof.
  intros Hx. rewrite (wrap_land_ones y), (Z.land_comm y), Z.land_assoc.
  by rewrite <- wrap_land_ones, wrap_small.
Qed.

Lemma pow2_in_range k : 0 ≤ k < 64 → 0 < 2 ^ k < SIZE_MODULUS.
Proof.
  intros Hk. unfold SIZE_MODULUS. split; [apply Z.pow_pos_nonneg; lia|].
  apply Z.pow_lt_mono_r; lia.
Qed.

Lemma alignUp_pow2 value k :
  0 ≤ k < 64 →
  alignUp value (2 ^ k) = wrap (value + 2 ^ k - 1) / 2 ^ k * 2 ^ k.
Proof.
  intros Hk. pose proof (pow2_in_range k Hk) as Hp. unfold alignUp.
  rewrite land_wrap_r by apply wrap_range.
  rewrite (wrap_small (2 ^ k - 1)) by lia.
  replace (2 ^ k - 1) with (Z.ones k) by (rewrite Z.ones_equiv; lia).
  rewrite <- Z.ldiff_land, Z.ldiff_ones_r by lia.
  by rewrite Z.shiftl_mul_pow2, Z.shiftr_div_pow2 by lia.
Qed.

(** X1. [alignUp] with a power-of-two step [2^k] passes its assertion and
    returns a multiple of the step.  When [value + 2^k] does not overflow
    [size_t] the result is the least multiple of the step that is at least
    [value] (and [value] itself when it is aligned); when it overflows, the
    result wraps around to [0]. *)
Theorem alignUp_rounds_up (value k : Z) :
  0 ≤ k < 64 → 0 ≤ value < SIZE_MODULUS →
  alignUp_assert (2 ^ k) = true ∧
  alignUp value (2 ^ k) mod 2 ^ k = 0 ∧
  (value + 2 ^ k ≤ SIZE_MODULUS →
   value ≤ alignUp value (2 ^ k) < value + 2 ^ k ∧
   (value mod 2 ^ k = 0 → alignUp value (2 ^ k) = value)) ∧
  (SIZE_MODULUS < value + 2 ^ k → alignUp value (2 ^ k) = 0).
Proof.
  intros Hk Hv. pose proof (pow2_in_range k Hk) as Hp.
  rewrite alignUp_pow2 by done. repeat split.
  - unfold alignUp_assert. rewrite (wrap_small (2 ^ k - 1)) by lia.
    apply Z.eqb_eq.
    replace (2 ^ k - 1) with (Z.ones k) by (rewrite Z.ones_equiv; lia).
    rewrite Z.land_ones by lia.
    apply Z.mod_same. lia.
  - apply Z.mod_mul. lia.
  - rewrite wrap_small by lia.
    pose proof (Z.mod_pos_bound (value + 2 ^ k - 1) (2 ^ k) ltac:(lia)).
    pose proof (Z.div_mod (value + 2 ^ k - 1) (2 ^ k) ltac:(lia)). lia.
  - rewrite wrap_small by lia.
    pose proof (Z.mod_pos_bound (value + 2 ^ k - 1) (2 ^ k) ltac:(lia)).
    pose proof (Z.div_mod (value + 2 ^ k - 1) (2 ^ k) ltac:(lia)). lia.
  - intros Hmod. rewrite wrap_small by lia.
    apply Z.mod_divide in Hmod as [q ->]; [|lia].
    replace (q * 2 ^ k + 2 ^ k - 1) with ((2 ^ k - 1) + q * 2 ^ k) by lia.
    rewrite Z.div_add, Z.div_small by lia. lia.
  - intros Hov.
    replace (value + 2 ^ k - 1) with ((value + 2 ^ k - 1 - SIZE_MODULUS) + 1 * SIZE_MODULUS) by lia.
    rewrite wrap_add_multiple, wrap_small by lia.
    rewrite Z.div_small by lia. done.
Qed.

Lemma alignUp_rounds_up_witness :
  alignUp 31 (2 ^ 3) mod 2 ^ 3 = 0 ∧
  31 ≤ alignUp 31 (2 ^ 3) < 31 + 2 ^ 3 ∧
  alignUp (SIZE_MODULUS - 3) (2 ^ 3) = 0.
Proof.
  destruct (alignUp_rounds_up 31 3 ltac:(lia) ltac:(by vm_compute))
    as (_ & Hmod & Hfit & _).
  destruct (alignUp_rounds_up (SIZE_MODULUS - 3) 3 ltac:(lia) ltac:(by vm_compute))
    as (_ & _ & _ & Hover).
  split; [exact Hmod|split].
  - apply Hfit. by vm_compute.
  - apply Hover. by vm_compute.
Defined.

Lemma calcAlignedTotalSize_eq user_size :
  calcAlignedTotalSize user_size
  = wrap (wrap ((if user_size =? 0 then MIN_USER_SIZE else user_size)
                + FREE_BLOCK_HEADER_SIZE) + 7) / 8 * 8.
Proof.
  unfold calcAlignedTotalSize. change BLOCK_ALIGNMENT with (2 ^ 3).
  rewrite alignUp_pow2 by lia. change (2 ^ 3) with 8.
  do 3 f_equal. lia.
Qed.

(** X2. [calcAlignedTotalSize] treats [0] as [MIN_USER_SIZE] and returns a
    multiple of [BLOCK_ALIGNMENT].  Without overflow the total is the header
    plus the request, rounded up to the next multiple of 8 (a request of 0
    gives the same total as a request of 1 to 8).  For a request up to
    [MAX_USER_SIZE] it lies between the smallest class and [PAGE_SIZE].  For
    a request within 24 bytes of [2^64] the sum wraps and the total is at
    most 16. *)
Theorem calcAlignedTotalSize_bounds (user_size : Z) :
  0 ≤ user_size < SIZE_MODULUS →
  calcAlignedTotalSize 0 = calcAlignedTotalSize MIN_USER_SIZE ∧
  calcAlignedTotalSize user_size mod BLOCK_ALIGNMENT = 0 ∧
  (user_size + 24 ≤ SIZE_MODULUS →
   Z.max user_size 1 + FREE_BLOCK_HEADER_SIZE ≤ calcAlignedTotalSize user_size
   < Z.max user_size 1 + FREE_BLOCK_HEADER_SIZE + BLOCK_ALIGNMENT) ∧
  (user_size ≤ MAX_USER_SIZE →
   calcAlignedTotalSize MIN_USER_SIZE ≤ calcAlignedTotalSize user_size ≤ PAGE_SIZE) ∧
  (SIZE_MODULUS < user_size + 24 → calcAlignedTotalSize user_size ≤ 16).
Proof.
  intros Hu. split; [done|]. rewrite calcAlignedTotalSize_eq.
  change (calcAlignedTotalSize MIN_USER_SIZE) with 24.
  unfold MIN_USER_SIZE, FREE_BLOCK_HEADER_SIZE, BLOCK_ALIGNMENT, MAX_USER_SIZE, PAGE_SIZE.
  split; [apply Z.mod_mul; lia|].
  assert (Hm : SIZE_MODULUS = 18446744073709551616) by done.
  destruct (Z.eqb_spec user_size 0) as [->|Hne].
  - vm_compute. repeat split; intros; try done.
  - set (x := wrap (wrap (user_size + 16) + 7)).
    pose proof (Z.mod_pos_bound x 8 ltac:(lia)).
    pose proof (Z.div_mod x 8 ltac:(lia)).
    split; [|split].
    + intros Hfit. assert (x = user_size + 23) as Hx.
      { unfold x. rewrite wrap_add_l, wrap_small; lia. }
      lia.
    + intros Hmax. assert (x = user_size + 23) as Hx.
      { unfold x. rewrite wrap_add_l, wrap_small; lia. }
      lia.
    + intros Hover. assert (x = user_size + 23 - SIZE_MODULUS) as Hx.
      { unfold x. rewrite wrap_add_l.
        replace (user_size + 16 + 7)
          with (user_size + 23 - SIZE_MODULUS + 1 * SIZE_MODULUS) by lia.
        rewrite wrap_add_multiple, wrap_small; lia. }
      lia.
Qed.

Lemma calcAlignedTotalSize_bounds_witness :
  calcAlignedTotalSize 15 mod BLOCK_ALIGNMENT = 0 ∧
  Z.max 15 1 + FREE_BLOCK_HEADER_SIZE ≤ calcAlignedTotalSize 15
  < Z.max 15 1 + FREE_BLOCK_HEADER_SIZE + BLOCK_ALIGNMENT ∧
  calcAlignedTotalSize (SIZE_MODULUS - 20) ≤ 16.
Proof.
  destruct (calcAlignedTotalSize_bounds 15 ltac:(by vm_compute))
    as (_ & Hmod & Hfit & _).
  destruct (calcAlignedTotalSize_bounds (SIZE_MODULUS - 20) ltac:(by vm_compute))
    as (_ & _ & _ & _ & Hover).
  split; [exact Hmod|split].
  - apply Hfit. by vm_compute.
  - apply Hover. by vm_compute.
Defined.

Lemma seeded_sizes_lookup k total_size :
  seeded_sizes !! k = Some total_size ↔ (k < 256)%nat ∧ total_size = 24 + 8 * Z.of_nat k.
Proof.
  unfold seeded_sizes. rewrite list_lookup_fmap, fmap_Some. split.
  - intros (n & Hn & ->). apply lookup_seq in Hn as [-> ?]. done.
  - intros [Hk ->]. exists k. split; [|done]. by apply lookup_seq.
Qed.

(** X3. The constructor seeds exactly the classes 24, 32, ..., 2064: a
    total size is found in a fresh pool if and only if it is a multiple of
    [BLOCK_ALIGNMENT] between the totals of [MIN_USER_SIZE] and
    [MAX_USER_SIZE], at index [(total_size - 24) / 8].  Every request size up
    to [MAX_USER_SIZE] has its class from construction on, every list is
    empty and every statistic is zero. *)
Theorem new_BaseMemoryPool_classes (total_size : Z) :
  (findBlockSizeIndex new_BaseMemoryPool total_size ≠ -1 ↔
   calcAlignedTotalSize MIN_USER_SIZE ≤ total_size ≤ calcAlignedTotalSize MAX_USER_SIZE ∧
   total_size mod BLOCK_ALIGNMENT = 0) ∧
  (findBlockSizeIndex new_BaseMemoryPool total_size ≠ -1 →
   findBlockSizeIndex new_BaseMemoryPool total_size
   = (total_size - calcAlignedTotalSize MIN_USER_SIZE) / BLOCK_ALIGNMENT) ∧
  (∀ user_size, 0 ≤ user_size ≤ MAX_USER_SIZE →
     findBlockSizeIndex new_BaseMemoryPool (calcAlignedTotalSize user_size) ≠ -1) ∧
  (∀ index, 0 ≤ index < 256 →
     vec_get (free_lists_ new_BaseMemoryPool) index = Some 0 ∧
     vec_get (free_block_counts_ new_BaseMemoryPool) index = Some 0) ∧
  getStats new_BaseMemoryPool
  = {| allocate_count := 0; deallocate_count := 0; total_free_memory := 0;
       total_used_memory := 0; total_allocated_memory := 0 |}.
Proof.
  change (calcAlignedTotalSize MIN_USER_SIZE) with 24.
  change (calcAlignedTotalSize MAX_USER_SIZE) with 2064.
  change BLOCK_ALIGNMENT with 8.
  assert (Hin : ∀ t, t ∈ seeded_sizes ↔ 24 ≤ t ≤ 2064 ∧ t mod 8 = 0).
  { intros t. rewrite list_elem_of_lookup. split.
    - intros [k Hk]. apply seeded_sizes_lookup in Hk as [Hk ->]. split; [lia|].
      replace (24 + 8 * Z.of_nat k) with ((3 + Z.of_nat k) * 8) by lia.
      apply Z.mod_mul. lia.
    - intros [Ht Hmod]. exists (Z.to_nat ((t - 24) / 8)).
      apply Z.mod_divide in Hmod as [q ->]; [|lia].
      replace (q * 8 - 24) with ((q - 3) * 8) by lia. rewrite Z.div_mul by lia.
      apply seeded_sizes_lookup. lia. }
  assert (Hfind : ∀ t, findBlockSizeIndex new_BaseMemoryPool t ≠ -1 ↔ t ∈ seeded_sizes).
  { intros t. split.
    - intros Hne. apply findBlockSizeIndex_found, vec_get_Some in Hne as [_ Hne].
      rewrite new_BaseMemoryPool_sizes in Hne. by eapply list_elem_of_lookup_2.
    - intros [k Hk]%list_elem_of_lookup.
      rewrite (findBlockSizeIndex_sorted _ k);
        [lia|rewrite new_BaseMemoryPool_sizes; apply seeded_sizes_sorted
         |by rewrite new_BaseMemoryPool_sizes]. }
  split; [|split; [|split; [|split]]].
  - by rewrite Hfind, Hin.
  - intros [k Hk]%Hfind%list_elem_of_lookup.
    rewrite (findBlockSizeIndex_sorted _ k);
      [|rewrite new_BaseMemoryPool_sizes; apply seeded_sizes_sorted
       |by rewrite new_BaseMemoryPool_sizes].
    apply seeded_sizes_lookup in Hk as [_ ->].
    replace (24 + 8 * Z.of_nat k - 24) with (Z.of_nat k * 8) by lia.
    by rewrite Z.div_mul by lia.
  - intros user_size Hu. apply Hfind. by apply seeded_sizes_cover_requests.
  - intros index Hi. rewrite new_BaseMemoryPool_lists, new_BaseMemoryPool_counts.
    replace index with (Z.of_nat (Z.to_nat index)) by lia.
    rewrite !vec_get_nat. rewrite !lookup_replicate_2 by lia. done.
  - by vm_compute.
Qed.

Lemma new_BaseMemoryPool_classes_witness :
  findBlockSizeIndex new_BaseMemoryPool 80
  = (80 - calcAlignedTotalSize MIN_USER_SIZE) / BLOCK_ALIGNMENT ∧
  findBlockSizeIndex new_BaseMemoryPool (calcAlignedTotalSize 2048) ≠ -1 ∧
  vec_get (free_lists_ new_BaseMemoryPool) 255 = Some 0.
Proof.
  destruct (new_BaseMemoryPool_classes 80) as (Hiff & Hidx & Hreq & Hempty & _).
  split; [|split].
  - apply Hidx, Hiff. clear. split; [by vm_compute|reflexivity].
  - apply Hreq. unfold MAX_USER_SIZE. lia.
  - exact (proj1 (Hempty 255 ltac:(lia))).
Defined.

(** * Further properties: the class table *)

(** X4. On a strictly sorted class table [findBlockSizeIndex] returns [-1]
    exactly when the size is not in the table, and otherwise the one index
    at which the table holds it; the result is always [-1] or a valid
    index. *)
Theorem findBlockSizeIndex_search (p : BaseMemoryPool) (total_size : Z) :
  StronglySorted Z.lt (block_sizes_ p) →
  (findBlockSizeIndex p total_size = -1 ↔ total_size ∉ block_sizes_ p) ∧
  (∀ k : nat, findBlockSizeIndex p total_size = Z.of_nat k ↔
              block_sizes_ p !! k = Some total_size) ∧
  -1 ≤ findBlockSizeIndex p total_size < Z.of_nat (length (block_sizes_ p)).
Proof.
  intros Hsorted. split; [|split].
  - split.
    + intros Hnone [k Hk]%list_elem_of_lookup.
      rewrite (findBlockSizeIndex_sorted p k) in Hnone by done. lia.
    + apply findBlockSizeIndex_absent.
  - intros k. split.
    + intros Hk. rewrite <- vec_get_nat, <- Hk.
      apply findBlockSizeIndex_found. lia.
    + by apply findBlockSizeIndex_sorted.
  - destruct (findBlockSizeIndex_range p total_size); lia.
Qed.

Lemma findBlockSizeIndex_search_witness :
  findBlockSizeIndex new_BaseMemoryPool 2064 = Z.of_nat 255 ∧
  findBlockSizeIndex new_BaseMemoryPool 2072 = -1.
Proof.
  assert (Hsorted : StronglySorted Z.lt (block_sizes_ new_BaseMemoryPool)).
  { rewrite new_BaseMemoryPool_sizes. apply seeded_sizes_sorted. }
  split.
  - apply (findBlockSizeIndex_search new_BaseMemoryPool 2064 Hsorted). by vm_compute.
  - apply (findBlockSizeIndex_search new_BaseMemoryPool 2072 Hsorted).
    rewrite new_BaseMemoryPool_sizes. apply (bool_decide_unpack _). by vm_compute.
Defined.

Lemma addBlockSizeIfNotExist_absent total_size p :
  total_size ∉ block_sizes_ p →
  addBlockSizeIfNotExist total_size p
  = (Z.of_nat (lower_bound (block_sizes_ p) total_size),
     {| block_sizes_ :=
          vec_insert (block_sizes_ p) (lower_bound (block_sizes_ p) total_size) total_size;
        free_lists_ :=
          vec_insert (free_lists_ p) (lower_bound (block_sizes_ p) total_size) 0;
        free_block_counts_ :=
          vec_insert (free_block_counts_ p) (lower_bound (block_sizes_ p) total_size) 0;
        allocate_count_ := allocate_count_ p;
        deallocate_count_ := deallocate_count_ p;
        total_free_memory_ := total_free_memory_ p;
        total_allocated_memory_ := total_allocated_memory_ p |}).
Proof.
  intros Habsent. unfold addBlockSizeIfNotExist.
  by rewrite findBlockSizeIndex_absent.
Qed.

(** X5. [addBlockSizeIfNotExist] keeps the class table strictly sorted and
    the three vectors of the pool of equal length.  The index it returns is
    valid and is the one [findBlockSizeIndex] finds afterwards; calling it
    again changes nothing.  A size already present leaves the pool as it
    was; a new size adds one class, with an empty list and a count of
    zero. *)
Theorem addBlockSizeIfNotExist_keeps_table
    (total_size : Z) (p : BaseMemoryPool) (index : Z) (p' : BaseMemoryPool) :
  StronglySorted Z.lt (block_sizes_ p) →
  length (free_lists_ p) = length (block_sizes_ p) →
  length (free_block_counts_ p) = length (block_sizes_ p) →
  addBlockSizeIfNotExist total_size p = (index, p') →
  StronglySorted Z.lt (block_sizes_ p') ∧
  length (free_lists_ p') = length (block_sizes_ p') ∧
  length (free_block_counts_ p') = length (block_sizes_ p') ∧
  0 ≤ index < Z.of_nat (length (block_sizes_ p')) ∧
  findBlockSizeIndex p' total_size = index ∧
  addBlockSizeIfNotExist total_size p' = (index, p') ∧
  (total_size ∈ block_sizes_ p → p' = p) ∧
  (total_size ∉ block_sizes_ p →
   length (block_sizes_ p') = S (length (block_sizes_ p)) ∧
   vec_get (free_lists_ p') index = Some 0 ∧
   vec_get (free_block_counts_ p') index = Some 0).
Proof.
  intros Hsorted Hfl Hcounts Hadd.
  destruct (decide (total_size ∈ block_sizes_ p)) as [Hin|Hout].
  - destruct (proj1 (list_elem_of_lookup _ _) Hin) as [k Hk].
    rewrite (addBlockSizeIfNotExist_present p k) in Hadd by done.
    injection Hadd as <- <-.
    pose proof (lookup_lt_Some _ _ _ Hk).
    repeat split; try done; try lia.
    + by apply findBlockSizeIndex_sorted.
    + by apply addBlockSizeIfNotExist_present.
  - rewrite addBlockSizeIfNotExist_absent in Hadd by done.
    injection Hadd as <- <-. simpl.
    pose proof (lower_bound_le (block_sizes_ p) total_size) as Hle.
    assert (Hsorted' : StronglySorted Z.lt
              (vec_insert (block_sizes_ p) (lower_bound (block_sizes_ p) total_size)
                 total_size)) by by apply lower_bound_insert_sorted.
    assert (Hnew : vec_insert (block_sizes_ p) (lower_bound (block_sizes_ p) total_size)
                     total_size !! lower_bound (block_sizes_ p) total_size
                   = Some total_size) by by apply vec_insert_lookup_new.
    rewrite !vec_insert_length.
    repeat split; try done; try lia.
    + by apply findBlockSizeIndex_sorted.
    + by apply addBlockSizeIfNotExist_present.
    + rewrite vec_get_nat. apply vec_insert_lookup_new. lia.
    + rewrite vec_get_nat. apply vec_insert_lookup_new. lia.
Qed.

(** X6. [addBlockSizeIfNotExist] changes no statistic and loses no class:
    every size the table held is still found afterwards, and the list head
    and the free count found at its (possibly shifted) index are the ones it
    had before. *)
Theorem addBlockSizeIfNotExist_keeps_classes
    (total_size : Z) (p : BaseMemoryPool) (index : Z) (p' : BaseMemoryPool) :
  StronglySorted Z.lt (block_sizes_ p) →
  addBlockSizeIfNotExist total_size p = (index, p') →
  getStats p' = getStats p ∧
  ∀ (k : nat) y head c,
    block_sizes_ p !! k = Some y →
    free_lists_ p !! k = Some head →
    free_block_counts_ p !! k = Some c →
    findBlockSizeIndex p' y ≠ -1 ∧
    vec_get (block_sizes_ p') (findBlockSizeIndex p' y) = Some y ∧
    vec_get (free_lists_ p') (findBlockSizeIndex p' y) = Some head ∧
    vec_get (free_block_counts_ p') (findBlockSizeIndex p' y) = Some c.
Proof.
  intros Hsorted Hadd.
  destruct (decide (total_size ∈ block_sizes_ p)) as [Hin|Hout].
  - destruct (proj1 (list_elem_of_lookup _ _) Hin) as [k Hk].
    rewrite (addBlockSizeIfNotExist_present p k) in Hadd by done.
    injection Hadd as <- <-. split; [done|].
    intros k' y head c Hy Hhead Hc.
    rewrite (findBlockSizeIndex_sorted p k') by done.
    rewrite !vec_get_nat. split; [lia|done].
  - rewrite addBlockSizeIfNotExist_absent in Hadd by done.
    injection Hadd as <- <-. split; [done|].
    intros k y head c Hy Hhead Hc.
    set (it := lower_bound (block_sizes_ p) total_size).
    set (p' := {| block_sizes_ := vec_insert (block_sizes_ p) it total_size |}).
    assert (Hfind : findBlockSizeIndex p' y
                    = Z.of_nat (if decide (k < it)%nat then k else S k)).
    { apply findBlockSizeIndex_sorted; simpl.
      - by apply lower_bound_insert_sorted.
      - by apply vec_insert_lookup_old. }
    rewrite Hfind, !vec_get_nat. simpl.
    split; [lia|]. split; [|split]; by apply vec_insert_lookup_old.
Qed.

Lemma two_classes_sorted : StronglySorted Z.lt (block_sizes_ two_classes).
Proof. repeat constructor. Qed.

Lemma addBlockSizeIfNotExist_keeps_table_witness :
  ∃ p', addBlockSizeIfNotExist 48 two_classes = (1, p') ∧
        findBlockSizeIndex p' 48 = 1 ∧
        addBlockSizeIfNotExist 48 p' = (1, p') ∧
        vec_get (free_lists_ p') 1 = Some 0.
Proof.
  destruct (addBlockSizeIfNotExist 48 two_classes) as [index p'] eqn:Hadd.
  assert (index = 1) as -> by (by injection Hadd as <- _).
  destruct (addBlockSizeIfNotExist_keeps_table 48 two_classes 1 p'
              two_classes_sorted eq_refl eq_refl Hadd)
    as (_ & _ & _ & _ & Hfind & Hagain & _ & Hnew).
  exists p'. repeat split; [exact Hfind|exact Hagain|].
  apply Hnew. apply (bool_decide_unpack _). by vm_compute.
Defined.

Lemma addBlockSizeIfNotExist_keeps_classes_witness :
  ∃ p', addBlockSizeIfNotExist 24 two_classes = (0, p') ∧
        findBlockSizeIndex p' 32 ≠ -1 ∧
        vec_get (free_lists_ p') (findBlockSizeIndex p' 32) = Some 8192 ∧
        vec_get (free_block_counts_ p') (findBlockSizeIndex p' 32) = Some 2.
Proof.
  destruct (addBlockSizeIfNotExist 24 two_classes) as [index p'] eqn:Hadd.
  assert (index = 0) as -> by (by injection Hadd as <- _).
  destruct (addBlockSizeIfNotExist_keeps_classes 24 two_classes 0 p'
              two_classes_sorted Hadd) as [_ Hkeep].
  destruct (Hkeep 0%nat 32 8192 2 eq_refl eq_refl eq_refl) as (Hne & _ & Hhead & Hc).
  exists p'. done.
Defined.

(** * Further properties: [allocate] and [deallocate] on one class *)

Lemma calcAlignedTotalSize_request user_size :
  0 ≤ user_size ≤ MAX_USER_SIZE →
  calcAlignedTotalSize MIN_USER_SIZE ≤ calcAlignedTotalSize user_size ≤ PAGE_SIZE.
Proof.
  intros Hu. pose proof (seeded_sizes_cover_requests user_size Hu) as Hin.
  apply list_elem_of_lookup in Hin as [k Hk].
  apply seeded_sizes_lookup in Hk as [Hk ->].
  change (calcAlignedTotalSize MIN_USER_SIZE) with 24. unfold PAGE_SIZE. lia.
Qed.

(** [allocate] on a class whose list is not empty. *)
Lemma allocate_nonempty user_size total_size p s index block c :
  user_size ≤ MAX_USER_SIZE →
  calcAlignedTotalSize user_size = total_size →
  findBlockSizeIndex p total_size = index → index ≠ -1 →
  vec_get (free_lists_ p) index = Some block → block ≠ 0 →
  vec_get (free_block_counts_ p) index = Some c →
  allocate user_size p s
  = Some (block + FREE_BLOCK_HEADER_SIZE,
          popped index (load s (block + 8)) (load s block) c p, s).
Proof.
  intros Hmax Htotal Hfind Hidx Hhead Hblock Hc. unfold allocate.
  destruct (Z.ltb_spec MAX_USER_SIZE user_size) as [|_]; [lia|].
  rewrite Htotal, Hfind.
  destruct (Z.eqb_spec index (-1)) as [|_]; [done|].
  destruct (Z.eqb_spec index (-1)) as [|_]; [done|].
  rewrite Hhead. simpl.
  destruct (Z.eqb_spec block 0) as [|_]; [done|]. simpl.
  rewrite Hhead. simpl. unfold block_next, block_size.
  destruct (Z.eqb_spec block 0) as [|_]; [done|]. simpl.
  rewrite vec_set_in_range by (by eapply vec_get_in_range). simpl.
  rewrite Hc. simpl.
  by rewrite vec_set_in_range by (by eapply vec_get_in_range).
Qed.

(** [allocateBatch] when [malloc] returns [nullptr]. *)
Lemma allocateBatch_without_page total_size index p s :
  0 ≤ index < Z.of_nat (length (block_sizes_ p)) →
  0 < total_size ≤ PAGE_SIZE →
  (malloc s).1 = 0 →
  allocateBatch total_size index p s = Some (false, p, (malloc s).2).
Proof.
  intros Hidx Hts Hnull. unfold allocateBatch.
  destruct (Z.ltb_spec index 0) as [|_]; [lia|].
  destruct (Z.leb_spec (Z.of_nat (length (block_sizes_ p))) index) as [|_]; [lia|].
  destruct (Z.eqb_spec total_size 0) as [|_]; [lia|].
  destruct (Z.ltb_spec PAGE_SIZE total_size) as [|_]; [lia|].
  simpl.
  assert (1 ≤ PAGE_SIZE / total_size) by (apply Z.div_le_lower_bound; lia).
  destruct (Z.eqb_spec (PAGE_SIZE / total_size) 0) as [|_]; [lia|].
  destruct (malloc s) as [page s1]. simpl in *. by subst page.
Qed.

(** [allocate] on a class whose list is empty and cannot be refilled. *)
Lemma allocate_empty_class user_size p s index p' s' :
  user_size ≤ MAX_USER_SIZE →
  findBlockSizeIndex p (calcAlignedTotalSize user_size) = index → index ≠ -1 →
  vec_get (free_lists_ p) index = Some 0 →
  allocateBatch (calcAlignedTotalSize user_size) index p s = Some (false, p', s') →
  allocate user_size p s = Some (0, p', s').
Proof.
  intros Hu Hfind Hidx Hhead Hbatch. unfold allocate.
  destruct (Z.ltb_spec MAX_USER_SIZE user_size) as [|_]; [lia|].
  rewrite Hfind.
  destruct (Z.eqb_spec index (-1)) as [|_]; [done|].
  destruct (Z.eqb_spec index (-1)) as [|_]; [done|].
  rewrite Hhead. simpl. by rewrite Hbatch.
Qed.

Lemma allocate_without_page user_size p s index :
  0 ≤ user_size ≤ MAX_USER_SIZE →
  findBlockSizeIndex p (calcAlignedTotalSize user_size) = index → index ≠ -1 →
  vec_get (free_lists_ p) index = Some 0 →
  (malloc s).1 = 0 →
  allocate user_size p s = Some (0, p, (malloc s).2).
Proof.
  intros Hu Hfind Hidx Hhead Hnull.
  pose proof (calcAlignedTotalSize_request user_size Hu) as Hts.
  change (calcAlignedTotalSize MIN_USER_SIZE) with 24 in Hts.
  pose proof (findBlockSizeIndex_range p (calcAlignedTotalSize user_size)) as Hrange.
  rewrite Hfind in Hrange. destruct Hrange as [|Hrange]; [done|].
  apply (allocate_empty_class _ _ _ index); try done; [lia|].
  apply allocateBatch_without_page; try done. lia.
Qed.

(** X7. When the list of the class is empty and [malloc] returns
    [nullptr], [allocateBatch] returns [false] and [allocate] returns
    [nullptr]: the pool is unchanged, no memory word is written and nothing
    is freed. *)
Theorem allocate_out_of_memory
    (user_size : Z) (p : BaseMemoryPool) (s : System) (index : Z) :
  0 ≤ user_size ≤ MAX_USER_SIZE →
  findBlockSizeIndex p (calcAlignedTotalSize user_size) = index → index ≠ -1 →
  vec_get (free_lists_ p) index = Some 0 →
  (malloc s).1 = 0 →
  ∃ s',
    allocate user_size p s = Some (0, p, s') ∧
    allocateBatch (calcAlignedTotalSize user_size) index p s = Some (false, p, s') ∧
    memory s' = memory s ∧
    released s' = released s ∧
    malloc_results s' = tail (malloc_results s).
Proof.
  intros Hu Hfind Hidx Hhead Hnull. exists (malloc s).2.
  pose proof (calcAlignedTotalSize_request user_size Hu) as Hts.
  change (calcAlignedTotalSize MIN_USER_SIZE) with 24 in Hts.
  pose proof (findBlockSizeIndex_range p (calcAlignedTotalSize user_size)) as Hrange.
  rewrite Hfind in Hrange. destruct Hrange as [|Hrange]; [done|].
  assert (Hbatch : allocateBatch (calcAlignedTotalSize user_size) index p s
                   = Some (false, p, (malloc s).2))
    by (apply allocateBatch_without_page; try done; lia).
  split; [apply (allocate_empty_class _ _ _ index); try done; lia|].
  split; [done|].
  unfold malloc. destruct (malloc_results s) eqn:Hresults; simpl; by rewrite ?Hresults.
Qed.

Lemma allocate_out_of_memory_witness :
  ∃ s', allocate 64 two_classes small_heap = Some (0, two_classes, s') ∧
        memory s' = memory small_heap.
Proof.
  destruct (allocate_out_of_memory 64 two_classes small_heap 1)
    as (s' & Halloc & _ & Hmem & _);
    [by vm_compute|reflexivity|lia|reflexivity|reflexivity|].
  exists s'. split; assumption.
Defined.

(** X9. [allocate] from a non-empty class followed by [deallocate] of the
    returned pointer restores the pool: same lists, counts and free bytes;
    only [allocate_count_] and [deallocate_count_] have grown by one.  Memory
    reads as before, no page is requested and nothing is freed.  The header
    of the head block must hold the size of its class. *)
Theorem allocate_deallocate_round_trip
    (user_size : Z) (p : BaseMemoryPool) (s : System) (index block c : Z) :
  0 ≤ user_size ≤ MAX_USER_SIZE →
  findBlockSizeIndex p (calcAlignedTotalSize user_size) = index → index ≠ -1 →
  vec_get (free_lists_ p) index = Some block → 0 < block →
  load s block = calcAlignedTotalSize user_size →
  vec_get (free_block_counts_ p) index = Some c →
  in_range c → in_range (total_free_memory_ p) →
  ∃ p1 p2 s2,
    allocate user_size p s = Some (block + FREE_BLOCK_HEADER_SIZE, p1, s) ∧
    deallocate (block + FREE_BLOCK_HEADER_SIZE) p1 s = Some (p2, s2) ∧
    block_sizes_ p2 = block_sizes_ p ∧
    free_lists_ p2 = free_lists_ p ∧
    free_block_counts_ p2 = free_block_counts_ p ∧
    total_free_memory_ p2 = total_free_memory_ p ∧
    total_allocated_memory_ p2 = total_allocated_memory_ p ∧
    allocate_count_ p2 = wrap (allocate_count_ p + 1) ∧
    deallocate_count_ p2 = wrap (deallocate_count_ p + 1) ∧
    (∀ a, load s2 a = load s a) ∧
    malloc_results s2 = malloc_results s ∧ released s2 = released s.
Proof.
  intros Hu Hfind Hidx Hhead Hblock Hheader Hc Hrc Hrt.
  pose proof (calcAlignedTotalSize_request user_size Hu) as Hts.
  set (total_size := calcAlignedTotalSize user_size) in *.
  pose proof (vec_get_in_range _ _ _ Hhead) as Hi.
  pose proof (vec_get_in_range _ _ _ Hc) as Hi'.
  apply vec_get_Some in Hhead as Hhead'. destruct Hhead' as [_ Hhead'].
  apply vec_get_Some in Hc as Hc'. destruct Hc' as [_ Hc'].
  eexists _, _, _. split.
  { apply (allocate_nonempty user_size total_size); try done; lia. }
  split.
  { apply (deallocate_pushes _ _ _ total_size index (load s (block + 8)) (wrap (c - 1)));
      unfold FREE_BLOCK_HEADER_SIZE; try lia.
    - by replace (block + 16 - 16) with block by lia.
    - done.
    - simpl. unfold vec_get. destruct (Z.ltb_spec index 0) as [|_]; [lia|].
      apply list_lookup_insert_eq. lia.
    - simpl. unfold vec_get. destruct (Z.ltb_spec index 0) as [|_]; [lia|].
      apply list_lookup_insert_eq. lia. }
  unfold FREE_BLOCK_HEADER_SIZE. replace (block + 16 - 16) with block by lia.
  simpl. rewrite !list_insert_insert_eq, Hheader.
  rewrite wrap_add_l, wrap_add_l.
  replace (c - 1 + 1) with c by lia.
  replace (total_free_memory_ p - total_size + total_size)
    with (total_free_memory_ p) by lia.
  rewrite !wrap_small by done.
  rewrite !list_insert_id by done.
  repeat split; try done.
  intros a. destruct (decide (a = block + 8)) as [->|Hne].
  - by rewrite load_store_eq.
  - by rewrite load_store_ne.
Qed.

Lemma allocate_deallocate_round_trip_witness :
  ∃ p1 p2 s2,
    allocate 16 two_classes small_heap = Some (8192 + FREE_BLOCK_HEADER_SIZE, p1, small_heap) ∧
    deallocate (8192 + FREE_BLOCK_HEADER_SIZE) p1 small_heap = Some (p2, s2) ∧
    free_lists_ p2 = free_lists_ two_classes ∧
    free_block_counts_ p2 = free_block_counts_ two_classes ∧
    total_free_memory_ p2 = total_free_memory_ two_classes.
Proof.
  destruct (allocate_deallocate_round_trip 16 two_classes small_heap 0 8192 2)
    as (p1 & p2 & s2 & Halloc & Hfree & _ & Hlists & Hcounts & Htotal & _);
    [by vm_compute|reflexivity|lia|reflexivity|lia|reflexivity|reflexivity
    |by vm_compute|by vm_compute|].
  exists p1, p2, s2. repeat split; assumption.
Defined.

(** X10. The block given back last is handed out first: after
    [deallocate(user_ptr)], the next [allocate] of a size of the same class
    returns [user_ptr], and the lists, counts and free bytes are those from
    before the pair. *)
Theorem deallocate_allocate_reuses_block
    (user_ptr user_size : Z) (p : BaseMemoryPool) (s : System) (index head c : Z) :
  0 ≤ user_size ≤ MAX_USER_SIZE →
  findBlockSizeIndex p (calcAlignedTotalSize user_size) = index → index ≠ -1 →
  vec_get (free_lists_ p) index = Some head →
  vec_get (free_block_counts_ p) index = Some c →
  FREE_BLOCK_HEADER_SIZE < user_ptr →
  load s (user_ptr - FREE_BLOCK_HEADER_SIZE) = calcAlignedTotalSize user_size →
  ∃ p1 s1 p2,
    deallocate user_ptr p s = Some (p1, s1) ∧
    allocate user_size p1 s1 = Some (user_ptr, p2, s1) ∧
    block_sizes_ p2 = block_sizes_ p ∧
    free_lists_ p2 = free_lists_ p ∧
    (in_range c → free_block_counts_ p2 = free_block_counts_ p) ∧
    (in_range (total_free_memory_ p) → total_free_memory_ p2 = total_free_memory_ p) ∧
    (∀ a, a ≠ user_ptr - FREE_BLOCK_HEADER_SIZE + 8 → load s1 a = load s a).
Proof.
  intros Hu Hfind Hidx Hhead Hc Hptr Hheader.
  pose proof (calcAlignedTotalSize_request user_size Hu) as Hts.
  set (total_size := calcAlignedTotalSize user_size) in *.
  pose proof (vec_get_in_range _ _ _ Hhead) as Hi.
  pose proof (vec_get_in_range _ _ _ Hc) as Hi'.
  apply vec_get_Some in Hhead as Hhead'. destruct Hhead' as [_ Hhead'].
  apply vec_get_Some in Hc as Hc'. destruct Hc' as [_ Hc'].
  unfold FREE_BLOCK_HEADER_SIZE in *.
  set (block := user_ptr - 16) in *.
  eexists _, _, _. split.
  { apply (deallocate_pushes _ _ _ total_size index head c);
      unfold FREE_BLOCK_HEADER_SIZE; try done; try lia. }
  split.
  { unfold FREE_BLOCK_HEADER_SIZE. fold block.
    lazymatch goal with
    | |- allocate _ ?q ?t = _ =>
        pose proof (allocate_nonempty user_size total_size q t index block
                      (wrap (c + 1))) as Halloc
    end.
    replace (block + FREE_BLOCK_HEADER_SIZE) with user_ptr in Halloc
      by (unfold block, FREE_BLOCK_HEADER_SIZE; lia).
    apply Halloc; try done; try lia; simpl; unfold vec_get;
      (destruct (Z.ltb_spec index 0) as [|_]; [lia|]);
      apply list_lookup_insert_eq; lia. }
  simpl. rewrite !list_insert_insert_eq.
  rewrite load_store_eq, load_store_ne by lia. fold block. rewrite Hheader.
  rewrite (list_insert_id _ _ head) by done.
  repeat split; try done.
  - intros Hrc. rewrite wrap_sub_l. replace (c + 1 - 1) with c by lia.
    rewrite wrap_small by done. by rewrite list_insert_id.
  - intros Hrt. rewrite wrap_sub_l.
    replace (total_free_memory_ p + total_size - total_size)
      with (total_free_memory_ p) by lia.
    by rewrite wrap_small.
  - intros a Ha. by rewrite load_store_ne.
Qed.

Lemma deallocate_allocate_reuses_block_witness :
  ∃ p1 s1 p2,
    deallocate 12304 two_classes small_heap = Some (p1, s1) ∧
    allocate 16 p1 s1 = Some (12304, p2, s1) ∧
    free_lists_ p2 = free_lists_ two_classes.
Proof.
  destruct (deallocate_allocate_reuses_block 12304 16 two_classes small_heap 0 8192 2)
    as (p1 & s1 & p2 & Hfree & Halloc & _ & Hlists & _);
    [by vm_compute|reflexivity|lia|reflexivity|reflexivity|by vm_compute|reflexivity|].
  exists p1, s1, p2. repeat split; assumption.
Defined.

Lemma is_list_self_loop s b :
  b ≠ 0 → load s (b + 8) = b → ∀ l, ¬ is_list s b l.
Proof.
  intros Hb Hloop l. induction l as [|x l IH]; intros Hl.
  - by inversion Hl.
  - inversion Hl as [|? ? _ Hrest]; subst. rewrite Hloop in Hrest. done.
Qed.

Lemma last_block_self_loop s b :
  b ≠ 0 → load s (b + 8) = b → ∀ fuel, last_block fuel b s = None.
Proof.
  intros Hb Hloop fuel. induction fuel as [|fuel IH]; [done|].
  simpl. unfold block_next.
  destruct (Z.eqb_spec b 0) as [|_]; [done|]. simpl. rewrite Hloop.
  by destruct (Z.eqb_spec b 0) as [|_].
Qed.

(** X11. [deallocate] does not detect a block that is given back twice.
    After the second call the block is the head of its list and its own
    successor, and the count has grown by two: the list has no end, the walk
    of [transferTo] to its last block never stops, and the next two calls of
    [allocate] for that class both return the same pointer. *)
Theorem deallocate_twice_makes_cycle
    (user_ptr user_size : Z) (p : BaseMemoryPool) (s : System) (index head c : Z) :
  0 ≤ user_size ≤ MAX_USER_SIZE →
  findBlockSizeIndex p (calcAlignedTotalSize user_size) = index → index ≠ -1 →
  vec_get (free_lists_ p) index = Some head →
  vec_get (free_block_counts_ p) index = Some c →
  FREE_BLOCK_HEADER_SIZE < user_ptr →
  load s (user_ptr - FREE_BLOCK_HEADER_SIZE) = calcAlignedTotalSize user_size →
  ∃ p1 s1 p2 s2 p3 p4,
    deallocate user_ptr p s = Some (p1, s1) ∧
    deallocate user_ptr p1 s1 = Some (p2, s2) ∧
    vec_get (free_lists_ p2) index = Some (user_ptr - FREE_BLOCK_HEADER_SIZE) ∧
    block_next s2 (user_ptr - FREE_BLOCK_HEADER_SIZE)
    = Some (user_ptr - FREE_BLOCK_HEADER_SIZE) ∧
    vec_get (free_block_counts_ p2) index = Some (wrap (c + 2)) ∧
    (∀ l, ¬ is_list s2 (user_ptr - FREE_BLOCK_HEADER_SIZE) l) ∧
    (∀ fuel, last_block fuel (user_ptr - FREE_BLOCK_HEADER_SIZE) s2 = None) ∧
    allocate user_size p2 s2 = Some (user_ptr, p3, s2) ∧
    allocate user_size p3 s2 = Some (user_ptr, p4, s2).
Proof.
  intros Hu Hfind Hidx Hhead Hc Hptr Hheader.
  pose proof (calcAlignedTotalSize_request user_size Hu) as Hts.
  set (total_size := calcAlignedTotalSize user_size) in *.
  pose proof (vec_get_in_range _ _ _ Hhead) as Hi.
  pose proof (vec_get_in_range _ _ _ Hc) as Hi'.
  unfold FREE_BLOCK_HEADER_SIZE in *.
  set (block := user_ptr - 16) in *.
  assert (Hlookup : ∀ (v : list Z) x, 0 ≤ index < Z.of_nat (length v) →
            vec_get (<[Z.to_nat index := x]> v) index = Some x).
  { intros v x Hv. unfold vec_get. destruct (Z.ltb_spec index 0) as [|_]; [lia|].
    apply list_lookup_insert_eq. lia. }
  assert (Hptr' : user_ptr = block + FREE_BLOCK_HEADER_SIZE)
    by (unfold block, FREE_BLOCK_HEADER_SIZE; lia).
  eexists _, _, _, _, _, _. split.
  { apply (deallocate_pushes _ _ _ total_size index head c);
      unfold FREE_BLOCK_HEADER_SIZE; try done; try lia. }
  split.
  { apply (deallocate_pushes _ _ _ total_size index block (wrap (c + 1)));
      unfold FREE_BLOCK_HEADER_SIZE; try done; try lia.
    - fold block. rewrite load_store_ne by lia. done.
    - simpl. by apply Hlookup.
    - simpl. by apply Hlookup. }
  unfold FREE_BLOCK_HEADER_SIZE. fold block. simpl. rewrite !list_insert_insert_eq.
  assert (Hloop : load (store (block + 8) block (store (block + 8) head s)) (block + 8)
                  = block) by apply load_store_eq.
  assert (Hsize : load (store (block + 8) block (store (block + 8) head s)) block
                  = total_size) by (by rewrite !load_store_ne by lia).
  split; [by apply Hlookup|].
  split.
  { unfold block_next. destruct (Z.eqb_spec block 0) as [|_]; [unfold block in *; lia|].
    by rewrite Hloop. }
  split; [rewrite wrap_add_l, Hlookup by done; do 2 f_equal; lia|].
  split; [apply is_list_self_loop; [unfold block; lia|done]|].
  split; [apply last_block_self_loop; [unfold block; lia|done]|].
  split.
  { lazymatch goal with
    | |- allocate _ ?q ?t = _ =>
        pose proof (allocate_nonempty user_size total_size q t index block
                      (wrap (c + 1 + 1))) as Halloc
    end.
    rewrite <- Hptr' in Halloc.
    apply Halloc; try done; try lia; simpl; rewrite ?wrap_add_l; by apply Hlookup. }
  rewrite Hloop, Hsize.
  lazymatch goal with
  | |- allocate _ ?q ?t = _ =>
      pose proof (allocate_nonempty user_size total_size q t index block
                    (wrap (wrap (c + 1 + 1) - 1))) as Halloc
  end.
  rewrite <- Hptr' in Halloc.
  apply Halloc; try done; try lia; simpl; apply Hlookup; by rewrite length_insert.
Qed.

Lemma deallocate_twice_makes_cycle_witness :
  ∃ p1 s1 p2 s2,
    deallocate 12304 two_classes small_heap = Some (p1, s1) ∧
    deallocate 12304 p1 s1 = Some (p2, s2) ∧
    block_next s2 12288 = Some 12288 ∧
    vec_get (free_block_counts_ p2) 0 = Some 4.
Proof.
  destruct (deallocate_twice_makes_cycle 12304 16 two_classes small_heap 0 8192 2)
    as (p1 & s1 & p2 & s2 & _ & _ & Hfree1 & Hfree2 & _ & Hloop & Hcount & _);
    [by vm_compute|reflexivity|lia|reflexivity|reflexivity|by vm_compute|reflexivity|].
  exists p1, s1, p2, s2. repeat split; assumption.
Defined.

Lemma is_list_null s l : is_list s 0 l → l = [].
Proof. by inversion 1. Qed.

Lemma is_list_suffix s head l x :
  is_list s head l → x ∈ l → ∃ l1 l2, l = l1 ++ x :: l2 ∧ is_list s x (x :: l2).
Proof.
  induction 1 as [|b l Hb Hl IH]; intros Hx; [by apply elem_of_nil in Hx|].
  apply elem_of_cons in Hx as [->|Hx].
  - exists [], l. split; [done|]. by constructor.
  - destruct (IH Hx) as (l1 & l2 & -> & Hsuffix).
    by exists (b :: l1), l2.
Qed.

Lemma is_list_NoDup s head l : is_list s head l → NoDup l.
Proof.
  induction 1 as [|b l Hb Hl IH]; constructor; [|done].
  intros Hin.
  destruct (is_list_suffix _ _ _ _ Hl Hin) as (l1 & l2 & -> & Hsuffix).
  assert (is_list s b (b :: l1 ++ b :: l2)) as Hwhole by by constructor.
  pose proof (is_list_functional _ _ _ _ Hsuffix Hwhole) as Heq.
  apply (f_equal length) in Heq. simpl in Heq. rewrite length_app in Heq.
  simpl in Heq. lia.
Qed.

(** X19. [allocate] from a class whose list is the null-terminated
    [b :: l] returns [b]'s user pointer and leaves the list [l], on which
    [b] does not occur, without touching memory or [malloc].  The count goes
    down by one, so a count that equalled the length still does; every other
    class keeps its list head and count. *)
Theorem allocate_pops_list
    (user_size : Z) (p : BaseMemoryPool) (s : System) (index b : Z) (l : list Z)
    (c : Z) :
  0 ≤ user_size ≤ MAX_USER_SIZE →
  findBlockSizeIndex p (calcAlignedTotalSize user_size) = index → index ≠ -1 →
  vec_get (free_lists_ p) index = Some b →
  is_list s b (b :: l) →
  vec_get (free_block_counts_ p) index = Some c →
  ∃ p' head',
    allocate user_size p s = Some (b + FREE_BLOCK_HEADER_SIZE, p', s) ∧
    block_sizes_ p' = block_sizes_ p ∧
    vec_get (free_lists_ p') index = Some head' ∧
    is_list s head' l ∧
    (b ∉ l) ∧
    vec_get (free_block_counts_ p') index = Some (wrap (c - 1)) ∧
    (c = wrap (Z.of_nat (length (b :: l))) → wrap (c - 1) = wrap (Z.of_nat (length l))) ∧
    (∀ k, k ≠ Z.to_nat index →
          free_lists_ p' !! k = free_lists_ p !! k ∧
          free_block_counts_ p' !! k = free_block_counts_ p !! k).
Proof.
  intros Hu Hfind Hidx Hhead Hlist Hc.
  pose proof (is_list_NoDup _ _ _ Hlist) as Hnd. apply NoDup_cons in Hnd as [Hfresh _].
  inversion Hlist as [|? ? Hb Hrest]; subst.
  pose proof (vec_get_in_range _ _ _ Hhead) as Hi.
  pose proof (vec_get_in_range _ _ _ Hc) as Hi'.
  eexists _, (load s (b + 8)). split.
  { apply (allocate_nonempty user_size (calcAlignedTotalSize user_size) p s
             (findBlockSizeIndex p (calcAlignedTotalSize user_size)) b c);
      try done; lia. }
  simpl. unfold vec_get.
  destruct (Z.ltb_spec (findBlockSizeIndex p (calcAlignedTotalSize user_size)) 0)
    as [|_]; [lia|].
  rewrite !list_lookup_insert_eq by lia.
  repeat split; try done.
  - intros ->. rewrite wrap_sub_l. f_equal. simpl length. lia.
  - by rewrite list_lookup_insert_ne.
  - by rewrite list_lookup_insert_ne.
Qed.

Lemma allocate_pops_list_witness :
  ∃ p' head',
    allocate 16 two_classes small_heap = Some (8192 + FREE_BLOCK_HEADER_SIZE, p', small_heap) ∧
    vec_get (free_lists_ p') 0 = Some head' ∧
    is_list small_heap head' [8224] ∧
    vec_get (free_block_counts_ p') 0 = Some (wrap (2 - 1)).
Proof.
  destruct (allocate_pops_list 16 two_classes small_heap 0 8192 [8224] 2)
    as (p' & head' & Halloc & _ & Hhead & Hlist & _ & Hcount & _);
    [by vm_compute|reflexivity|lia|reflexivity
    |apply (list_blocks_is_list 3); by vm_compute|reflexivity|].
  exists p', head'. repeat split; assumption.
Defined.

(** X20. [deallocate] of a pool block that is not on the list [l] of its
    class makes the list [block :: l], keeps the block's header, and keeps
    every other list that does not hold the block.  The count goes up by
    one, so a count that equalled the length still does; every other class
    keeps its list head and count, and nothing is freed. *)
Theorem deallocate_pushes_list
    (user_ptr : Z) (p : BaseMemoryPool) (s : System) (index head : Z) (l : list Z)
    (c : Z) :
  let block := user_ptr - FREE_BLOCK_HEADER_SIZE in
  FREE_BLOCK_HEADER_SIZE < user_ptr →
  calcAlignedTotalSize MIN_USER_SIZE ≤ load s block →
  findBlockSizeIndex p (load s block) = index → index ≠ -1 →
  vec_get (free_lists_ p) index = Some head →
  is_list s head l → block ∉ l →
  vec_get (free_block_counts_ p) index = Some c →
  ∃ p' s',
    deallocate user_ptr p s = Some (p', s') ∧
    block_sizes_ p' = block_sizes_ p ∧
    vec_get (free_lists_ p') index = Some block ∧
    is_list s' block (block :: l) ∧
    load s' block = load s block ∧
    vec_get (free_block_counts_ p') index = Some (wrap (c + 1)) ∧
    (c = wrap (Z.of_nat (length l)) → wrap (c + 1) = wrap (Z.of_nat (length (block :: l)))) ∧
    (∀ head2 l2, is_list s head2 l2 → block ∉ l2 → is_list s' head2 l2) ∧
    (∀ k, k ≠ Z.to_nat index →
          free_lists_ p' !! k = free_lists_ p !! k ∧
          free_block_counts_ p' !! k = free_block_counts_ p !! k) ∧
    released s' = released s.
Proof.
  intros block Hptr Hmin Hfind Hidx Hhead Hlist Hfresh Hc.
  pose proof (vec_get_in_range _ _ _ Hhead) as Hi.
  pose proof (vec_get_in_range _ _ _ Hc) as Hi'.
  assert (block ≠ 0) as Hblock by (unfold block, FREE_BLOCK_HEADER_SIZE in *; lia).
  eexists _, _. split.
  { apply (deallocate_pushes user_ptr p s (load s block) index head c); try done.
    unfold FREE_BLOCK_HEADER_SIZE in *. lia. }
  fold block. simpl. unfold vec_get.
  destruct (Z.ltb_spec index 0) as [|_]; [lia|].
  rewrite !list_lookup_insert_eq by lia.
  split; [done|]. split; [done|].
  split.
  { constructor; [done|]. rewrite load_store_eq. by apply is_list_store_other. }
  split; [rewrite load_store_ne by lia; done|].
  split; [done|].
  split.
  { intros ->. rewrite wrap_add_l. f_equal. simpl length. lia. }
  split; [intros head2 l2 Hl2 Hfresh2; by apply is_list_store_other|].
  split; [|done].
  intros k Hk. by rewrite !list_lookup_insert_ne.
Qed.

Lemma deallocate_pushes_list_witness :
  ∃ p' s',
    deallocate 12304 two_classes small_heap = Some (p', s') ∧
    is_list s' 12288 [12288; 8192; 8224] ∧
    vec_get (free_block_counts_ p') 0 = Some (wrap (2 + 1)).
Proof.
  destruct (deallocate_pushes_list 12304 two_classes small_heap 0 8192 [8192; 8224] 2)
    as (p' & s' & Hfree & _ & _ & Hlist & _ & Hcount & _);
    [by vm_compute|by vm_compute|reflexivity|lia|reflexivity
    |apply (list_blocks_is_list 3); by vm_compute
    |apply (bool_decide_unpack _); by vm_compute|reflexivity|].
  exists p', s'. repeat split; assumption.
Defined.

(** * Further properties: carving a page *)

Lemma page_blocks_lookup count block total_size (i : nat) :
  (i < count)%nat →
  page_blocks count block total_size !! i = Some (block + Z.of_nat i * total_size).
Proof.
  revert block i. induction count as [|count IH]; intros block i Hi; [lia|].
  destruct i as [|i]; simpl.
  - f_equal. lia.
  - rewrite IH by lia. f_equal. lia.
Qed.

Lemma page_blocks_elem_of count block total_size b :
  b ∈ page_blocks count block total_size →
  ∃ i, 0 ≤ i < Z.of_nat count ∧ b = block + i * total_size.
Proof.
  intros [i Hi]%list_elem_of_lookup.
  pose proof (lookup_lt_Some _ _ _ Hi) as Hlt. rewrite page_blocks_length in Hlt.
  rewrite page_blocks_lookup in Hi by done. injection Hi as <-.
  exists (Z.of_nat i). lia.
Qed.

(** X8. A successful [allocateBatch] replaces the list of the class by the
    blocks of the new page, in address order and null-terminated.  There are
    [PAGE_SIZE / total_size] of them, each with [total_size] in its header,
    each inside the page, and with an aligned user pointer when the page and
    the size are aligned.  The count grows by their number, the free bytes by
    their total and the allocated bytes by [PAGE_SIZE], so the used bytes
    reported by [getStats] grow by the tail of the page that fits no block.
    One [malloc] result is consumed and no word outside the page changes. *)
Theorem allocateBatch_carves_page
    (total_size index : Z) (p : BaseMemoryPool) (s : System)
    (page : Z) (rest : list Z) (c : Z) :
  0 ≤ index < Z.of_nat (length (block_sizes_ p)) →
  0 ≤ index < Z.of_nat (length (free_lists_ p)) →
  vec_get (free_block_counts_ p) index = Some c →
  FREE_BLOCK_HEADER_SIZE ≤ total_size ≤ PAGE_SIZE →
  malloc_results s = page :: rest → 0 < page →
  ∃ p' s',
    allocateBatch total_size index p s = Some (true, p', s') ∧
    block_sizes_ p' = block_sizes_ p ∧
    free_lists_ p' = <[Z.to_nat index := page]> (free_lists_ p) ∧
    free_block_counts_ p'
    = <[Z.to_nat index := wrap (c + PAGE_SIZE / total_size)]> (free_block_counts_ p) ∧
    is_list s' page (page_blocks (Z.to_nat (PAGE_SIZE / total_size)) page total_size) ∧
    (∀ b, b ∈ page_blocks (Z.to_nat (PAGE_SIZE / total_size)) page total_size →
          load s' b = total_size ∧ page ≤ b ∧ b + total_size ≤ page + PAGE_SIZE ∧
          (total_size mod BLOCK_ALIGNMENT = 0 → page mod BLOCK_ALIGNMENT = 0 →
           (b + FREE_BLOCK_HEADER_SIZE) mod BLOCK_ALIGNMENT = 0)) ∧
    total_free_memory (getStats p')
    = wrap (total_free_memory (getStats p) + total_size * (PAGE_SIZE / total_size)) ∧
    total_allocated_memory (getStats p')
    = wrap (total_allocated_memory (getStats p) + PAGE_SIZE) ∧
    total_used_memory (getStats p')
    = wrap (total_used_memory (getStats p) + PAGE_SIZE mod total_size) ∧
    malloc_results s' = rest ∧
    released s' = released s ∧
    (∀ a, a < page ∨ page + PAGE_SIZE ≤ a → load s' a = load s a).
Proof.
  intros Hidx Hidx' Hc Hts Hmalloc Hpage.
  destruct (allocateBatch_success total_size index p s page rest c)
    as (s' & Hbatch & Hm & Hr & Hblocks & Hframe); try done.
  set (n := PAGE_SIZE / total_size) in *.
  assert (1 ≤ n) as Hn.
  { unfold n. apply Z.div_le_lower_bound; unfold FREE_BLOCK_HEADER_SIZE in *; lia. }
  assert (n * total_size ≤ PAGE_SIZE) as Hfit.
  { unfold n. rewrite Z.mul_comm. apply Z.mul_div_le.
    unfold FREE_BLOCK_HEADER_SIZE in *. lia. }
  assert (0 < total_size) as Hpos by (unfold FREE_BLOCK_HEADER_SIZE in *; lia).
  eexists _, s'. split; [exact Hbatch|]. simpl.
  split; [done|]. split; [done|]. split; [done|].
  split.
  { apply linked_slots_is_list; [lia|done|lia|].
    intros k Hk. rewrite Z2Nat.id in * by lia. by apply Hblocks. }
  split.
  { intros b (i & Hi & ->)%page_blocks_elem_of. rewrite Z2Nat.id in Hi by lia.
    split; [by apply Hblocks|]. split; [nia|]. split; [nia|].
    unfold BLOCK_ALIGNMENT, FREE_BLOCK_HEADER_SIZE.
    intros [q ->]%Z.mod_divide [r ->]%Z.mod_divide; [|lia..].
    replace (r * 8 + i * (q * 8) + 16) with ((r + i * q + 2) * 8) by lia.
    apply Z.mod_mul. lia. }
  split; [by rewrite wrap_add_r|]. split; [done|].
  split.
  { rewrite wrap_sub_l, wrap_sub_r, wrap_add_l.
    rewrite Z.sub_add_distr, wrap_sub_r. f_equal.
    pose proof (Z.div_mod PAGE_SIZE total_size ltac:(lia)) as Hdm. fold n in Hdm. lia. }
  split; [done|]. split; [done|].
  intros a Ha. apply Hframe. lia.
Qed.

Lemma allocateBatch_carves_page_witness :
  ∃ p' s',
    allocateBatch 80 1 two_classes one_page = Some (true, p', s') ∧
    is_list s' 65536 (page_blocks (Z.to_nat (PAGE_SIZE / 80)) 65536 80) ∧
    total_used_memory (getStats p')
    = wrap (total_used_memory (getStats two_classes) + PAGE_SIZE mod 80).
Proof.
  destruct (allocateBatch_carves_page 80 1 two_classes one_page 65536 [] 0)
    as (p' & s' & Hbatch & _ & _ & _ & Hlist & _ & _ & _ & Hused & _);
    [simpl; lia|simpl; lia|reflexivity|by vm_compute|reflexivity|lia|].
  exists p', s'. split; [exact Hbatch|]. split; [exact Hlist|exact Hused].
Defined.

(** * Further properties: [reclaimIdleMemory] *)

(** X12. The value [reclaimIdleMemory] returns is the amount by which
    [total_free_memory_] went down.  The class table, the two operation
    counters and [total_allocated_memory_] are unchanged, so the used bytes
    reported by [getStats] go up by the reclaimed amount. *)
Theorem reclaimIdleMemory_accounting
    (p : BaseMemoryPool) (s : System) (reclaimed : Z) (p' : BaseMemoryPool)
    (s' : System) :
  length (free_block_counts_ p) = length (block_sizes_ p) →
  Forall in_range (block_sizes_ p) →
  Forall in_range (free_block_counts_ p) →
  in_range (total_free_memory_ p) →
  reclaimIdleMemory p s = Some (reclaimed, p', s') →
  reclaimed = wrap (total_free_memory_ p - total_free_memory_ p') ∧
  total_free_memory_ p' = wrap (total_free_memory_ p - reclaimed) ∧
  block_sizes_ p' = block_sizes_ p ∧
  allocate_count (getStats p') = allocate_count (getStats p) ∧
  deallocate_count (getStats p') = deallocate_count (getStats p) ∧
  total_allocated_memory (getStats p') = total_allocated_memory (getStats p) ∧
  total_used_memory (getStats p') = wrap (total_used_memory (getStats p) + reclaimed).
Proof.
  intros Hlen Hsizes Hcounts HT Hrun. unfold reclaimIdleMemory in Hrun.
  apply (reclaim_loop_effect _ 0%nat) in Hrun
    as (Hsz & _ & _ & Hfree & Hrec & _ & Hac & Hdc & Hta);
    [|done|done|done|done|unfold in_range, SIZE_MODULUS; lia|done].
  rewrite !drop_0 in *. rewrite Z.add_0_l in Hrec.
  set (bytes := released_bytes (block_sizes_ p) (free_block_counts_ p)) in *.
  simpl. rewrite Hfree, Hrec, Hac, Hdc, Hta.
  rewrite !wrap_sub_r, wrap_add_l, wrap_add_r.
  repeat split; try done; f_equal; lia.
Qed.

Lemma reclaimIdleMemory_accounting_witness :
  ∃ reclaimed p' s',
    reclaimIdleMemory six_free_pool six_free_heap = Some (reclaimed, p', s') ∧
    reclaimed = wrap (total_free_memory_ six_free_pool - total_free_memory_ p') ∧
    total_used_memory (getStats p')
    = wrap (total_used_memory (getStats six_free_pool) + reclaimed).
Proof.
  destruct (reclaimIdleMemory six_free_pool six_free_heap)
    as [[[reclaimed p'] s']|] eqn:Hrun; [|vm_compute in Hrun; discriminate Hrun].
  destruct (reclaimIdleMemory_accounting six_free_pool six_free_heap reclaimed p' s')
    as (Hrec & _ & _ & _ & _ & _ & Hused);
    [reflexivity|by repeat constructor|by repeat constructor|by vm_compute|exact Hrun|].
  exists reclaimed, p', s'. split; [reflexivity|]. split; [exact Hrec|exact Hused].
Defined.

Lemma reclaim_class_system i reclaimed p s reclaimed' p' s' total_size c :
  vec_get (block_sizes_ p) i = Some total_size →
  vec_get (free_block_counts_ p) i = Some c →
  in_range total_size → in_range c →
  reclaim_class i (reclaimed, p, s) = Some (reclaimed', p', s') →
  malloc_results s' = malloc_results s ∧
  (release_count total_size c = 0 ∧ released s' = released s ∨
   0 < release_count total_size c ∧
   ∃ page, page ≠ 0 ∧ released s' = released s ++ [page]).
Proof.
  intros Hsz Hc Hrsz Hrc Hrun.
  unfold reclaim_class in Hrun. rewrite Hsz, Hc in Hrun. simpl in Hrun.
  unfold release_count.
  destruct (Z.leb_spec c RESERVE_BLOCK_COUNT) as [Hle|Hgt].
  { injection Hrun as <- <- <-. split; [done|by left]. }
  destruct (Z.eqb_spec total_size 0) as [|Hnz]; [done|].
  assert (0 < total_size) as Hpos by (unfold in_range in Hrsz; lia).
  pose proof (release_count_spec total_size c Hrc Hpos) as Hspec.
  unfold release_count in Hspec. simpl in Hspec.
  destruct (Z.leb_spec c RESERVE_BLOCK_COUNT) as [|_]; [lia|].
  destruct (PAGE_SIZE / total_size =? 0).
  { injection Hrun as <- <- <-. split; [done|by left]. }
  set (rc := wrap (wrap (c - RESERVE_BLOCK_COUNT) / (PAGE_SIZE / total_size)
                   * (PAGE_SIZE / total_size))) in *.
  destruct Hspec as (Hrc0 & Hrcc & Hrem & _ & _).
  destruct (Z.eqb_spec rc 0) as [Hz|Hne].
  { injection Hrun as <- <- <-. split; [done|by left]. }
  destruct Hrem as [|Hrem]; [done|].
  apply bind_Some in Hrun as (head & Hhead & Hrun).
  rewrite (wrap_small (c - rc)) in Hrun by (unfold in_range in Hrc; lia).
  apply bind_Some in Hrun as ([prev rh] & Hseek & Hrun).
  assert (rh ≠ 0) as Hrh.
  { eapply seek_release_head_nonnull; [|exact Hseek].
    intros ->.
    rewrite wrap_small in Hseek
      by (unfold in_range, RESERVE_BLOCK_COUNT in *; lia).
    destruct (Z.to_nat (c - rc - 1)) as [|n] eqn:E;
      [unfold RESERVE_BLOCK_COUNT in *; lia|].
    simpl in Hseek. done. }
  destruct (Z.eqb_spec rh 0) as [|_]; [done|].
  apply bind_Some in Hrun as ([fl s1] & Hcut & Hrun).
  apply bind_Some in Hrun as (counts & Hcounts & Hrun).
  injection Hrun as <- <- <-.
  assert (malloc_results s1 = malloc_results s ∧ released s1 = released s) as [Hm Hr].
  { destruct (prev =? 0).
    - apply bind_Some in Hcut as (fl' & Hfl & Hcut). by injection Hcut as <- <-.
    - apply bind_Some in Hcut as (s2 & Hs2 & Hcut). injection Hcut as <- <-.
      unfold set_block_next in Hs2. destruct (prev =? 0); [done|].
      by injection Hs2 as <-. }
  simpl. split; [done|]. right. split; [lia|].
  exists rh. by rewrite Hr.
Qed.

Lemma reclaim_loop_system rounds :
  ∀ n reclaimed p s reclaimed' p' s',
    (n + rounds = length (block_sizes_ p))%nat →
    length (free_block_counts_ p) = length (block_sizes_ p) →
    Forall in_range (block_sizes_ p) → Forall in_range (free_block_counts_ p) →
    reclaim_loop rounds (Z.of_nat n) (reclaimed, p, s) = Some (reclaimed', p', s') →
    malloc_results s' = malloc_results s ∧
    ∃ freed,
      released s' = released s ++ freed ∧
      Forall (λ a, a ≠ 0) freed ∧
      length freed
      = freeing_classes (drop n (block_sizes_ p)) (drop n (free_block_counts_ p)).
Proof.
  induction rounds as [|rounds IH];
    intros n r p s r' p' s' Hn Hlen Hsizes Hcounts Hrun.
  { simpl in Hrun. injection Hrun as <- <- <-. split; [done|].
    exists []. rewrite app_nil_r, !drop_ge by lia. done. }
  simpl in Hrun. apply bind_Some in Hrun as ([[r1 p1] s1] & Hstep & Hrun).
  destruct (lookup_lt_is_Some_2 (block_sizes_ p) n) as [sz Hsz]; [lia|].
  destruct (lookup_lt_is_Some_2 (free_block_counts_ p) n) as [c Hc]; [lia|].
  pose proof (Forall_lookup_1 _ _ _ _ Hsizes Hsz) as Hrsz.
  pose proof (Forall_lookup_1 _ _ _ _ Hcounts Hc) as Hrc.
  pose proof (reclaim_class_effect (Z.of_nat n) r p s r1 p1 s1 sz c) as Heff.
  pose proof (reclaim_class_system (Z.of_nat n) r p s r1 p1 s1 sz c) as Hsys.
  rewrite !vec_get_nat in Heff, Hsys.
  destruct (Heff Hsz Hc Hrsz Hrc Hstep) as [Hpos Hcases]. clear Heff.
  destruct (Hsys Hsz Hc Hrsz Hrc Hstep) as [Hm1 Hfreed1]. clear Hsys.
  rewrite (drop_lookup_cons _ _ _ Hsz), (drop_lookup_cons _ _ _ Hc).
  unfold freeing_classes. simpl.
  fold (freeing_classes (drop (S n) (block_sizes_ p)) (drop (S n) (free_block_counts_ p))).
  replace (Z.of_nat n + 1) with (Z.of_nat (S n)) in Hrun by lia.
  assert (block_sizes_ p1 = block_sizes_ p ∧
          length (free_block_counts_ p1) = length (free_block_counts_ p) ∧
          Forall in_range (free_block_counts_ p1) ∧
          drop (S n) (free_block_counts_ p1) = drop (S n) (free_block_counts_ p))
    as (Hsz1 & Hlen1 & Hcounts1 & Hdrop1).
  { destruct Hcases as [(_ & _ & -> & _)|(Hnz & _ & fl & _ & ->)]; [done|].
    simpl. rewrite length_insert, Nat2Z.id, drop_insert_lt by lia.
    repeat split; try done.
    apply Forall_insert; [done|].
    assert (0 < sz) as Hp.
    { destruct Hpos as [Hle|]; [|done]. unfold release_count in Hnz.
      destruct (Z.leb_spec c RESERVE_BLOCK_COUNT); lia. }
    pose proof (release_count_spec sz c Hrc Hp) as Hspec. simpl in Hspec.
    unfold in_range in *. lia. }
  apply IH in Hrun as (Hm & freed & Hfreed & Hnn & Hcount);
    [|rewrite Hsz1; lia|by rewrite Hsz1, Hlen1|by rewrite Hsz1|done].
  rewrite Hsz1, Hdrop1 in Hcount.
  split; [by rewrite Hm|].
  destruct Hfreed1 as [[Hz Hr1]|(Hnz & page & Hpage & Hr1)].
  - exists freed. rewrite Hfreed, Hr1. split; [done|]. split; [done|].
    rewrite filter_cons_False by lia. done.
  - exists (page :: freed). rewrite Hfreed, Hr1, <- app_assoc.
    split; [done|]. split; [by constructor|].
    rewrite filter_cons_True by lia. simpl. by rewrite Hcount.
Qed.

(** X13. [reclaimIdleMemory] returns the bytes of all the blocks it takes
    off the counts, but passes only one pointer per class to [free]: the
    number of calls of [free] is the number of classes it takes blocks
    from, whatever the number of pages those blocks amount to.  The freed
    pointers are not null and [malloc] is not called. *)
Theorem reclaimIdleMemory_frees_once_per_class
    (p : BaseMemoryPool) (s : System) (reclaimed : Z) (p' : BaseMemoryPool)
    (s' : System) :
  length (free_block_counts_ p) = length (block_sizes_ p) →
  Forall in_range (block_sizes_ p) →
  Forall in_range (free_block_counts_ p) →
  in_range (total_free_memory_ p) →
  reclaimIdleMemory p s = Some (reclaimed, p', s') →
  reclaimed = wrap (released_bytes (block_sizes_ p) (free_block_counts_ p)) ∧
  malloc_results s' = malloc_results s ∧
  ∃ freed,
    released s' = released s ++ freed ∧
    Forall (λ page, page ≠ 0) freed ∧
    length freed = freeing_classes (block_sizes_ p) (free_block_counts_ p).
Proof.
  intros Hlen Hsizes Hcounts HT Hrun. unfold reclaimIdleMemory in Hrun.
  pose proof Hrun as Hrun'.
  apply (reclaim_loop_effect _ 0%nat) in Hrun
    as (_ & _ & _ & _ & Hrec & _);
    [|done|done|done|done|unfold in_range, SIZE_MODULUS; lia|done].
  apply (reclaim_loop_system _ 0%nat) in Hrun' as (Hm & freed & Hfreed & Hnn & Hcount);
    [|done..].
  rewrite !drop_0 in *. rewrite Z.add_0_l in Hrec.
  split; [done|]. split; [done|]. by exists freed.
Qed.

Lemma reclaimIdleMemory_frees_once_per_class_witness :
  ∃ reclaimed p' s' freed,
    reclaimIdleMemory six_free_pool six_free_heap = Some (reclaimed, p', s') ∧
    reclaimed = wrap (released_bytes [2064] [6]) ∧
    released s' = released six_free_heap ++ freed ∧
    length freed = freeing_classes [2064] [6].
Proof.
  destruct (reclaimIdleMemory six_free_pool six_free_heap)
    as [[[reclaimed p'] s']|] eqn:Hrun; [|vm_compute in Hrun; discriminate Hrun].
  destruct (reclaimIdleMemory_frees_once_per_class six_free_pool six_free_heap
              reclaimed p' s')
    as (Hrec & _ & freed & Hfreed & _ & Hcount);
    [reflexivity|by repeat constructor|by repeat constructor|by vm_compute|exact Hrun|].
  exists reclaimed, p', s', freed. split; [reflexivity|].
  split; [exact Hrec|]. split; [exact Hfreed|exact Hcount].
Defined.

Lemma release_count_whole_pages total_size c :
  in_range c → 0 < total_size →
  release_count total_size c mod (PAGE_SIZE / total_size) = 0.
Proof.
  unfold in_range, SIZE_MODULUS. intros Hc Hsz. unfold release_count.
  destruct (Z.leb_spec c RESERVE_BLOCK_COUNT) as [Hle|Hgt]; [apply Zmod_0_l|].
  unfold RESERVE_BLOCK_COUNT in *.
  set (bpp := PAGE_SIZE / total_size).
  assert (0 ≤ bpp) as Hbpp.
  { unfold bpp. apply Z.div_pos; [unfold PAGE_SIZE|]; lia. }
  destruct (Z.eqb_spec bpp 0) as [Hz|Hnz]; [apply Zmod_0_l|].
  rewrite (wrap_small (c - 4)) by (unfold SIZE_MODULUS; lia).
  pose proof (Z.div_mod (c - 4) bpp Hnz) as Hdm.
  pose proof (Z.mod_pos_bound (c - 4) bpp ltac:(lia)) as Hmod.
  assert (0 ≤ (c - 4) / bpp) as Hq by (apply Z.div_pos; lia).
  rewrite wrap_small by (unfold SIZE_MODULUS; nia).
  apply Z.mod_mul. lia.
Qed.

Lemma concat_lookup_elem_of (ls : list (list Z)) k l x :
  ls !! k = Some l → x ∈ l → x ∈ concat ls.
Proof.
  intros Hl Hx. apply list_elem_of_lookup_2 in Hl.
  apply list_elem_of_In, in_concat. exists l. split; by apply list_elem_of_In.
Qed.

Lemma NoDup_concat_lookup (ls : list (list Z)) k k' l l' x :
  NoDup (concat ls) → k ≠ k' → ls !! k = Some l → ls !! k' = Some l' →
  x ∈ l → x ∉ l'.
Proof.
  revert k k'. induction ls as [|l0 ls IH]; intros k k' Hnd Hk Hl Hl' Hx Hx'; [done|].
  simpl in Hnd. apply NoDup_app in Hnd as (_ & Hdisj & Hrest).
  destruct k as [|k]; destruct k' as [|k']; try done; simpl in *.
  - injection Hl as ->. apply (Hdisj x Hx). by eapply concat_lookup_elem_of.
  - injection Hl' as ->. apply (Hdisj x Hx'). by eapply concat_lookup_elem_of.
  - apply (IH k k' Hrest); [lia|done..].
Qed.

Lemma is_list_nonzero s head l x : is_list s head l → x ∈ l → x ≠ 0.
Proof.
  induction 1 as [|b l Hb _ IH]; intros Hx; [by apply elem_of_nil in Hx|].
  apply elem_of_cons in Hx as [->|Hx]; [done|by apply IH].
Qed.

Lemma is_list_free s head l a : is_list s head l → is_list (free a s) head l.
Proof. induction 1; constructor; [done|by rewrite load_free]. Qed.

(** The walk of [reclaimIdleMemory] along a null-terminated list: it stops
    after [steps] moves, or at the last block. *)
Lemma seek_release_head_walks s steps :
  ∀ prev release_head l,
    is_list s release_head l → release_head ≠ 0 →
    ∃ prev' release_head',
      seek_release_head steps prev release_head s = Some (prev', release_head') ∧
      l !! (steps `min` (length l - 1))%nat = Some release_head' ∧
      match (steps `min` (length l - 1))%nat with
      | O => prev' = prev
      | S m => l !! m = Some prev'
      end.
Proof.
  induction steps as [|steps IH]; intros prev rh l Hlist Hrh.
  { inversion Hlist; subst; [done|]. by exists prev, rh. }
  inversion Hlist as [|? l1 _ Hrest]; subst; [done|].
  remember (S steps `min` (length (rh :: l1) - 1))%nat as m eqn:Hm.
  cbn [seek_release_head]. unfold block_next.
  destruct (Z.eqb_spec rh 0) as [|_]; [done|]. cbn [mbind option_bind].
  destruct (Z.eqb_spec (load s (rh + 8)) 0) as [Hz|Hnz].
  { rewrite Hz in Hrest. apply is_list_null in Hrest as ->.
    simpl in Hm. subst m. by exists prev, rh. }
  destruct (IH rh (load s (rh + 8)) l1 Hrest Hnz) as (prev' & rh' & -> & Hat & Hprev).
  exists prev', rh'. split; [done|].
  destruct l1 as [|x l1]; [by inversion Hrest|].
  assert (m = S (steps `min` (length (x :: l1) - 1))) as ->
    by (simpl in Hm |- *; lia).
  split; [exact Hat|].
  destruct (steps `min` (length (x :: l1) - 1))%nat as [|m] eqn:Hmin.
  - by subst.
  - done.
Qed.

(** Writing [nullptr] into the [next] field of the block at position [m]
    leaves the first [m + 1] blocks as the list. *)
Lemma is_list_cut s prev :
  ∀ m head l,
    is_list s head l → l !! m = Some prev →
    is_list (store (prev + 8) 0 s) head (take (S m) l).
Proof.
  induction m as [|m IH]; intros head l Hlist Hat.
  - inversion Hlist as [|b l1 Hb Hrest]; subst; [done|].
    injection Hat as ->. simpl. rewrite take_0.
    constructor; [done|]. rewrite load_store_eq. constructor.
  - pose proof (is_list_NoDup _ _ _ Hlist) as Hnd.
    inversion Hlist as [|b l1 Hb Hrest]; subst; [done|].
    simpl in Hat. apply NoDup_cons in Hnd as [Hfresh _].
    assert (head ≠ prev)
      by (intros ->; apply Hfresh; by eapply list_elem_of_lookup_2).
    change (take (S (S m)) (head :: l1)) with (head :: take (S m) l1).
    constructor; [done|]. rewrite load_store_ne by lia. by apply IH.
Qed.

(** One round of [reclaimIdleMemory], seen from the lists. *)
Lemma reclaim_class_lists i reclaimed p s reclaimed' p' s' total_size c head l :
  vec_get (block_sizes_ p) i = Some total_size →
  vec_get (free_block_counts_ p) i = Some c →
  vec_get (free_lists_ p) i = Some head →
  in_range total_size → in_range c →
  is_list s head l →
  reclaim_class i (reclaimed, p, s) = Some (reclaimed', p', s') →
  ∃ head',
    free_lists_ p' = <[Z.to_nat i := head']> (free_lists_ p) ∧
    is_list s' head' (kept_blocks total_size c l) ∧
    ∀ head2 l2, is_list s head2 l2 → (∀ x, x ∈ l → x ∉ l2) → is_list s' head2 l2.
Proof.
  intros Hsz Hc Hhead Hrsz Hrc Hlist Hrun.
  pose proof (vec_get_Some _ _ _ Hhead) as [_ Hhead'].
  assert (Hidle : reclaimed' = reclaimed ∧ p' = p ∧ s' = s →
                  release_count total_size c = 0 →
                  ∃ head', free_lists_ p' = <[Z.to_nat i := head']> (free_lists_ p) ∧
                    is_list s' head' (kept_blocks total_size c l) ∧
                    ∀ head2 l2, is_list s head2 l2 → (∀ x, x ∈ l → x ∉ l2) →
                                is_list s' head2 l2).
  { intros (_ & -> & ->) Hz. exists head. rewrite list_insert_id by done.
    unfold kept_blocks. rewrite Hz. simpl. done. }
  unfold reclaim_class in Hrun. rewrite Hsz, Hc in Hrun. simpl in Hrun.
  pose proof (eq_refl (release_count total_size c)) as Hdef.
  unfold release_count at 2 in Hdef.
  destruct (Z.leb_spec c RESERVE_BLOCK_COUNT) as [Hle|Hgt].
  { injection Hrun as <- <- <-. by apply Hidle. }
  destruct (Z.eqb_spec total_size 0) as [|Hnz]; [done|].
  assert (0 < total_size) as Hpos by (unfold in_range in Hrsz; lia).
  pose proof (release_count_spec total_size c Hrc Hpos) as Hspec.
  simpl in Hspec, Hdef.
  destruct (PAGE_SIZE / total_size =? 0).
  { injection Hrun as <- <- <-. by apply Hidle. }
  rewrite <- Hdef in Hrun. clear Hdef.
  set (rc := release_count total_size c) in *.
  destruct Hspec as (Hrc0 & Hrcc & Hrem & _ & _).
  destruct (Z.eqb_spec rc 0) as [Hz|Hne].
  { injection Hrun as <- <- <-. by apply Hidle. }
  clear Hidle. destruct Hrem as [|Hrem]; [done|].
  rewrite Hhead in Hrun. simpl in Hrun.
  unfold in_range, RESERVE_BLOCK_COUNT in *.
  rewrite (wrap_small (c - rc)) in Hrun by lia.
  rewrite (wrap_small (c - rc - 1)) in Hrun by lia.
  apply bind_Some in Hrun as ([prev rh] & Hseek & Hrun).
  assert (head ≠ 0) as Hnonnull.
  { intros ->. destruct (Z.to_nat (c - rc - 1)) as [|n] eqn:E; [lia|].
    simpl in Hseek. done. }
  destruct (seek_release_head_walks s (Z.to_nat (c - rc - 1)) 0 head l Hlist Hnonnull)
    as (prev' & rh' & Hseek' & Hat & Hprev).
  rewrite Hseek' in Hseek. injection Hseek as -> ->.
  pose proof (is_list_nonzero _ _ _ _ Hlist (list_elem_of_lookup_2 _ _ _ Hat)) as Hrh.
  destruct (Z.eqb_spec rh 0) as [|_]; [done|].
  apply bind_Some in Hrun as ([fl s1] & Hcut & Hrun).
  apply bind_Some in Hrun as (counts & Hcounts & Hrun).
  injection Hrun as <- <- <-. simpl.
  unfold kept_blocks. fold rc. destruct (decide (0 < rc)) as [_|]; [|lia].
  destruct (Z.to_nat (c - rc - 1) `min` (length l - 1))%nat as [|m].
  - subst prev. simpl in Hcut.
    apply bind_Some in Hcut as (fl' & Hfl & Hcut). injection Hcut as <- <-.
    apply vec_set_Some in Hfl as [_ ->].
    exists 0. split; [done|]. rewrite take_0. split; [constructor|].
    intros head2 l2 Hl2 _. by apply is_list_free.
  - pose proof (is_list_nonzero _ _ _ _ Hlist (list_elem_of_lookup_2 _ _ _ Hprev))
      as Hp.
    destruct (Z.eqb_spec prev 0) as [|_]; [done|].
    apply bind_Some in Hcut as (s2 & Hs2 & Hcut). injection Hcut as <- <-.
    unfold set_block_next in Hs2. destruct (Z.eqb_spec prev 0) as [|_]; [done|].
    injection Hs2 as <-.
    exists head. rewrite list_insert_id by done. split; [done|].
    split.
    + apply is_list_free. by apply is_list_cut.
    + intros head2 l2 Hl2 Hsep. apply is_list_free, is_list_store_other; [done|].
      apply Hsep. by eapply list_elem_of_lookup_2.
Qed.

Lemma kept_blocks_elem_of total_size c l x : x ∈ kept_blocks total_size c l → x ∈ l.
Proof.
  unfold kept_blocks. destruct (decide _); [|done]. apply subseteq_take.
Qed.

Lemma reclaim_loop_lists rounds :
  ∀ n reclaimed p s reclaimed' p' s' (ls : list (list Z)),
    (n + rounds = length (block_sizes_ p))%nat →
    length (free_block_counts_ p) = length (block_sizes_ p) →
    length (free_lists_ p) = length (block_sizes_ p) →
    Forall in_range (block_sizes_ p) → Forall in_range (free_block_counts_ p) →
    Forall2 (is_list s) (free_lists_ p) ls →
    (∀ k k' l l' x, k ≠ k' → ls !! k = Some l → ls !! k' = Some l' →
                    x ∈ l → x ∉ l') →
    reclaim_loop rounds (Z.of_nat n) (reclaimed, p, s) = Some (reclaimed', p', s') →
    ∀ (k : nat) total_size c l,
      block_sizes_ p !! k = Some total_size →
      free_block_counts_ p !! k = Some c →
      ls !! k = Some l →
      ∃ head',
        free_lists_ p' !! k = Some head' ∧
        is_list s' head'
          (if decide (n ≤ k)%nat then kept_blocks total_size c l else l).
Proof.
  induction rounds as [|rounds IH];
    intros n r p s r' p' s' ls Hn Hlen Hlenf Hsizes Hcounts Hlists Hsep Hrun
      k sz c l Hsz Hc Hl.
  { simpl in Hrun. injection Hrun as <- <- <-.
    destruct (decide (n ≤ k)%nat) as [Hle|_];
      [apply lookup_lt_Some in Hsz; lia|].
    destruct (lookup_lt_is_Some_2 (free_lists_ p) k) as [head Hhead];
      [apply lookup_lt_Some in Hsz; lia|].
    exists head. split; [done|].
    exact (Forall2_lookup_lr _ _ _ _ _ _ Hlists Hhead Hl). }
  simpl in Hrun. apply bind_Some in Hrun as ([[r1 p1] s1] & Hstep & Hrun).
  pose proof (Forall2_length _ _ _ Hlists) as Hlenl.
  destruct (lookup_lt_is_Some_2 (block_sizes_ p) n) as [szn Hszn]; [lia|].
  destruct (lookup_lt_is_Some_2 (free_block_counts_ p) n) as [cn Hcn]; [lia|].
  destruct (lookup_lt_is_Some_2 (free_lists_ p) n) as [headn Hheadn]; [lia|].
  destruct (lookup_lt_is_Some_2 ls n) as [ln Hln]; [lia|].
  pose proof (Forall_lookup_1 _ _ _ _ Hsizes Hszn) as Hrsz.
  pose proof (Forall_lookup_1 _ _ _ _ Hcounts Hcn) as Hrc.
  pose proof (Forall2_lookup_lr _ _ _ _ _ _ Hlists Hheadn Hln) as Hlistn.
  pose proof (reclaim_class_effect (Z.of_nat n) r p s r1 p1 s1 szn cn) as Heff.
  pose proof (reclaim_class_lists (Z.of_nat n) r p s r1 p1 s1 szn cn headn ln) as Hcut.
  rewrite !vec_get_nat in Heff.
  rewrite (vec_get_nat (block_sizes_ p)), (vec_get_nat (free_block_counts_ p)),
    (vec_get_nat (free_lists_ p)) in Hcut.
  destruct (Heff Hszn Hcn Hrsz Hrc Hstep) as [Hpos Hcases]. clear Heff.
  destruct (Hcut Hszn Hcn Hheadn Hrsz Hrc Hlistn Hstep)
    as (head1 & Hfl1 & Hkept & Hframe). clear Hcut.
  rewrite Nat2Z.id in Hfl1.
  replace (Z.of_nat n + 1) with (Z.of_nat (S n)) in Hrun by lia.
  assert (block_sizes_ p1 = block_sizes_ p ∧
          length (free_block_counts_ p1) = length (free_block_counts_ p) ∧
          Forall in_range (free_block_counts_ p1) ∧
          ∀ j, j ≠ n → free_block_counts_ p1 !! j = free_block_counts_ p !! j)
    as (Hsz1 & Hlen1 & Hcounts1 & Hother1).
  { destruct Hcases as [(_ & _ & -> & _)|(Hnz & _ & fl & _ & ->)]; [done|].
    simpl. rewrite length_insert, Nat2Z.id.
    split; [done|]. split; [done|]. split.
    - apply Forall_insert; [done|].
      assert (0 < szn) as Hp.
      { destruct Hpos as [Hle|]; [|done]. unfold release_count in Hnz.
        destruct (Z.leb_spec cn RESERVE_BLOCK_COUNT); lia. }
      pose proof (release_count_spec szn cn Hrc Hp) as Hspec. simpl in Hspec.
      unfold in_range in *. lia.
    - intros j Hj. by rewrite list_lookup_insert_ne. }
  assert (Forall2 (is_list s1) (free_lists_ p1) (<[n := kept_blocks szn cn ln]> ls))
    as Hlists1.
  { rewrite Hfl1. apply Forall2_same_length_lookup_2; [by rewrite !length_insert|].
    intros j hd lj Hhd Hlj.
    destruct (decide (j = n)) as [->|Hj].
    - rewrite list_lookup_insert_eq in Hhd by lia.
      rewrite list_lookup_insert_eq in Hlj by lia.
      injection Hhd as <-. by injection Hlj as <-.
    - rewrite list_lookup_insert_ne in Hhd by done.
      rewrite list_lookup_insert_ne in Hlj by done.
      apply Hframe.
      + exact (Forall2_lookup_lr _ _ _ _ _ _ Hlists Hhd Hlj).
      + intros x Hx. by apply (Hsep n j ln lj x). }
  assert (∀ k k' l l' x, k ≠ k' →
            <[n := kept_blocks szn cn ln]> ls !! k = Some l →
            <[n := kept_blocks szn cn ln]> ls !! k' = Some l' →
            x ∈ l → x ∉ l') as Hsep1.
  { intros j j' lj lj' x Hjj Hlj Hlj' Hx Hx'.
    assert (∀ i li, <[n := kept_blocks szn cn ln]> ls !! i = Some li →
              x ∈ li → ∃ li0, ls !! i = Some li0 ∧ x ∈ li0) as Hback.
    { intros i li Hli Hxi. destruct (decide (i = n)) as [->|Hi].
      - rewrite list_lookup_insert_eq in Hli by lia. injection Hli as <-.
        exists ln. split; [done|]. by eapply kept_blocks_elem_of.
      - rewrite list_lookup_insert_ne in Hli by done. by exists li. }
    destruct (Hback j lj Hlj Hx) as (lj0 & Hlj0 & Hx0).
    destruct (Hback j' lj' Hlj' Hx') as (lj0' & Hlj0' & Hx0').
    by apply (Hsep j j' lj0 lj0' x). }
  specialize (IH (S n) r1 p1 s1 r' p' s' (<[n := kept_blocks szn cn ln]> ls)
                ltac:(rewrite Hsz1; lia) ltac:(rewrite Hsz1; lia)
                ltac:(rewrite Hfl1, length_insert, Hsz1; lia)
                ltac:(by rewrite Hsz1) Hcounts1 Hlists1 Hsep1 Hrun).
  rewrite Hsz1 in IH.
  destruct (decide (k = n)) as [->|Hk].
  - rewrite Hszn in Hsz. injection Hsz as <-.
    rewrite Hcn in Hc. injection Hc as <-.
    rewrite Hln in Hl. injection Hl as <-.
    destruct (lookup_lt_is_Some_2 (free_block_counts_ p1) n) as [c1 Hc1]; [lia|].
    destruct (IH n szn c1 (kept_blocks szn cn ln) Hszn Hc1)
      as (head' & Hhead' & Hlist'); [apply list_lookup_insert_eq; lia|].
    exists head'. split; [done|].
    destruct (decide (S n ≤ n)%nat); [lia|].
    by destruct (decide (n ≤ n)%nat); [|lia].
  - destruct (IH k sz c l Hsz) as (head' & Hhead' & Hlist');
      [by rewrite Hother1|by rewrite list_lookup_insert_ne|].
    exists head'. split; [done|].
    destruct (decide (S n ≤ k)%nat); destruct (decide (n ≤ k)%nat); try done; lia.
Qed.

(** X21. What [reclaimIdleMemory] leaves of each class, on null-terminated
    lists that share no block.  A class with at most [RESERVE_BLOCK_COUNT]
    counted blocks keeps its count and its list.  A larger count stays at or
    above [RESERVE_BLOCK_COUNT] and drops by a multiple of the blocks per
    page.  The list of a class that gives up blocks is cut after
    [remaining - 1] blocks ([kept_blocks]), not after [remaining]: when the
    count was the length of the list, the list ends one block shorter than
    the count, so with [RESERVE_BLOCK_COUNT - 1] blocks where the count
    ends at [RESERVE_BLOCK_COUNT]. *)
Theorem reclaimIdleMemory_reserve_and_lists
    (p : BaseMemoryPool) (s : System) (ls : list (list Z)) (reclaimed : Z)
    (p' : BaseMemoryPool) (s' : System) :
  length (free_block_counts_ p) = length (block_sizes_ p) →
  length (free_lists_ p) = length (block_sizes_ p) →
  Forall in_range (block_sizes_ p) →
  Forall in_range (free_block_counts_ p) →
  in_range (total_free_memory_ p) →
  Forall2 (is_list s) (free_lists_ p) ls →
  NoDup (concat ls) →
  reclaimIdleMemory p s = Some (reclaimed, p', s') →
  ∀ (k : nat) total_size c l,
    block_sizes_ p !! k = Some total_size →
    free_block_counts_ p !! k = Some c →
    ls !! k = Some l →
    ∃ c' head',
      free_block_counts_ p' !! k = Some c' ∧
      0 ≤ c' ≤ c ∧
      (c ≤ RESERVE_BLOCK_COUNT → c' = c) ∧
      (RESERVE_BLOCK_COUNT < c → RESERVE_BLOCK_COUNT ≤ c') ∧
      (c - c') mod (PAGE_SIZE / total_size) = 0 ∧
      free_lists_ p' !! k = Some head' ∧
      is_list s' head' (kept_blocks total_size c l) ∧
      (c' = c → kept_blocks total_size c l = l) ∧
      (c' < c → c = Z.of_nat (length l) →
       Z.of_nat (length (kept_blocks total_size c l)) = c' - 1).
Proof.
  intros Hlen Hlenf Hsizes Hcounts HT Hlists Hnd Hrun k sz c l Hsz Hc Hl.
  unfold reclaimIdleMemory in Hrun. pose proof Hrun as Hrun'.
  apply (reclaim_loop_effect _ 0%nat) in Hrun
    as (_ & _ & Hsettle & _ & _ & Hpos & _);
    [|done|done|done|done|unfold in_range, SIZE_MODULUS; lia|done].
  rewrite !drop_0 in *. simpl in Hsettle.
  destruct (reclaim_loop_lists _ 0%nat _ _ _ _ _ _ ls eq_refl Hlen Hlenf Hsizes
              Hcounts Hlists ltac:(intros ? ? ? ? ? ?; by apply NoDup_concat_lookup)
              Hrun' k sz c l Hsz Hc Hl) as (head' & Hhead' & Hlist').
  destruct (decide (0 ≤ k)%nat) as [_|]; [|lia].
  pose proof (Forall_lookup_1 _ _ _ _ Hcounts Hc) as Hrc.
  pose proof (Forall2_lookup_lr _ _ _ _ _ _ Hpos Hsz Hc) as Hok.
  exists (c - release_count sz c), head'. split.
  { rewrite Hsettle. unfold settle. apply lookup_zip_with_Some. by exists sz, c. }
  replace (c - (c - release_count sz c)) with (release_count sz c) by lia.
  assert (0 ≤ release_count sz c ≤ c ∧
          (c ≤ RESERVE_BLOCK_COUNT → release_count sz c = 0) ∧
          (RESERVE_BLOCK_COUNT < c → RESERVE_BLOCK_COUNT ≤ c - release_count sz c) ∧
          release_count sz c mod (PAGE_SIZE / sz) = 0) as (Hb & Hsmall & Hres & Hpages).
  { destruct (decide (0 < sz)) as [Hp|Hnp].
    - pose proof (release_count_spec sz c Hrc Hp) as Hspec. simpl in Hspec.
      pose proof (release_count_whole_pages sz c Hrc Hp) as Hwhole.
      destruct Hspec as (H0 & Hle & Hr & _ & _).
      split; [lia|]. split; [|split; [lia|done]].
      intros Hs. unfold release_count.
      by destruct (Z.leb_spec c RESERVE_BLOCK_COUNT); [|lia].
    - destruct Hok as [Hle|]; [|done].
      assert (release_count sz c = 0) as ->.
      { unfold release_count. by destruct (Z.leb_spec c RESERVE_BLOCK_COUNT); [|lia]. }
      unfold in_range in Hrc. rewrite Zmod_0_l. repeat split; lia. }
  split; [lia|]. split; [intros Hs; rewrite Hsmall by done; lia|].
  split; [done|]. split; [done|]. split; [done|]. split; [done|].
  unfold kept_blocks. split.
  - intros Hsame. by destruct (decide (0 < release_count sz c)); [lia|].
  - intros Hless Hcl. destruct (decide (0 < release_count sz c)); [|lia].
    rewrite length_take. unfold RESERVE_BLOCK_COUNT in *. lia.
Qed.

Lemma six_free_heap_list :
  Forall2 (is_list six_free_heap) (free_lists_ six_free_pool)
    [[65536; 131072; 196608; 262144; 327680; 393216]].
Proof.
  simpl. apply Forall2_cons_2; [|apply Forall2_nil_2].
  apply (list_blocks_is_list 7). by vm_compute.
Qed.

Lemma reclaimIdleMemory_reserve_and_lists_witness :
  ∃ reclaimed p' s' c' head',
    reclaimIdleMemory six_free_pool six_free_heap = Some (reclaimed, p', s') ∧
    free_block_counts_ p' !! 0%nat = Some c' ∧
    RESERVE_BLOCK_COUNT ≤ c' ∧
    free_lists_ p' !! 0%nat = Some head' ∧
    is_list s' head' [65536; 131072; 196608] ∧
    (c' < 6 → 3 = c' - 1).
Proof.
  destruct (reclaimIdleMemory six_free_pool six_free_heap)
    as [[[reclaimed p'] s']|] eqn:Hrun; [|vm_compute in Hrun; discriminate Hrun].
  destruct (reclaimIdleMemory_reserve_and_lists six_free_pool six_free_heap
              [[65536; 131072; 196608; 262144; 327680; 393216]] reclaimed p' s')
    with (k := 0%nat) (total_size := 2064) (c := 6)
         (l := [65536; 131072; 196608; 262144; 327680; 393216])
    as (c' & head' & Hc' & _ & _ & Hreserve & _ & Hhead' & Hlist' & _ & Hshort);
    [reflexivity|reflexivity|by repeat constructor|by repeat constructor
    |by vm_compute|exact six_free_heap_list|apply (bool_decide_unpack _); by vm_compute
    |exact Hrun|reflexivity|reflexivity|reflexivity|].
  exists reclaimed, p', s', c', head'. split; [reflexivity|].
  split; [exact Hc'|]. split; [apply Hreserve; reflexivity|].
  split; [exact Hhead'|]. split; [exact Hlist'|].
  intros Hless. exact (Hshort Hless eq_refl).
Defined.

(** * Further properties: [transferTo] and the exit of a thread *)

Lemma last_block_last fuel s head l :
  is_list s head l → head ≠ 0 → (length l ≤ fuel)%nat →
  ∃ l0 lst, l = l0 ++ [lst] ∧ last_block fuel head s = Some lst ∧ lst ≠ 0.
Proof.
  intros Hlist. revert fuel.
  induction Hlist as [|b l Hb Hl IH]; intros fuel Hhead Hfuel; [done|].
  destruct fuel as [|fuel]; [simpl in Hfuel; lia|].
  simpl. unfold block_next. destruct (Z.eqb_spec b 0) as [|_]; [done|]. simpl.
  destruct (Z.eqb_spec (load s (b + 8)) 0) as [Hz|Hnz].
  - rewrite Hz in Hl. apply is_list_null in Hl as ->. by exists [], b.
  - destruct (IH fuel Hnz) as (l0 & lst & -> & Hlast & Hne).
    { simpl in Hfuel. lia. }
    by exists (b :: l0), lst.
Qed.

Lemma is_list_app_store s l0 lst h2 l2 :
  ∀ head,
    is_list s head (l0 ++ [lst]) → lst ∉ l0 →
    is_list s h2 l2 → lst ∉ l2 →
    is_list (store (lst + 8) h2 s) head (l0 ++ [lst] ++ l2).
Proof.
  induction l0 as [|x l0 IH]; intros head Hlist Hl0 Hl2 Hsep; simpl in *.
  - inversion Hlist as [|? ? Hne _]; subst.
    constructor; [done|]. rewrite load_store_eq. by apply is_list_store_other.
  - inversion Hlist as [|? ? Hne Hrest]; subst.
    apply not_elem_of_cons in Hl0 as [Hx Hl0].
    constructor; [done|]. rewrite load_store_ne by lia. by apply IH.
Qed.

Lemma transfer_loop_lists fuel rounds :
  ∀ n src dest s (ls ld : list (list Z)),
    (n + rounds = length (free_lists_ src))%nat →
    StronglySorted Z.lt (block_sizes_ src) →
    block_sizes_ dest = block_sizes_ src →
    length (block_sizes_ src) = length (free_lists_ src) →
    length (free_block_counts_ src) = length (free_lists_ src) →
    length (free_lists_ dest) = length (block_sizes_ dest) →
    length (free_block_counts_ dest) = length (block_sizes_ dest) →
    length ls = length (free_lists_ src) →
    (∀ k head l, (n ≤ k)%nat → free_lists_ src !! k = Some head → ls !! k = Some l →
                 is_list s head l ∧ (length l ≤ fuel)%nat) →
    Forall2 (is_list s) (free_lists_ dest) ld →
    (∀ k k' l l' x, (n ≤ k)%nat → k ≠ k' → ls !! k = Some l → ls !! k' = Some l' →
                    x ∈ l → x ∉ l') →
    (∀ k k' l l' x, (n ≤ k)%nat → ls !! k = Some l → ld !! k' = Some l' →
                    x ∈ l → x ∉ l') →
    ∃ src' dest' s',
      transfer_loop fuel rounds (Z.of_nat n) (src, dest, s) = Some (src', dest', s') ∧
      block_sizes_ dest' = block_sizes_ dest ∧
      Forall2 (is_list s') (free_lists_ dest')
        (take n ld ++ zip_with app (drop n ls) (drop n ld)).
Proof.
  induction rounds as [|rounds IH];
    intros n src dest s ls ld Hn Hsorted Htable Hls Hlc Hdf Hdc Hlen Hsrc Hdest
      Hsep Hsep'; pose proof (f_equal length Htable) as Htl.
  { exists src, dest, s. split; [done|]. split; [done|].
    rewrite (drop_ge ls) by lia. simpl. rewrite app_nil_r, take_ge; [done|].
    apply Forall2_length in Hdest. lia. }
  cbn [transfer_loop].
  destruct (lookup_lt_is_Some_2 (free_lists_ src) n) as [head Hhead]; [lia|].
  destruct (lookup_lt_is_Some_2 (block_sizes_ src) n) as [sz Hsz]; [lia|].
  destruct (lookup_lt_is_Some_2 (free_block_counts_ src) n) as [c Hc]; [lia|].
  destruct (lookup_lt_is_Some_2 ls n) as [l Hl]; [lia|].
  pose proof (Forall2_length _ _ _ Hdest) as Hldlen.
  destruct (lookup_lt_is_Some_2 ld n) as [l' Hl']; [lia|].
  destruct (lookup_lt_is_Some_2 (free_lists_ dest) n) as [dh Hdh]; [lia|].
  destruct (lookup_lt_is_Some_2 (free_block_counts_ dest) n) as [dc Hdcn]; [lia|].
  destruct (Hsrc n head l ltac:(lia) Hhead Hl) as [Hlist Hfuel].
  pose proof (Forall2_lookup_lr _ _ _ _ _ _ Hdest Hdh Hl') as Hdlist.
  unfold transfer_class. rewrite !vec_get_nat, Hhead. cbn [mbind option_bind].
  replace (Z.of_nat n + 1) with (Z.of_nat (S n)) by lia.
  rewrite (drop_lookup_cons _ _ _ Hl), (drop_lookup_cons _ _ _ Hl').
  cbn [zip_with].
  destruct (Z.eqb_spec head 0) as [->|Hne].
  { cbn [mbind option_bind]. apply is_list_null in Hlist as ->. simpl.
    destruct (IH (S n) src dest s ls ld) as (src' & dest' & s' & Hrun & Hsz' & Hlists);
      try done; try lia.
    - intros k hd lk Hk. apply Hsrc. lia.
    - intros k k' l1 l2 x Hk. apply Hsep. lia.
    - intros k k' l1 l2 x Hk. apply Hsep'. lia.
    - exists src', dest', s'. split; [done|]. split; [done|].
      by rewrite (take_S_r _ _ _ Hl'), <- app_assoc in Hlists. }
  rewrite Hsz. cbn [mbind option_bind]. rewrite find_or_add.
  rewrite (addBlockSizeIfNotExist_present dest n sz) by (by rewrite Htable).
  destruct (Z.eqb_spec (Z.of_nat n) (-1)) as [|_]; [lia|].
  destruct (last_block_last fuel s head l Hlist Hne Hfuel)
    as (l0 & lst & -> & -> & Hlst).
  cbn [mbind option_bind]. rewrite !vec_get_nat, Hdh, Hdcn, Hc.
  cbn [mbind option_bind]. unfold set_block_next.
  destruct (Z.eqb_spec lst 0) as [|_]; [done|]. cbn [mbind option_bind].
  rewrite !vec_set_in_range by lia. cbn [mbind option_bind].
  rewrite Nat2Z.id.
  assert (lst ∈ l0 ++ [lst]) as Hin
    by (apply elem_of_app; right; by apply list_elem_of_singleton).
  assert (lst ∉ l0) as Hfresh.
  { apply is_list_NoDup in Hlist. apply NoDup_app in Hlist as (_ & Hdisj & _).
    intros Hx. apply (Hdisj lst Hx). by apply list_elem_of_singleton. }
  edestruct (IH (S n)) with (ls := ls) (ld := <[n := (l0 ++ [lst]) ++ l']> ld)
    as (src' & dest' & s' & Hrun & Hsz' & Hlists).
  13: { exists src', dest', s'. split; [exact Hrun|]. split; [exact Hsz'|].
        rewrite drop_insert_lt in Hlists by lia.
        rewrite (take_S_r _ _ ((l0 ++ [lst]) ++ l')) in Hlists
          by (rewrite list_lookup_insert_eq; [done|lia]).
        rewrite take_insert_ge in Hlists by lia.
        by rewrite <- app_assoc in Hlists. }
  all: simpl; rewrite ?length_insert; try done; try lia.
  - intros k hd lk Hk Hhd Hlk. rewrite list_lookup_insert_ne in Hhd by lia.
    destruct (Hsrc k hd lk ltac:(lia) Hhd Hlk) as [Hlist' Hfuel'].
    split; [|done]. apply is_list_store_other; [done|].
    apply (Hsep n k (l0 ++ [lst]) lk lst); try done; lia.
  - apply Forall2_insert.
    + apply Forall2_same_length_lookup_2; [done|].
      intros k hd lk Hhd Hlk.
      apply (is_list_store_other _ _ _ lst dh).
      * eapply Forall2_lookup_lr; [exact Hdest|exact Hhd|exact Hlk].
      * by apply (Hsep' n k (l0 ++ [lst]) lk lst).
    + rewrite <- app_assoc. apply is_list_app_store; try done.
      by apply (Hsep' n n (l0 ++ [lst]) l' lst).
  - intros k k' l1 l2 x Hk. apply Hsep. lia.
  - intros k k' l1 l2 x Hk Hl1 Hl2 Hx.
    destruct (decide (k' = n)) as [->|Hk'].
    + rewrite list_lookup_insert_eq in Hl2 by lia. injection Hl2 as <-.
      intros [Hx'|Hx']%elem_of_app.
      * by apply (Hsep k n l1 (l0 ++ [lst]) x ltac:(lia) ltac:(lia)).
      * by apply (Hsep' k n l1 l' x ltac:(lia)).
    + rewrite list_lookup_insert_ne in Hl2 by done.
      by apply (Hsep' k k' l1 l2 x ltac:(lia)).
Qed.

(** X14. When the two pools have the same sorted class table and their
    lists are null-terminated and share no block, [transferTo] returns and
    each list of the destination becomes the source list of that class
    followed by the old destination list: no block is lost or duplicated.
    Counts that equalled the list lengths before still do afterwards. *)
Theorem transferTo_splices_lists
    (fuel : nat) (src dest : BaseMemoryPool) (s : System) (ls ld : list (list Z)) :
  StronglySorted Z.lt (block_sizes_ src) →
  block_sizes_ dest = block_sizes_ src →
  length (free_lists_ src) = length (block_sizes_ src) →
  length (free_block_counts_ src) = length (block_sizes_ src) →
  length (free_lists_ dest) = length (block_sizes_ dest) →
  length (free_block_counts_ dest) = length (block_sizes_ dest) →
  Forall2 (is_list s) (free_lists_ src) ls →
  Forall2 (is_list s) (free_lists_ dest) ld →
  Forall (λ l, (length l ≤ fuel)%nat) ls →
  NoDup (concat ls ++ concat ld) →
  ∃ src' dest' s',
    transferTo fuel src dest s = Some (src', dest', s') ∧
    block_sizes_ dest' = block_sizes_ dest ∧
    Forall2 (is_list s') (free_lists_ dest') (zip_with app ls ld) ∧
    (Forall2 (λ c l, c = wrap (Z.of_nat (length l))) (free_block_counts_ src) ls →
     Forall2 (λ c l, c = wrap (Z.of_nat (length l))) (free_block_counts_ dest) ld →
     Forall2 (λ c l, c = wrap (Z.of_nat (length l)))
       (free_block_counts_ dest') (zip_with app ls ld)).
Proof.
  intros Hsorted Htable Hlf Hlc Hdf Hdc Hsrc Hdest Hfuel Hnd.
  apply NoDup_app in Hnd as (Hnd1 & Hcross & Hnd2).
  pose proof (Forall2_length _ _ _ Hsrc) as Hlen.
  pose proof (Forall2_length _ _ _ Hdest) as Hlen'.
  pose proof (f_equal length Htable) as Htl.
  destruct (transfer_loop_lists fuel (length (free_lists_ src)) 0 src dest s ls ld)
    as (src' & dest' & s' & Hrun & Hsz' & Hlists); try done; try lia.
  { intros k head l _ Hhead Hl. split.
    - exact (Forall2_lookup_lr _ _ _ _ _ _ Hsrc Hhead Hl).
    - by apply (Forall_lookup_1 _ _ _ _ Hfuel Hl). }
  { intros k k' l l' x _. by apply NoDup_concat_lookup. }
  { intros k k' l l' x _ Hl Hl' Hx Hx'.
    apply (Hcross x); by eapply concat_lookup_elem_of. }
  rewrite take_0, !drop_0 in Hlists. simpl in Hlists.
  exists src', dest', s'. split; [exact Hrun|]. split; [exact Hsz'|].
  split; [exact Hlists|].
  intros Hcs Hcd.
  destruct (transfer_loop_classes fuel (length (free_lists_ src)) 0 src dest s
              src' dest' s') as [[Hsorted' Hlc'] Hclasses].
  { split; [by rewrite Htable|done]. }
  { by apply StronglySorted_lt_NoDup. }
  { exact Hrun. }
  apply Forall2_same_length_lookup_2.
  { rewrite Hlc', length_zip_with, Hsz'. lia. }
  intros k c' lk Hc' Hlk.
  apply lookup_zip_with_Some in Hlk as (l & l' & -> & Hl & Hl').
  destruct (lookup_lt_is_Some_2 (block_sizes_ src) k) as [y Hy];
    [apply lookup_lt_Some in Hl; lia|].
  destruct (lookup_lt_is_Some_2 (free_lists_ src) k) as [head Hhead];
    [apply lookup_lt_Some in Hl; lia|].
  destruct (lookup_lt_is_Some_2 (free_block_counts_ src) k) as [c Hc];
    [apply lookup_lt_Some in Hl; lia|].
  destruct (lookup_lt_is_Some_2 (free_block_counts_ dest) k) as [dc Hdck];
    [apply lookup_lt_Some in Hl; lia|].
  pose proof (Forall2_lookup_lr _ _ _ _ _ _ Hcs Hc Hl) as Hcl.
  pose proof (Forall2_lookup_lr _ _ _ _ _ _ Hcd Hdck Hl') as Hdl.
  pose proof (Forall2_lookup_lr _ _ _ _ _ _ Hsrc Hhead Hl) as Hlist.
  assert (class_count dest' y = c') as Hcount'.
  { apply (class_count_lookup dest' k); [done|by rewrite Hsz', Htable|done]. }
  assert (class_count dest y = dc) as Hcount.
  { apply (class_count_lookup dest k); [by rewrite Htable|by rewrite Htable|done]. }
  destruct (Hclasses y) as [Hmoved Hkept].
  rewrite length_app, Nat2Z.inj_add.
  destruct (decide (head = 0)) as [->|Hne].
  - apply is_list_null in Hlist as ->. simpl.
    destruct Hkept as [Hsame _].
    { intros k' head' _ Hhead' Hy'.
      assert (k' = k) as ->.
      { exact (NoDup_lookup _ _ _ _ (StronglySorted_lt_NoDup _ Hsorted) Hy' Hy). }
      rewrite Hhead in Hhead'. by injection Hhead' as <-. }
    by rewrite <- Hcount', Hsame, Hcount, Hdl.
  - destruct (Hmoved k head c) as [_ Hsum]; try done.
    { apply lookup_lt_Some in Hl. lia. }
    rewrite <- Hcount', Hsum, Hcount, Hcl, Hdl, wrap_add_l, wrap_add_r.
    f_equal. lia.
Qed.

Lemma small_heap_lists :
  Forall2 (is_list small_heap) (free_lists_ two_classes) [[8192; 8224]; []] ∧
  Forall2 (is_list small_heap) (free_lists_ one_block_pool) [[16384]; []].
Proof.
  split; simpl;
    repeat (apply Forall2_cons_2; [apply (list_blocks_is_list 3); by vm_compute|]);
    apply Forall2_nil_2.
Qed.

Lemma transferTo_splices_lists_witness :
  ∃ src' dest' s',
    transferTo 2 two_classes one_block_pool small_heap = Some (src', dest', s') ∧
    Forall2 (is_list s') (free_lists_ dest') [[8192; 8224; 16384]; []] ∧
    Forall2 (λ c l, c = wrap (Z.of_nat (length l))) (free_block_counts_ dest')
      [[8192; 8224; 16384]; []].
Proof.
  destruct small_heap_lists as [Hsrc Hdest].
  destruct (transferTo_splices_lists 2 two_classes one_block_pool small_heap
              [[8192; 8224]; []] [[16384]; []])
    as (src' & dest' & s' & Hrun & _ & Hlists & Hcounts);
    [by repeat constructor|reflexivity|reflexivity|reflexivity|reflexivity|reflexivity
    |exact Hsrc|exact Hdest|repeat constructor; simpl; lia
    |apply (bool_decide_unpack _); by vm_compute|].
  exists src', dest', s'. split; [exact Hrun|]. split; [exact Hlists|].
  apply Hcounts; by repeat constructor.
Defined.

Lemma same_allocation_refl p : same_allocation p p.
Proof. done. Qed.

Lemma same_allocation_trans p q r :
  same_allocation p q → same_allocation q r → same_allocation p r.
Proof. intros (? & ? & ?) (? & ? & ?). repeat split; congruence. Qed.

Lemma addBlockSizeIfNotExist_same_allocation total_size p :
  same_allocation p (addBlockSizeIfNotExist total_size p).2.
Proof. unfold addBlockSizeIfNotExist. by destruct (negb _). Qed.

Lemma transfer_class_same_allocation fuel i src dest s src' dest' s' :
  transfer_class fuel i (src, dest, s) = Some (src', dest', s') →
  same_allocation src src' ∧ same_allocation dest dest'.
Proof.
  intros [(_ & -> & -> & _)|
          (head & sz & c & j & d0 & dc & dh & lst & _ & _ & _ & _ & Hadd & _ & _ & _ & _
           & -> & ->)]%transfer_class_inv; [done|].
  split; [done|].
  pose proof (addBlockSizeIfNotExist_same_allocation sz dest) as Hsame.
  by rewrite Hadd in Hsame.
Qed.

Lemma transfer_loop_same_allocation fuel rounds :
  ∀ i src dest s src' dest' s',
    transfer_loop fuel rounds i (src, dest, s) = Some (src', dest', s') →
    same_allocation src src' ∧ same_allocation dest dest'.
Proof.
  induction rounds as [|rounds IH]; intros i src dest s src' dest' s' Hrun.
  { by injection Hrun as <- <- <-. }
  simpl in Hrun. apply bind_Some in Hrun as ([[src1 dest1] s1] & Hstep & Hrun).
  apply transfer_class_same_allocation in Hstep as [Hs1 Hd1].
  apply IH in Hrun as [Hs2 Hd2].
  split; by eapply same_allocation_trans.
Qed.

Lemma reclaim_class_same_allocation i r p s r' p' s' :
  reclaim_class i (r, p, s) = Some (r', p', s') → same_allocation p p'.
Proof.
  unfold reclaim_class. intros Hrun.
  apply bind_Some in Hrun as (sz & _ & Hrun).
  apply bind_Some in Hrun as (c & _ & Hrun).
  repeat match type of Hrun with
         | (if ?b then _ else _) = _ =>
             destruct b; [by (injection Hrun as <- <- <-) || done|]
         end.
  apply bind_Some in Hrun as (head & _ & Hrun).
  apply bind_Some in Hrun as ([prev rh] & _ & Hrun).
  destruct (rh =? 0); [by injection Hrun as <- <- <-|].
  apply bind_Some in Hrun as ([fl s1] & _ & Hrun).
  apply bind_Some in Hrun as (counts & _ & Hrun).
  by injection Hrun as <- <- <-.
Qed.

Lemma reclaim_loop_same_allocation rounds :
  ∀ i r p s r' p' s',
    reclaim_loop rounds i (r, p, s) = Some (r', p', s') → same_allocation p p'.
Proof.
  induction rounds as [|rounds IH]; intros i r p s r' p' s' Hrun.
  { by injection Hrun as <- <- <-. }
  simpl in Hrun. apply bind_Some in Hrun as ([[r1 p1] s1] & Hstep & Hrun).
  apply reclaim_class_same_allocation in Hstep. apply IH in Hrun.
  by eapply same_allocation_trans.
Qed.

(** X15. The destructor of a thread's pool moves free bytes into the
    global pool, but leaves the global pool's operation counters and its
    [total_allocated_memory_] as they were.  The used bytes the global pool
    reports are therefore its old allocated bytes minus its new free bytes,
    modulo [2^64]: for a global pool that carved no page itself they are
    [2^64] minus the free bytes. *)
Theorem thread_exit_keeps_allocation_counters
    (fuel : nat) (l : ThreadLocalMemoryPool.t) (g : GlobalMemoryPool.t) (s : System)
    (g' : GlobalMemoryPool.t) (s' : System) :
  ThreadLocalMemoryPool.destroy fuel l g s = Some (g', s') →
  allocate_count (GlobalMemoryPool.getGlobalStats g')
  = allocate_count (GlobalMemoryPool.getGlobalStats g) ∧
  deallocate_count (GlobalMemoryPool.getGlobalStats g')
  = deallocate_count (GlobalMemoryPool.getGlobalStats g) ∧
  total_allocated_memory (GlobalMemoryPool.getGlobalStats g')
  = total_allocated_memory (GlobalMemoryPool.getGlobalStats g) ∧
  total_used_memory (GlobalMemoryPool.getGlobalStats g')
  = wrap (total_allocated_memory (GlobalMemoryPool.getGlobalStats g)
          - total_free_memory (GlobalMemoryPool.getGlobalStats g')) ∧
  (total_allocated_memory (GlobalMemoryPool.getGlobalStats g) = 0 →
   0 < total_free_memory (GlobalMemoryPool.getGlobalStats g') < SIZE_MODULUS →
   total_used_memory (GlobalMemoryPool.getGlobalStats g')
   = SIZE_MODULUS - total_free_memory (GlobalMemoryPool.getGlobalStats g')).
Proof.
  intros Hrun. unfold ThreadLocalMemoryPool.destroy in Hrun.
  apply bind_Some in Hrun as ([[src' g1] s1] & Hrun & Hout).
  injection Hout as <- <-.
  unfold GlobalMemoryPool.transferFrom in Hrun.
  apply bind_Some in Hrun as ([[src1 p1] s2] & Hmove & Hrun).
  apply transfer_loop_same_allocation in Hmove as [_ Hdest].
  assert (same_allocation p1 (GlobalMemoryPool.pool_ g1)) as Hrec.
  { destruct (MAX_GLOBAL_FREE_MEMORY <? total_free_memory (getStats p1)).
    - apply bind_Some in Hrun as ([[r p2] s3] & Hrec & Hrun).
      injection Hrun as _ <- _. by apply reclaim_loop_same_allocation in Hrec.
    - by injection Hrun as _ <- _. }
  destruct (same_allocation_trans _ _ _ Hdest Hrec) as (Hac & Hdc & Hta).
  unfold GlobalMemoryPool.getGlobalStats, getStats. simpl. rewrite Hac, Hdc, Hta.
  split; [done|]. split; [done|]. split; [done|]. split; [done|].
  intros -> Hfree.
  replace (0 - total_free_memory_ (GlobalMemoryPool.pool_ g1))
    with (SIZE_MODULUS - total_free_memory_ (GlobalMemoryPool.pool_ g1)
          + (-1) * SIZE_MODULUS) by lia.
  rewrite wrap_add_multiple. apply wrap_small. lia.
Qed.

Lemma thread_exit_keeps_allocation_counters_witness :
  ∃ g' s',
    ThreadLocalMemoryPool.destroy 2 {| ThreadLocalMemoryPool.pool_ := two_classes |}
      {| GlobalMemoryPool.pool_ := one_block_pool |} small_heap = Some (g', s') ∧
    total_allocated_memory (GlobalMemoryPool.getGlobalStats g') = 0 ∧
    total_used_memory (GlobalMemoryPool.getGlobalStats g')
    = SIZE_MODULUS - total_free_memory (GlobalMemoryPool.getGlobalStats g').
Proof.
  destruct (ThreadLocalMemoryPool.destroy 2
              {| ThreadLocalMemoryPool.pool_ := two_classes |}
              {| GlobalMemoryPool.pool_ := one_block_pool |} small_heap)
    as [[g' s']|] eqn:Hrun; [|vm_compute in Hrun; discriminate Hrun].
  destruct (thread_exit_keeps_allocation_counters 2 _ _ _ g' s' Hrun)
    as (_ & _ & Hta & _ & Hused).
  exists g', s'. split; [reflexivity|]. split; [exact Hta|].
  apply Hused; [reflexivity|].
  vm_compute in Hrun. injection Hrun as <- _. by vm_compute.
Defined.

(** * Further properties: the facade *)


(** X16. For a request above [MAX_USER_SIZE], [MemoryManager::allocate]
    returns what [malloc] returns and leaves both pools and their statistics
    unchanged.  [MemoryManager::deallocate] of that pointer decides by the
    word 16 bytes in front of it: when that word is below the smallest class
    total or names no class of the local pool, the pointer is passed to
    [free] and the pools stay unchanged; when it names a class, the buffer
    is linked into that class's list and is not freed. *)
Theorem facade_allocate_oversize (user_size : Z) (m : MemoryManager.state) :
  MAX_USER_SIZE < user_size →
  let p := (malloc (MemoryManager.system m)).1 in
  let s1 := (malloc (MemoryManager.system m)).2 in
  let m1 := {| MemoryManager.local_pool_ := MemoryManager.local_pool_ m;
               MemoryManager.global_pool := MemoryManager.global_pool m;
               MemoryManager.system := s1 |} in
  let local := ThreadLocalMemoryPool.pool_ (MemoryManager.local_pool_ m) in
  let word := load s1 (p - FREE_BLOCK_HEADER_SIZE) in
  MemoryManager.allocate user_size m = Some (p, m1) ∧
  MemoryManager.getLocalStats m1 = MemoryManager.getLocalStats m ∧
  MemoryManager.getGlobalStats m1 = MemoryManager.getGlobalStats m ∧
  (FREE_BLOCK_HEADER_SIZE < p →
   word < calcAlignedTotalSize MIN_USER_SIZE ∨ findBlockSizeIndex local word = -1 →
   MemoryManager.deallocate p m1
   = Some {| MemoryManager.local_pool_ := MemoryManager.local_pool_ m;
             MemoryManager.global_pool := MemoryManager.global_pool m;
             MemoryManager.system := free p s1 |}) ∧
  (FREE_BLOCK_HEADER_SIZE < p →
   calcAlignedTotalSize MIN_USER_SIZE ≤ word →
   findBlockSizeIndex local word ≠ -1 →
   length (free_lists_ local) = length (block_sizes_ local) →
   length (free_block_counts_ local) = length (block_sizes_ local) →
   ∃ m2,
     MemoryManager.deallocate p m1 = Some m2 ∧
     released (MemoryManager.system m2) = released (MemoryManager.system m) ∧
     vec_get (free_lists_ (ThreadLocalMemoryPool.pool_ (MemoryManager.local_pool_ m2)))
       (findBlockSizeIndex local word)
     = Some (p - FREE_BLOCK_HEADER_SIZE)).
Proof.
  intros Hbig p s1 m1 local word.
  assert (Halloc : ∀ q s, allocate user_size q s = Some (0, q, s)).
  { intros q s. unfold allocate.
    by destruct (Z.ltb_spec MAX_USER_SIZE user_size) as [_|]; [|lia]. }
  assert (Hreleased : released s1 = released (MemoryManager.system m)).
  { unfold s1, malloc. by destruct (malloc_results (MemoryManager.system m)). }
  split.
  { unfold MemoryManager.allocate, ThreadLocalMemoryPool.allocate,
      GlobalMemoryPool.allocate.
    rewrite Halloc. simpl. rewrite Halloc. simpl.
    unfold p, s1, m1. destruct (malloc (MemoryManager.system m)) as [q s2]. simpl.
    by destruct m as [[l] [g] s]. }
  split; [done|]. split; [done|].
  unfold MemoryManager.deallocate, ThreadLocalMemoryPool.deallocate. simpl.
  fold local. unfold FREE_BLOCK_HEADER_SIZE in *.
  split.
  - intros Hp Hword.
    destruct (Z.eqb_spec p 0) as [|_]; [lia|].
    unfold deallocate, block_size.
    destruct (Z.eqb_spec p 0) as [|_]; [lia|].
    unfold FREE_BLOCK_HEADER_SIZE.
    destruct (Z.eqb_spec (p - 16) 0) as [|_]; [lia|]. simpl. fold word.
    change (calcAlignedTotalSize MIN_USER_SIZE) with 24 in *.
    destruct (Z.eqb_spec word 0) as [|_]; simpl; [by destruct m as [[l] g s]|].
    destruct (Z.ltb_spec word 24) as [|Hge]; simpl; [by destruct m as [[l] g s]|].
    destruct Hword as [?|Hnone]; [lia|]. rewrite Hnone. simpl. by destruct m as [[l] g s].
  - intros Hp Hword Hfind Hlf Hlc.
    destruct (Z.eqb_spec p 0) as [|_]; [lia|].
    pose proof (findBlockSizeIndex_range local word) as [|Hrange]; [done|].
    destruct (lookup_lt_is_Some_2 (free_lists_ local)
                (Z.to_nat (findBlockSizeIndex local word))) as [head Hhead]; [lia|].
    destruct (lookup_lt_is_Some_2 (free_block_counts_ local)
                (Z.to_nat (findBlockSizeIndex local word))) as [c Hc]; [lia|].
    rewrite (deallocate_pushes p local s1 word (findBlockSizeIndex local word) head c);
      unfold FREE_BLOCK_HEADER_SIZE; try done; try lia.
    2-3: unfold vec_get;
         by destruct (Z.ltb_spec (findBlockSizeIndex local word) 0) as [|_]; [lia|].
    simpl. eexists. split; [done|]. simpl. split; [done|].
    unfold vec_get.
    destruct (Z.ltb_spec (findBlockSizeIndex local word) 0) as [|_]; [lia|].
    apply list_lookup_insert_eq. lia.
Qed.

Lemma facade_allocate_oversize_witness :
  MemoryManager.allocate 4096 (facade_of two_classes one_block_pool small_heap_with_page)
  = Some (65536, facade_of two_classes one_block_pool small_heap) ∧
  MemoryManager.deallocate 65536 (facade_of two_classes one_block_pool small_heap)
  = Some (facade_of two_classes one_block_pool (free 65536 small_heap)) ∧
  ∃ m2,
    MemoryManager.deallocate 65536
      (facade_of two_classes one_block_pool
         (malloc small_heap_stale_word).2) = Some m2 ∧
    released (MemoryManager.system m2) = [].
Proof.
  destruct (facade_allocate_oversize 4096
              (facade_of two_classes one_block_pool small_heap_with_page))
    as (Halloc & _ & _ & Hfree & _); [by vm_compute|].
  destruct (facade_allocate_oversize 4096
              (facade_of two_classes one_block_pool small_heap_stale_word))
    as (_ & _ & _ & _ & Hadopt); [by vm_compute|].
  split; [exact Halloc|]. split.
  - apply Hfree; [by vm_compute|left; by vm_compute].
  - destruct Hadopt as (m2 & Hm2 & Hreleased & _);
      [by vm_compute|by vm_compute|by vm_compute|reflexivity|reflexivity|].
    exists m2. split; [exact Hm2|exact Hreleased].
Defined.



(** X18. When the local class is empty and [malloc] has nothing to give,
    [MemoryManager::allocate] turns to the global pool: if its class holds a
    block, that block is popped and returned, with the local pool and memory
    unchanged; if its class is empty too, the call returns [nullptr] and
    changes nothing. *)
Theorem facade_allocate_falls_back_to_global
    (user_size : Z) (m : MemoryManager.state) (index : Z) :
  let local := ThreadLocalMemoryPool.pool_ (MemoryManager.local_pool_ m) in
  let global := GlobalMemoryPool.pool_ (MemoryManager.global_pool m) in
  let s := MemoryManager.system m in
  0 ≤ user_size ≤ MAX_USER_SIZE →
  findBlockSizeIndex local (calcAlignedTotalSize user_size) = index → index ≠ -1 →
  vec_get (free_lists_ local) index = Some 0 →
  malloc_results s = [] →
  (∀ gindex block c,
     findBlockSizeIndex global (calcAlignedTotalSize user_size) = gindex →
     gindex ≠ -1 →
     vec_get (free_lists_ global) gindex = Some block → 0 < block →
     vec_get (free_block_counts_ global) gindex = Some c →
     MemoryManager.allocate user_size m
     = Some (block + FREE_BLOCK_HEADER_SIZE,
             {| MemoryManager.local_pool_ := MemoryManager.local_pool_ m;
                MemoryManager.global_pool :=
                  {| GlobalMemoryPool.pool_ :=
                       popped gindex (load s (block + 8)) (load s block) c global |};
                MemoryManager.system := s |})) ∧
  (∀ gindex,
     findBlockSizeIndex global (calcAlignedTotalSize user_size) = gindex →
     gindex ≠ -1 →
     vec_get (free_lists_ global) gindex = Some 0 →
     MemoryManager.allocate user_size m = Some (0, m)).
Proof.
  intros local global s Hu Hfind Hidx Hhead Hmalloc.
  assert (Hnull : malloc s = (0, s)) by (unfold malloc; by rewrite Hmalloc).
  assert (Hlocal : allocate user_size local s = Some (0, local, s)).
  { pose proof (allocate_without_page user_size local s index Hu Hfind Hidx Hhead)
      as Hl.
    rewrite Hnull in Hl. by apply Hl. }
  split.
  - intros gindex block c Hgfind Hgidx Hghead Hblock Hgc.
    unfold MemoryManager.allocate, ThreadLocalMemoryPool.allocate,
      GlobalMemoryPool.allocate.
    fold local s. rewrite Hlocal. simpl. fold global.
    rewrite (allocate_nonempty user_size (calcAlignedTotalSize user_size) global s
               gindex block c); try done; try lia.
    simpl.
    destruct (Z.eqb_spec (block + FREE_BLOCK_HEADER_SIZE) 0) as [|_];
      [unfold FREE_BLOCK_HEADER_SIZE in *; lia|].
    simpl. by destruct m as [[l] g s0].
  - intros gindex Hgfind Hgidx Hghead.
    unfold MemoryManager.allocate, ThreadLocalMemoryPool.allocate,
      GlobalMemoryPool.allocate.
    fold local s. rewrite Hlocal. simpl. fold global.
    pose proof (allocate_without_page user_size global s gindex Hu Hgfind Hgidx Hghead)
      as Hg.
    rewrite Hnull in Hg. rewrite Hg by done. simpl. rewrite Hnull.
    by destruct m as [[l] [g] s0].
Qed.

Lemma facade_allocate_falls_back_to_global_witness :
  (∃ m', MemoryManager.allocate 16 (facade_of no_blocks two_classes small_heap)
         = Some (8192 + FREE_BLOCK_HEADER_SIZE, m')) ∧
  MemoryManager.allocate 16 (facade_of no_blocks no_blocks small_heap)
  = Some (0, facade_of no_blocks no_blocks small_heap).
Proof.
  destruct (facade_allocate_falls_back_to_global 16
              (facade_of no_blocks two_classes small_heap) 0) as [Hglobal _];
    [by vm_compute|reflexivity|lia|reflexivity|reflexivity|].
  destruct (facade_allocate_falls_back_to_global 16
              (facade_of no_blocks no_blocks small_heap) 0) as [_ Hnone];
    [by vm_compute|reflexivity|lia|reflexivity|reflexivity|].
  split.
  - eexists. apply (Hglobal 0 8192 2); [reflexivity|lia|reflexivity|lia|reflexivity].
  - apply (Hnone 0); [reflexivity|lia|reflexivity].
Defined.

(** * Further properties: what every operation keeps *)

Lemma reclaim_class_sizes i r p s r' p' s' :
  reclaim_class i (r, p, s) = Some (r', p', s') → block_sizes_ p' = block_sizes_ p.
Proof.
  unfold reclaim_class. intros Hrun.
  apply bind_Some in Hrun as (sz & _ & Hrun).
  apply bind_Some in Hrun as (c & _ & Hrun).
  repeat match type of Hrun with
         | (if ?b then _ else _) = _ =>
             destruct b; [by (injection Hrun as <- <- <-) || done|]
         end.
  apply bind_Some in Hrun as (head & _ & Hrun).
  apply bind_Some in Hrun as ([prev rh] & _ & Hrun).
  destruct (rh =? 0); [by injection Hrun as <- <- <-|].
  apply bind_Some in Hrun as ([fl s1] & _ & Hrun).
  apply bind_Some in Hrun as (counts & _ & Hrun).
  by injection Hrun as <- <- <-.
Qed.

Lemma reclaim_loop_sizes rounds :
  ∀ i r p s r' p' s',
    reclaim_loop rounds i (r, p, s) = Some (r', p', s') →
    block_sizes_ p' = block_sizes_ p.
Proof.
  induction rounds as [|rounds IH]; intros i r p s r' p' s' Hrun.
  { by injection Hrun as <- <- <-. }
  simpl in Hrun. apply bind_Some in Hrun as ([[r1 p1] s1] & Hstep & Hrun).
  apply reclaim_class_sizes in Hstep. apply IH in Hrun. congruence.
Qed.

Lemma transfer_loop_sizes fuel rounds :
  ∀ i src dest s src' dest' s',
    StronglySorted Z.lt (block_sizes_ src) →
    block_sizes_ dest = block_sizes_ src →
    transfer_loop fuel rounds i (src, dest, s) = Some (src', dest', s') →
    block_sizes_ src' = block_sizes_ src ∧ block_sizes_ dest' = block_sizes_ dest.
Proof.
  induction rounds as [|rounds IH]; intros i src dest s src' dest' s' Hsorted Htable Hrun.
  { by injection Hrun as <- <- <-. }
  simpl in Hrun. apply bind_Some in Hrun as ([[src1 dest1] s1] & Hstep & Hrun).
  assert (block_sizes_ src1 = block_sizes_ src ∧ block_sizes_ dest1 = block_sizes_ dest)
    as [Hs1 Hd1].
  { apply transfer_class_inv in Hstep
      as [(_ & -> & -> & _)|
          (head & sz & c & j & d0 & dc & dh & lst & _ & _ & Hsz & _ & Hadd & _ & _ & _
           & _ & -> & ->)]; [done|].
    simpl. split; [done|].
    apply vec_get_Some in Hsz as [_ Hsz].
    rewrite (addBlockSizeIfNotExist_present dest (Z.to_nat i) sz) in Hadd
      by (by rewrite Htable).
    by injection Hadd as _ <-. }
  apply IH in Hrun as [Hs2 Hd2]; [|by rewrite Hs1|congruence].
  split; congruence.
Qed.

(** X22. A pool with the table of the constructor keeps it: every request
    size up to [MAX_USER_SIZE] finds its class, so the insertion branch of
    [allocate] adds nothing, and [allocate], [deallocate],
    [reclaimIdleMemory] and [transferTo] (from a pool with the same table)
    leave [block_sizes_] as it was. *)
Theorem seeded_table_is_stable (p : BaseMemoryPool) (s : System) :
  block_sizes_ p = seeded_sizes →
  (∀ user_size, 0 ≤ user_size ≤ MAX_USER_SIZE →
     findBlockSizeIndex p (calcAlignedTotalSize user_size) ≠ -1 ∧
     addBlockSizeIfNotExist (calcAlignedTotalSize user_size) p
     = (findBlockSizeIndex p (calcAlignedTotalSize user_size), p)) ∧
  (∀ user_size r p' s', 0 ≤ user_size →
     allocate user_size p s = Some (r, p', s') → block_sizes_ p' = seeded_sizes) ∧
  (∀ user_ptr p' s',
     deallocate user_ptr p s = Some (p', s') → block_sizes_ p' = seeded_sizes) ∧
  (∀ reclaimed p' s',
     reclaimIdleMemory p s = Some (reclaimed, p', s') → block_sizes_ p' = seeded_sizes) ∧
  (∀ fuel src src' p' s', block_sizes_ src = seeded_sizes →
     transferTo fuel src p s = Some (src', p', s') →
     block_sizes_ src' = seeded_sizes ∧ block_sizes_ p' = seeded_sizes).
Proof.
  intros Htable. split; [|split; [|split; [|split]]].
  - intros user_size Hu.
    pose proof (seeded_sizes_cover_requests user_size Hu) as Hin.
    apply list_elem_of_lookup in Hin as [k Hk]. rewrite <- Htable in Hk.
    assert (StronglySorted Z.lt (block_sizes_ p)) as Hsorted
      by (rewrite Htable; apply seeded_sizes_sorted).
    rewrite (findBlockSizeIndex_sorted p k) by done.
    split; [lia|]. by apply addBlockSizeIfNotExist_present.
  - intros user_size r p' s' Hu Hrun. by eapply allocate_keeps_seeded_table.
  - intros user_ptr p' s' Hrun.
    apply deallocate_inv in Hrun as [->|(index & sz & c & _ & _ & ->)]; done.
  - intros reclaimed p' s' Hrun. apply reclaim_loop_sizes in Hrun. congruence.
  - intros fuel src src' p' s' Hsrc Hrun.
    apply transfer_loop_sizes in Hrun as [Hs Hd];
      [|rewrite Hsrc; apply seeded_sizes_sorted|congruence].
    split; congruence.
Qed.

Lemma seeded_table_is_stable_witness :
  findBlockSizeIndex new_BaseMemoryPool (calcAlignedTotalSize 15) ≠ -1 ∧
  ∃ r p' s', allocate 15 new_BaseMemoryPool one_page = Some (r, p', s') ∧
             block_sizes_ p' = seeded_sizes.
Proof.
  destruct (seeded_table_is_stable new_BaseMemoryPool one_page new_BaseMemoryPool_sizes)
    as (Hfound & Halloc & _).
  split.
  - apply Hfound. clear. unfold MAX_USER_SIZE. lia.
  - destruct (allocate 15 new_BaseMemoryPool one_page) as [[[r p'] s']|] eqn:Hrun;
      [|clear -Hrun; vm_compute in Hrun; discriminate Hrun].
    exists r, p', s'. split; [reflexivity|].
    apply (Halloc 15 r p' s'); [lia|exact Hrun].
Defined.

(** X23. On a pool with the constructor's table whose [total_free_memory_]
    is the sum over the classes of size times count (modulo [2^64]), that
    equation still holds after [deallocate], after [reclaimIdleMemory],
    after receiving blocks through [transferTo], and after an [allocate]
    that pops a block whose header still holds its class size. *)
Theorem free_memory_sum_is_kept (p : BaseMemoryPool) (s : System) :
  accounted p →
  (∀ user_size r p' s', 0 ≤ user_size →
     allocate user_size p s = Some (r, p', s') → r ≠ 0 →
     load s' (r - FREE_BLOCK_HEADER_SIZE) = calcAlignedTotalSize user_size →
     accounted p') ∧
  (∀ user_ptr p' s', deallocate user_ptr p s = Some (p', s') → accounted p') ∧
  (∀ reclaimed p' s', reclaimIdleMemory p s = Some (reclaimed, p', s') → accounted p') ∧
  (∀ fuel src src' p' s', block_sizes_ src = seeded_sizes →
     transferTo fuel src p s = Some (src', p', s') → accounted p').
Proof.
  intros Hacc. split; [|split; [|split]].
  - intros user_size r p' s' Hu Hrun Hr Hheader. by eapply allocate_accounted.
  - intros user_ptr p' s' Hrun. by eapply deallocate_accounted.
  - intros reclaimed p' s' Hrun. by eapply reclaim_below_threshold.
  - intros fuel src src' p' s' Hsrc Hrun. unfold transferTo in Hrun.
    by eapply transfer_loop_accounted.
Qed.

Lemma new_BaseMemoryPool_accounted : accounted new_BaseMemoryPool.
Proof.
  split.
  - by vm_compute.
  - by vm_compute.
  - apply (bool_decide_unpack _). by vm_compute.
  - by vm_compute.
Qed.

Lemma free_memory_sum_is_kept_witness :
  ∃ p' s', deallocate 116 new_BaseMemoryPool header_80 = Some (p', s') ∧
           accounted p'.
Proof.
  destruct (free_memory_sum_is_kept new_BaseMemoryPool header_80
              new_BaseMemoryPool_accounted) as (_ & Hfree & _).
  destruct (deallocate 116 new_BaseMemoryPool header_80) as [[p' s']|] eqn:Hrun;
    [|clear -Hrun; vm_compute in Hrun; discriminate Hrun].
  exists p', s'. split; [reflexivity|]. exact (Hfree 116 p' s' Hrun).
Defined.
